(** * lightweight-descheduler: a shallow embedding of the policy engine

    The development follows the package layout of the repository:
    [config] (configuration defaults and validation), [utils] (cluster view
    helpers), [eviction] (the pod evictor that every strategy goes through),
    [strategies] (RemoveFailedPods, LowNodeUtilization, RemoveDuplicates
    and the factory that assembles them) and [scheduler] (the periodic
    loop).

    Go's [int] is modelled as [Z] with the 64-bit wrap-around written out
    (the binary is built for amd64), Go maps as [gmap], with a missing key
    reading as the zero value, and the two effects of the program, log lines
    and calls to the eviction API, as a chronological trace of events. *)

From Stdlib Require Import ZArith Lia Ascii.
From stdpp Require Import gmap strings list fin_maps pretty sorting.

Local Open Scope Z_scope.

(** ** Go integers *)

Module GoInt.

Definition minInt : Z := - 2 ^ 63.
Definition maxInt : Z := 2 ^ 63 - 1.

Definition in_range (z : Z) : Prop := minInt <= z <= maxInt.

(** Two's complement reduction of a mathematical integer to an [int]. *)
Definition wrap (z : Z) : Z := (z + 2 ^ 63) mod 2 ^ 64 - 2 ^ 63.

Definition add (a b : Z) : Z := wrap (a + b).
Definition sub (a b : Z) : Z := wrap (a - b).
Definition mul (a b : Z) : Z := wrap (a * b).
(** Go's [/] truncates towards zero. *)
Definition quot (a b : Z) : Z := wrap (Z.quot a b).

End GoInt.

(** ** fmt.Sprintf, for the verbs the repository uses *)

Module fmt.

Inductive Arg : Type :=
| AStr (s : string)
| AInt (n : Z)
| ABool (b : bool)
| AStrs (l : list string).

(** How [%s], [%d] and [%v] print an operand of the matching type. *)
Definition render (a : Arg) : string :=
  match a with
  | AStr s => s
  | AInt n => pretty n
  | ABool b => if b then "true" else "false"
  | AStrs l => "[" +:+ String.concat " " l +:+ "]"
  end.

(** [%%] prints a percent sign; any other verb consumes one operand. A
    verb without operand prints Go's [%!v(MISSING)] marker. *)
Fixpoint Sprintf (format : string) (args : list Arg) : string :=
  match format with
  | EmptyString => EmptyString
  | String c rest =>
      if Ascii.eqb c "%"%char then
        match rest with
        | EmptyString => "%!(NOVERB)"
        | String v rest' =>
            if Ascii.eqb v "%"%char then String "%"%char (Sprintf rest' args)
            else
              match args with
              | a :: args' => render a +:+ Sprintf rest' args'
              | [] => "%!" +:+ String v ("(MISSING)" +:+ Sprintf rest' [])
              end
        end
      else String c (Sprintf rest args)
  end.

End fmt.

(** ** The platform objects the engine reads (k8s.io/api/core/v1) *)

Module OwnerReference.
Record t : Type := { Kind : string; Name : string; UID : string }.
End OwnerReference.

Module Volume.
(** [HostPath] and [EmptyDir] are pointers in the platform type: [None]
    is the nil pointer, the payload is the host path, respectively the
    storage medium. *)
Record t : Type := {
  Name : string;
  HostPath : option string;
  EmptyDir : option string
}.
End Volume.

Module Container.
Record t : Type := { Name : string; Image : string }.
End Container.

Inductive PodPhase : Type :=
| PodPending | PodRunning | PodSucceeded | PodFailed | PodUnknown.

Definition PodPhase_eqb (a b : PodPhase) : bool :=
  match a, b with
  | PodPending, PodPending | PodRunning, PodRunning
  | PodSucceeded, PodSucceeded | PodFailed, PodFailed
  | PodUnknown, PodUnknown => true
  | _, _ => false
  end.

(** The phase is a string type on the platform; this is its text. *)
Definition PodPhase_string (p : PodPhase) : string :=
  match p with
  | PodPending => "Pending"
  | PodRunning => "Running"
  | PodSucceeded => "Succeeded"
  | PodFailed => "Failed"
  | PodUnknown => "Unknown"
  end.

Module Pod.
(** Timestamps are instants on the integer time line; a nil deletion
    timestamp is [None]. [Priority] is the optional numeric priority. *)
Record t : Type := {
  Namespace : string;
  Name : string;
  OwnerReferences : list OwnerReference.t;
  Annotations : gmap string string;
  CreationTimestamp : Z;
  DeletionTimestamp : option Z;
  NodeName : string;
  PriorityClassName : string;
  Priority : option Z;
  Containers : list Container.t;
  Volumes : list Volume.t;
  Phase : PodPhase;
  Reason : string
}.
End Pod.

(** ** package config *)

Module config.

Record EvictionLimits : Type := {
  MaxPodsToEvictPerNode : Z;
  MaxPodsToEvictPerNamespace : Z;
  MaxPodsToEvictTotal : Z
}.

Record ResourceThresholds : Type := { CPU : Z; Memory : Z; Pods : Z }.

Record RemoveFailedPodsConfig : Type := {
  rfp_Enabled : bool;
  MinPodLifetimeSeconds : Z;
  rfp_ExcludeOwnerKinds : list string;
  rfp_IncludedNamespaces : list string;
  rfp_ExcludedNamespaces : list string
}.

Record LowNodeUtilizationConfig : Type := {
  lnu_Enabled : bool;
  Thresholds : ResourceThresholds;
  TargetThresholds : ResourceThresholds;
  NumberOfNodes : Z
}.

Record RemoveDuplicatesConfig : Type := {
  rd_Enabled : bool;
  rd_ExcludeOwnerKinds : list string;
  rd_IncludedNamespaces : list string;
  rd_ExcludedNamespaces : list string
}.

(** The strategy sections are pointers: an absent section is [None]. *)
Record StrategiesConfig : Type := {
  RemoveFailedPods : option RemoveFailedPodsConfig;
  LowNodeUtilization : option LowNodeUtilizationConfig;
  RemoveDuplicates : option RemoveDuplicatesConfig
}.

(** [Interval] is a [time.Duration]: a signed count of nanoseconds. *)
Record Config : Type := {
  Interval : Z;
  DryRun : bool;
  NodeSelector : gmap string string;
  Limits : EvictionLimits;
  Strategies : StrategiesConfig;
  LogLevel : string
}.

Definition Minute : Z := 60 * 1000000000.

Definition with_Interval (c : Config) (i : Z) : Config :=
  {| Interval := i; DryRun := DryRun c; NodeSelector := NodeSelector c;
     Limits := Limits c; Strategies := Strategies c;
     LogLevel := LogLevel c |}.

Definition with_LogLevel (c : Config) (l : string) : Config :=
  {| Interval := Interval c; DryRun := DryRun c;
     NodeSelector := NodeSelector c; Limits := Limits c;
     Strategies := Strategies c; LogLevel := l |}.

Definition with_Limits (c : Config) (l : EvictionLimits) : Config :=
  {| Interval := Interval c; DryRun := DryRun c;
     NodeSelector := NodeSelector c; Limits := l;
     Strategies := Strategies c; LogLevel := LogLevel c |}.

(** setDefaults: every field still at its zero value gets its default. *)
Definition setDefaults (c : Config) : Config :=
  let c := if Interval c =? 0 then with_Interval c (GoInt.mul 5 Minute)
           else c in
  let c := if String.eqb (LogLevel c) "" then with_LogLevel c "info"
           else c in
  let c := if MaxPodsToEvictPerNode (Limits c) =? 0 then
             with_Limits c
               {| MaxPodsToEvictPerNode := 10;
                  MaxPodsToEvictPerNamespace :=
                    MaxPodsToEvictPerNamespace (Limits c);
                  MaxPodsToEvictTotal := MaxPodsToEvictTotal (Limits c) |}
           else c in
  let c := if MaxPodsToEvictPerNamespace (Limits c) =? 0 then
             with_Limits c
               {| MaxPodsToEvictPerNode := MaxPodsToEvictPerNode (Limits c);
                  MaxPodsToEvictPerNamespace := 5;
                  MaxPodsToEvictTotal := MaxPodsToEvictTotal (Limits c) |}
           else c in
  let c := if MaxPodsToEvictTotal (Limits c) =? 0 then
             with_Limits c
               {| MaxPodsToEvictPerNode := MaxPodsToEvictPerNode (Limits c);
                  MaxPodsToEvictPerNamespace :=
                    MaxPodsToEvictPerNamespace (Limits c);
                  MaxPodsToEvictTotal := 50 |}
           else c in
  c.

(** validateResourceThresholds: [None] is the nil error. *)
Definition validateResourceThresholds (t : ResourceThresholds)
  : option string :=
  if (CPU t <? 0) || (100 <? CPU t) then
    Some (fmt.Sprintf "CPU threshold must be between 0 and 100" [])
  else if (Memory t <? 0) || (100 <? Memory t) then
    Some (fmt.Sprintf "Memory threshold must be between 0 and 100" [])
  else if (Pods t <? 0) || (100 <? Pods t) then
    Some (fmt.Sprintf "Pods threshold must be between 0 and 100" [])
  else None.

Definition validateConfig (c : Config) : option string :=
  if Interval c <? Minute then
    Some (fmt.Sprintf "interval must be at least 1 minute" [])
  else if MaxPodsToEvictPerNode (Limits c) <? 0 then
    Some (fmt.Sprintf "maxPodsToEvictPerNode must be >= 0" [])
  else if MaxPodsToEvictPerNamespace (Limits c) <? 0 then
    Some (fmt.Sprintf "maxPodsToEvictPerNamespace must be >= 0" [])
  else if MaxPodsToEvictTotal (Limits c) <? 0 then
    Some (fmt.Sprintf "maxPodsToEvictTotal must be >= 0" [])
  else
    match LowNodeUtilization (Strategies c) with
    | Some lnu =>
        if lnu_Enabled lnu then
          match validateResourceThresholds (Thresholds lnu) with
          | Some err =>
              Some (fmt.Sprintf "invalid thresholds: %v" [fmt.AStr err])
          | None =>
              match validateResourceThresholds (TargetThresholds lnu) with
              | Some err =>
                  Some (fmt.Sprintf "invalid targetThresholds: %v"
                          [fmt.AStr err])
              | None => None
              end
          end
        else None
    | None => None
    end.

(** LoadConfig after the file has been read and parsed: [parsed] is what
    the YAML decoder produced. The result is the configuration or the
    error. *)
Definition LoadConfig (parsed : Config) : Config + string :=
  let c := setDefaults parsed in
  match validateConfig c with
  | Some err => inr (fmt.Sprintf "invalid config: %v" [fmt.AStr err])
  | None => inl c
  end.

End config.

(** ** Nodes *)

Module NodeCondition.
Record t : Type := { Type_ : string; Status : string }.
End NodeCondition.

Module Node.
Record t : Type := {
  Name : string;
  Labels : gmap string string;
  Unschedulable : bool;
  Conditions : list NodeCondition.t
}.
End Node.

(** ** The outside world: log lines and the cluster API

    Every klog call and every request to the cluster API appends one event
    to the trace. What the API answers is not decided by the program: the
    [Client] answers from the history so far, so that successive calls may
    be answered differently. An answer [Some err] to an eviction is the
    error of the call, [None] is success. *)

Module Eviction.
(** The policy/v1 Eviction object posted to the API. *)
Record t : Type := {
  APIVersion : string;
  Kind : string;
  Name : string;
  Namespace : string;
  GracePeriodSeconds : Z
}.
End Eviction.

Inductive Severity : Type := Info | Error.

Inductive Event : Type :=
| Log (sev : Severity) (verbosity : Z) (line : string)
| ApiListNodes
| ApiListPods (nodeName : string)
| ApiEvict (ev : Eviction.t).

Record Client : Type := {
  ListNodes : list Event -> list Node.t + string;
  ListPods : list Event -> string -> list Pod.t + string;
  Evict : list Event -> Eviction.t -> option string
}.

(** ** package utils *)

Module utils.

(** Contains: linear search in a slice. *)
Fixpoint Contains (slice : list string) (item : string) : bool :=
  match slice with
  | [] => false
  | s :: slice' => if String.eqb s item then true else Contains slice' item
  end.

(** RemoveFromSlice: the elements other than [item], appended in order to
    a new slice. *)
Definition RemoveFromSlice (slice : list string) (item : string)
  : list string :=
  fold_left
    (fun result s => if negb (String.eqb s item) then result ++ [s] else result)
    slice [].

Record NodeResourceUtilization : Type := {
  NodeName : string;
  CPUUsage : Z;
  MemoryUsage : Z;
  PodsCount : Z;
  CPUPercent : Z;
  MemoryPercent : Z;
  PodsPercent : Z
}.

Definition IsNodeUnderUtilized (u : NodeResourceUtilization)
    (thresholds : config.ResourceThresholds) : bool :=
  (CPUPercent u <? config.CPU thresholds)
  && (MemoryPercent u <? config.Memory thresholds)
  && (PodsPercent u <? config.Pods thresholds).

Definition IsNodeOverUtilized (u : NodeResourceUtilization)
    (thresholds : config.ResourceThresholds) : bool :=
  (config.CPU thresholds <? CPUPercent u)
  || (config.Memory thresholds <? MemoryPercent u)
  || (config.Pods thresholds <? PodsPercent u).

(** Go compares strings byte by byte; so does [String.leb]. *)
Definition string_le (a b : string) : Prop := String.leb a b = true.

#[global] Instance string_le_dec a b : Decision (string_le a b).
Proof. unfold string_le. apply _. Defined.

(** sort.Strings. The library sorts with an unstable algorithm, but on
    strings the ascending order is total and antisymmetric, so there is
    one sorted arrangement of a slice ([sort_Strings_unique] below) and
    any sorting function computes it. *)
Definition sort_Strings (l : list string) : list string :=
  merge_sort string_le l.

Definition GetPodImages (pod : Pod.t) : list string :=
  sort_Strings (map Container.Image (Pod.Containers pod)).

Definition ownerPart (owner : OwnerReference.t) : string :=
  fmt.Sprintf "%s:%s" [fmt.AStr (OwnerReference.Kind owner);
                       fmt.AStr (OwnerReference.Name owner)].

(** strings.Join is [String.concat]. *)
Definition GeneratePodSignature (pod : Pod.t) : string :=
  let parts := [Pod.Namespace pod] in
  let parts := parts ++ map ownerPart (Pod.OwnerReferences pod) in
  let images := GetPodImages pod in
  let parts := parts ++ [String.concat "," images] in
  String.concat "|" parts.

(** IsReadyNode: the first condition of type Ready decides. *)
Fixpoint readyCondition (conds : list NodeCondition.t) : bool :=
  match conds with
  | [] => false
  | c :: conds' =>
      if String.eqb (NodeCondition.Type_ c) "Ready"
      then String.eqb (NodeCondition.Status c) "True"
      else readyCondition conds'
  end.

Definition IsReadyNode (node : Node.t) : bool :=
  readyCondition (Node.Conditions node).

Definition IsSchedulableNode (node : Node.t) : bool :=
  negb (Node.Unschedulable node).

Definition FilterReadySchedulableNodes (nodes : list Node.t)
  : list Node.t :=
  filter (fun node => IsReadyNode node && IsSchedulableNode node = true)
         nodes.

End utils.

(** ** package eviction *)

Module eviction.

Record EvictionStats : Type := {
  TotalEvicted : Z;
  EvictedByNode : gmap string Z;
  EvictedByNamespace : gmap string Z;
  EvictedByReason : gmap string Z;
  FailedEvictions : Z
}.

(** The stats a fresh evictor and ResetStats install: zero counters and
    three new empty maps. *)
Definition zeroStats : EvictionStats :=
  {| TotalEvicted := 0; EvictedByNode := ∅; EvictedByNamespace := ∅;
     EvictedByReason := ∅; FailedEvictions := 0 |}.

(** Reading a Go map: an absent key reads as 0. *)
Definition at_key (m : gmap string Z) (k : string) : Z :=
  default 0 (m !! k).

(** [m[k]++] *)
Definition incr_key (m : gmap string Z) (k : string) : gmap string Z :=
  <[k := GoInt.add (at_key m k) 1]> m.

Record DefaultPodEvictor : Type := {
  client : Client;
  config : config.Config;
  stats : EvictionStats;
  gracePeriod : Z
}.

Definition with_stats (e : DefaultPodEvictor) (s : EvictionStats)
  : DefaultPodEvictor :=
  {| client := client e; config := config e; stats := s;
     gracePeriod := gracePeriod e |}.

Definition NewDefaultPodEvictor (c : Client) (cfg : config.Config)
  : DefaultPodEvictor :=
  {| client := c; config := cfg; stats := zeroStats; gracePeriod := 30 |}.

(** The state the methods run in: the evictor and the trace of what the
    process has logged and requested so far. The mutex the methods take
    serialises them; a run of the model is one such serial order. *)
Record World : Type := { evictor : DefaultPodEvictor; trace : list Event }.

Definition M (A : Type) : Type := World -> A * World.

Definition ret {A} (a : A) : M A := fun w => (a, w).

Definition bind {A B} (m : M A) (k : A -> M B) : M B :=
  fun w => let (a, w') := m w in k a w'.

Definition emit (ev : Event) : M unit :=
  fun w => (tt, {| evictor := evictor w; trace := trace w ++ [ev] |}).

Definition modify_stats (f : EvictionStats -> EvictionStats) : M unit :=
  fun w => (tt, {| evictor := with_stats (evictor w) (f (stats (evictor w)));
                   trace := trace w |}).

Definition get_evictor : M DefaultPodEvictor := fun w => (evictor w, w).
Definition get_trace : M (list Event) := fun w => (trace w, w).

Declare Scope evict_scope.
Delimit Scope evict_scope with evict.
Notation "'do' x <- c ; k" := (bind c (fun x => k))
  (at level 10, x name, c at level 100, k at level 200) : evict_scope.
Notation "c ;; k" := (bind c (fun _ => k))
  (at level 100, k at level 200, right associativity) : evict_scope.
Local Open Scope evict_scope.

Definition Infof (format : string) (args : list fmt.Arg) : M unit :=
  emit (Log Info 0 (fmt.Sprintf format args)).

Definition Errorf (format : string) (args : list fmt.Arg) : M unit :=
  emit (Log Error 0 (fmt.Sprintf format args)).

(** klog.V(v).Infof *)
Definition VInfof (v : Z) (format : string) (args : list fmt.Arg)
  : M unit :=
  emit (Log Info v (fmt.Sprintf format args)).

(** checkEvictionLimits: the error, or [None] for nil. *)
Definition checkEvictionLimits (e : DefaultPodEvictor) (pod : Pod.t)
  : option string :=
  let limits := config.Limits (config e) in
  if (0 <? config.MaxPodsToEvictTotal limits)
     && (config.MaxPodsToEvictTotal limits <=? TotalEvicted (stats e))
  then
    Some (fmt.Sprintf "reached total eviction limit: %d"
            [fmt.AInt (config.MaxPodsToEvictTotal limits)])
  else if (0 <? config.MaxPodsToEvictPerNode limits)
          && negb (String.eqb (Pod.NodeName pod) "")
          && (config.MaxPodsToEvictPerNode limits
              <=? at_key (EvictedByNode (stats e)) (Pod.NodeName pod))
  then
    Some (fmt.Sprintf "reached node %s eviction limit: %d"
            [fmt.AStr (Pod.NodeName pod);
             fmt.AInt (config.MaxPodsToEvictPerNode limits)])
  else if (0 <? config.MaxPodsToEvictPerNamespace limits)
          && (config.MaxPodsToEvictPerNamespace limits
              <=? at_key (EvictedByNamespace (stats e)) (Pod.Namespace pod))
  then
    Some (fmt.Sprintf "reached namespace %s eviction limit: %d"
            [fmt.AStr (Pod.Namespace pod);
             fmt.AInt (config.MaxPodsToEvictPerNamespace limits)])
  else None.

(** updateStats *)
Definition updateStats (pod : Pod.t) (reason : string) (success : bool)
    (s : EvictionStats) : EvictionStats :=
  if success then
    {| TotalEvicted := GoInt.add (TotalEvicted s) 1;
       EvictedByNode :=
         if negb (String.eqb (Pod.NodeName pod) "")
         then incr_key (EvictedByNode s) (Pod.NodeName pod)
         else EvictedByNode s;
       EvictedByNamespace :=
         incr_key (EvictedByNamespace s) (Pod.Namespace pod);
       EvictedByReason := incr_key (EvictedByReason s) reason;
       FailedEvictions := FailedEvictions s |}
  else s.

Definition failedEviction (s : EvictionStats) : EvictionStats :=
  {| TotalEvicted := TotalEvicted s;
     EvictedByNode := EvictedByNode s;
     EvictedByNamespace := EvictedByNamespace s;
     EvictedByReason := EvictedByReason s;
     FailedEvictions := GoInt.add (FailedEvictions s) 1 |}.

(** The API call [client.PolicyV1().Evictions(ns).Evict(ctx, eviction)]:
    it is recorded in the trace and answered by the client. *)
Definition callEvict (ev : Eviction.t) : M (option string) :=
  do e <- get_evictor;
  do history <- get_trace;
  emit (ApiEvict ev);;
  ret (Evict (client e) history ev).

(** EvictPod: the returned value is the error, [None] for nil. *)
Definition EvictPod (pod : Pod.t) (reason : string) : M (option string) :=
  do e <- get_evictor;
  match checkEvictionLimits e pod with
  | Some err => ret (Some err)
  | None =>
      if config.DryRun (config e) then
        Infof "[DryRun] Would evict pod %s/%s on node %s, reason: %s"
          [fmt.AStr (Pod.Namespace pod); fmt.AStr (Pod.Name pod);
           fmt.AStr (Pod.NodeName pod); fmt.AStr reason];;
        modify_stats (updateStats pod reason true);;
        ret None
      else
        let eviction :=
          {| Eviction.APIVersion := "policy/v1";
             Eviction.Kind := "Eviction";
             Eviction.Name := Pod.Name pod;
             Eviction.Namespace := Pod.Namespace pod;
             Eviction.GracePeriodSeconds := gracePeriod e |} in
        do err <- callEvict eviction;
        match err with
        | Some err =>
            modify_stats failedEviction;;
            Errorf "Failed to evict pod %s/%s: %v"
              [fmt.AStr (Pod.Namespace pod); fmt.AStr (Pod.Name pod);
               fmt.AStr err];;
            ret (Some (fmt.Sprintf "failed to evict pod %s/%s: %v"
                         [fmt.AStr (Pod.Namespace pod);
                          fmt.AStr (Pod.Name pod); fmt.AStr err]))
        | None =>
            Infof "Successfully evicted pod %s/%s on node %s, reason: %s"
              [fmt.AStr (Pod.Namespace pod); fmt.AStr (Pod.Name pod);
               fmt.AStr (Pod.NodeName pod); fmt.AStr reason];;
            modify_stats (updateStats pod reason true);;
            ret None
        end
  end.

Definition isSystemCriticalPod (pod : Pod.t) : bool :=
  if String.eqb (Pod.PriorityClassName pod) "system-cluster-critical"
     || String.eqb (Pod.PriorityClassName pod) "system-node-critical"
  then true
  else
    let systemNamespaces := ["kube-system"; "kube-public"; "kube-node-lease"] in
    existsb (fun ns => String.eqb (Pod.Namespace pod) ns) systemNamespaces.

Definition isDaemonSetPod (pod : Pod.t) : bool :=
  existsb (fun owner => String.eqb (OwnerReference.Kind owner) "DaemonSet")
          (Pod.OwnerReferences pod).

Definition isStaticPod (pod : Pod.t) : bool :=
  match Pod.Annotations pod !! "kubernetes.io/config.source" with
  | Some source => String.eqb source "file"
  | None => false
  end.

Definition isStandalonePod (pod : Pod.t) : bool :=
  (Z.of_nat (length (Pod.OwnerReferences pod)) =? 0).

Definition isSome {A} (o : option A) : bool :=
  match o with Some _ => true | None => false end.

Definition hasLocalStorage (pod : Pod.t) : bool :=
  existsb (fun volume => isSome (Volume.HostPath volume)
                         || isSome (Volume.EmptyDir volume))
          (Pod.Volumes pod).

(** CanEvictPod is a method of the evictor, which it never reads. *)
Definition CanEvictPod (e : DefaultPodEvictor) (pod : Pod.t)
  : bool * string :=
  if isSystemCriticalPod pod then (false, "system critical pod")
  else if isDaemonSetPod pod then (false, "daemonset pod")
  else if isStaticPod pod then (false, "static pod")
  else if isStandalonePod pod
          && negb (PodPhase_eqb (Pod.Phase pod) PodFailed)
  then (false, "standalone pod (not failed)")
  else if isSome (Pod.DeletionTimestamp pod)
  then (false, "pod is being deleted")
  else if hasLocalStorage pod then (false, "pod has local storage")
  else (true, "").

(** GetEvictionStats copies each map entry by entry into a new map. *)
Definition copyMap (m : gmap string Z) : gmap string Z :=
  map_fold (fun k v acc => <[k := v]> acc) ∅ m.

Definition GetEvictionStats (e : DefaultPodEvictor) : EvictionStats :=
  {| TotalEvicted := TotalEvicted (stats e);
     FailedEvictions := FailedEvictions (stats e);
     EvictedByNode := copyMap (EvictedByNode (stats e));
     EvictedByNamespace := copyMap (EvictedByNamespace (stats e));
     EvictedByReason := copyMap (EvictedByReason (stats e)) |}.

Definition ResetStats : M unit := modify_stats (fun _ => zeroStats).

End eviction.

(** ** package strategies *)

Module strategies.

Import eviction.
Local Open Scope evict_scope.

(** The listing call both strategies make:
    [client.CoreV1().Pods("").List] with a field selector on the node. *)
Definition listPodsOnNode (c : Client) (nodeName : string)
  : M (list Pod.t + string) :=
  do history <- get_trace;
  emit (ApiListPods nodeName);;
  ret (ListPods c history nodeName).

(** *** LowNodeUtilization *)

Section LowNodeUtilizationStrategy.

(** The fields of the strategy value; its evictor is the one of the
    world the methods run in. *)
Variable s_client : Client.
Variable s_config : config.LowNodeUtilizationConfig.

Definition max (a b : Z) : Z := if b <? a then a else b.
Definition min (a b : Z) : Z := if a <? b then a else b.

Definition getPodsOnNode (nodeName : string) : M (list Pod.t + string) :=
  listPodsOnNode s_client nodeName.

Definition getEvictablePodsOnNode (nodeName : string)
  : M (list Pod.t + string) :=
  do listed <- getPodsOnNode nodeName;
  match listed with
  | inr err => ret (inr err)
  | inl pods =>
      do e <- get_evictor;
      ret (inl
             (filter
                (fun pod =>
                   negb (PodPhase_eqb (Pod.Phase pod) PodSucceeded
                         || PodPhase_eqb (Pod.Phase pod) PodFailed)
                   && fst (CanEvictPod e pod) = true)
                pods))
  end.

Definition isLowPriority (pod : Pod.t) : bool :=
  String.eqb (Pod.PriorityClassName pod) ""
  || match Pod.Priority pod with
     | None => true
     | Some priority => priority <=? 0
     end.

(** sortPodsByPriority: two slices filled in encounter order, the
    low-priority one in front. *)
Definition sortPodsByPriority (pods : list Pod.t) : list Pod.t :=
  let '(lowPriorityPods, normalPods) :=
    fold_left
      (fun '(lowPriorityPods, normalPods) pod =>
         if isLowPriority pod then (lowPriorityPods ++ [pod], normalPods)
         else (lowPriorityPods, normalPods ++ [pod]))
      pods ([], []) in
  lowPriorityPods ++ normalPods.

Definition calculateMaxEvictions
    (nodeUtil : utils.NodeResourceUtilization) : Z :=
  let target := config.TargetThresholds s_config in
  let cpuExcess :=
    max 0 (GoInt.sub (utils.CPUPercent nodeUtil) (config.CPU target)) in
  let memoryExcess :=
    max 0 (GoInt.sub (utils.MemoryPercent nodeUtil)
                     (config.Memory target)) in
  let podsExcess :=
    max 0 (GoInt.sub (utils.PodsPercent nodeUtil) (config.Pods target)) in
  let maxExcess := max cpuExcess (max memoryExcess podsExcess) in
  let evictions := max 1 (min 5 (GoInt.quot maxExcess 10)) in
  evictions.

(** The counters of evictPodsFromOverUtilizedNodes: [evicted] is local
    to one node, the other two run over the whole call. *)
Record Counters : Type := {
  evicted : Z;
  evictedCount : Z;
  skippedCount : Z
}.

(** The loop over the sorted pods of one over-utilized node. *)
Fixpoint evictFromNode (nodeUtil : utils.NodeResourceUtilization)
    (maxEvictions : Z) (sortedPods : list Pod.t) (c : Counters)
  : M Counters :=
  match sortedPods with
  | [] => ret c
  | pod :: sortedPods' =>
      if maxEvictions <=? evicted c then ret c
      else
        do e <- get_evictor;
        let '(canEvict, reason) := CanEvictPod e pod in
        if negb canEvict then
          VInfof 3 "Skipping pod %s/%s: %s"
            [fmt.AStr (Pod.Namespace pod); fmt.AStr (Pod.Name pod);
             fmt.AStr reason];;
          evictFromNode nodeUtil maxEvictions sortedPods'
            {| evicted := evicted c; evictedCount := evictedCount c;
               skippedCount := GoInt.add (skippedCount c) 1 |}
        else
          let evictionReason :=
            fmt.Sprintf
              "Node over-utilization balancing - CPU=%d%%, Memory=%d%%, Pods=%d%%"
              [fmt.AInt (utils.CPUPercent nodeUtil);
               fmt.AInt (utils.MemoryPercent nodeUtil);
               fmt.AInt (utils.PodsPercent nodeUtil)] in
          do err <- EvictPod pod evictionReason;
          match err with
          | Some err =>
              Errorf "Failed to evict pod %s/%s: %v"
                [fmt.AStr (Pod.Namespace pod); fmt.AStr (Pod.Name pod);
                 fmt.AStr err];;
              evictFromNode nodeUtil maxEvictions sortedPods' c
          | None =>
              VInfof 2
                "Successfully evicted pod %s/%s from over-utilized node %s"
                [fmt.AStr (Pod.Namespace pod); fmt.AStr (Pod.Name pod);
                 fmt.AStr (utils.NodeName nodeUtil)];;
              evictFromNode nodeUtil maxEvictions sortedPods'
                {| evicted := GoInt.add (evicted c) 1;
                   evictedCount := GoInt.add (evictedCount c) 1;
                   skippedCount := skippedCount c |}
          end
  end.

(** The body of the loop over the over-utilized nodes. *)
Definition evictFromOverUtilizedNode
    (nodeUtil : utils.NodeResourceUtilization) (c : Counters)
  : M Counters :=
  VInfof 2 "Processing over-utilized node: %s (CPU=%d%%, Memory=%d%%, Pods=%d%%)"
    [fmt.AStr (utils.NodeName nodeUtil);
     fmt.AInt (utils.CPUPercent nodeUtil);
     fmt.AInt (utils.MemoryPercent nodeUtil);
     fmt.AInt (utils.PodsPercent nodeUtil)];;
  do listed <- getEvictablePodsOnNode (utils.NodeName nodeUtil);
  match listed with
  | inr err =>
      Errorf "Failed to get evictable pods on node %s: %v"
        [fmt.AStr (utils.NodeName nodeUtil); fmt.AStr err];;
      ret c
  | inl evictablePods =>
      let sortedPods := sortPodsByPriority evictablePods in
      let maxEvictions := calculateMaxEvictions nodeUtil in
      do c' <- evictFromNode nodeUtil maxEvictions sortedPods
                 {| evicted := 0; evictedCount := evictedCount c;
                    skippedCount := skippedCount c |};
      VInfof 2 "Evicted %d pods from node %s"
        [fmt.AInt (evicted c'); fmt.AStr (utils.NodeName nodeUtil)];;
      ret c'
  end.

Fixpoint evictFromOverUtilizedNodes
    (overUtilizedNodes : list utils.NodeResourceUtilization)
    (c : Counters) : M Counters :=
  match overUtilizedNodes with
  | [] => ret c
  | nodeUtil :: rest =>
      do c' <- evictFromOverUtilizedNode nodeUtil c;
      evictFromOverUtilizedNodes rest c'
  end.

(** evictPodsFromOverUtilizedNodes; it always returns the nil error. *)
Definition evictPodsFromOverUtilizedNodes
    (overUtilizedNodes lowUtilizedNodes
       : list utils.NodeResourceUtilization)
  : M (option string) :=
  do c <- evictFromOverUtilizedNodes overUtilizedNodes
            {| evicted := 0; evictedCount := 0; skippedCount := 0 |};
  Infof "LowNodeUtilization strategy completed. Evicted: %d, Skipped: %d"
    [fmt.AInt (evictedCount c); fmt.AInt (skippedCount c)];;
  ret None.

End LowNodeUtilizationStrategy.

(** *** RemoveDuplicates *)

Section RemoveDuplicatesStrategy.

Variable s_client : Client.
Variable s_config : config.RemoveDuplicatesConfig.

(** Go leaves the order in which [range] visits a map unspecified. The
    three ranges of this strategy take their order from here: each
    function lists the entries of the map it is given in the order of
    that visit. *)
Variable rangeGroups :
  gmap string (gmap string (list Pod.t))
  -> list (string * gmap string (list Pod.t)).
Variable rangeNodes1 rangeNodes2 :
  gmap string (list Pod.t) -> list (string * list Pod.t).

Definition Name : string := "RemoveDuplicates".

Definition len {A} (l : list A) : Z := Z.of_nat (length l).

Definition shouldProcessNamespace (namespace : string) : bool :=
  if 0 <? len (config.rd_IncludedNamespaces s_config) then
    utils.Contains (config.rd_IncludedNamespaces s_config) namespace
  else if 0 <? len (config.rd_ExcludedNamespaces s_config) then
    negb (utils.Contains (config.rd_ExcludedNamespaces s_config) namespace)
  else true.

Definition shouldProcessPod (pod : Pod.t) : bool :=
  if len (Pod.OwnerReferences pod) =? 0 then false
  else if 0 <? len (config.rd_ExcludeOwnerKinds s_config) then
    negb (existsb
            (fun ownerRef =>
               utils.Contains (config.rd_ExcludeOwnerKinds s_config)
                              (OwnerReference.Kind ownerRef))
            (Pod.OwnerReferences pod))
  else true.

Definition getProcessablePods (nodeName : string)
  : M (list Pod.t + string) :=
  do listed <- listPodsOnNode s_client nodeName;
  match listed with
  | inr err => ret (inr err)
  | inl items =>
      ret (inl
             (filter
                (fun pod =>
                   PodPhase_eqb (Pod.Phase pod) PodRunning
                   && shouldProcessNamespace (Pod.Namespace pod)
                   && shouldProcessPod pod = true)
                items))
  end.

(** [podGroups[signature][node.Name] = append(..., pod)], the inner map
    created on first use. *)
Definition addToGroup (nodeName : string)
    (podGroups : gmap string (gmap string (list Pod.t))) (pod : Pod.t)
  : gmap string (gmap string (list Pod.t)) :=
  let signature := utils.GeneratePodSignature pod in
  let nodePodsMap := default ∅ (podGroups !! signature) in
  <[signature :=
      <[nodeName := default [] (nodePodsMap !! nodeName) ++ [pod]]>
        nodePodsMap]> podGroups.

Fixpoint groupPodsBySignatureFrom (nodes : list Node.t)
    (podGroups : gmap string (gmap string (list Pod.t)))
  : M (gmap string (gmap string (list Pod.t)) + string) :=
  match nodes with
  | [] => ret (inl podGroups)
  | node :: nodes' =>
      VInfof 2 "Processing node: %s" [fmt.AStr (Node.Name node)];;
      do listed <- getProcessablePods (Node.Name node);
      match listed with
      | inr err =>
          ret (inr (fmt.Sprintf "failed to get pods on node %s: %v"
                      [fmt.AStr (Node.Name node); fmt.AStr err]))
      | inl pods =>
          groupPodsBySignatureFrom nodes'
            (fold_left (addToGroup (Node.Name node)) pods podGroups)
      end
  end.

Definition groupPodsBySignature (nodes : list Node.t)
  : M (gmap string (gmap string (list Pod.t)) + string) :=
  groupPodsBySignatureFrom nodes ∅.

(** findDuplicateNodes. [range1] and [range2] are the entries of
    [nodePodsMap] as its first and its second range visit them. *)
Definition findDuplicateNodes (nodePodsMap : gmap string (list Pod.t))
    (range1 range2 : list (string * list Pod.t)) : list string :=
  let duplicateNodes := [] in
  if Z.of_nat (size nodePodsMap) <? 2 then duplicateNodes
  else
    let duplicateNodes :=
      fold_left
        (fun duplicateNodes '(nodeName, pods) =>
           if 1 <? len pods then duplicateNodes ++ [nodeName]
           else duplicateNodes)
        range1 duplicateNodes in
    if (len duplicateNodes =? 0) && (1 <? Z.of_nat (size nodePodsMap))
    then
      let '(maxPods, maxNode) :=
        fold_left
          (fun '(maxPods, maxNode) '(nodeName, pods) =>
             if maxPods <? len pods then (len pods, nodeName)
             else (maxPods, maxNode))
          range2 (0, "") in
      if negb (String.eqb maxNode "") then duplicateNodes ++ [maxNode]
      else duplicateNodes
    else duplicateNodes.

(** [a.CreationTimestamp.After(b.CreationTimestamp.Time)] *)
Definition After (a b : Pod.t) : bool :=
  Pod.CreationTimestamp b <? Pod.CreationTimestamp a.

(** The inner loop of the bubble sort: [k] comparisons of neighbours
    from the front, swapping where the earlier one is younger. *)
Fixpoint bubble (k : nat) (sortedPods : list Pod.t) : list Pod.t :=
  match k, sortedPods with
  | S k', a :: b :: rest =>
      if After a b then b :: bubble k' (a :: rest)
      else a :: bubble k' (b :: rest)
  | _, _ => sortedPods
  end.

(** The outer loop: [passes] more passes, the next one with index [i]. *)
Fixpoint bubblePasses (passes i : nat) (sortedPods : list Pod.t)
  : list Pod.t :=
  match passes with
  | O => sortedPods
  | S passes' =>
      bubblePasses passes' (S i)
        (bubble (length sortedPods - i - 1) sortedPods)
  end.

(** sortPodsByAge: the copy of the slice, bubble sorted. *)
Definition sortPodsByAge (pods : list Pod.t) : list Pod.t :=
  bubblePasses (length pods - 1) 0 pods.

Definition canEvictPod (e : DefaultPodEvictor) (pod : Pod.t)
  : bool * string :=
  CanEvictPod e pod.

Record DupCounters : Type := {
  dup_evictedCount : Z;
  dup_skippedCount : Z
}.

(** One round of the loop [for i := 1; i < len(sortedPods); i++]. *)
Definition evictDuplicate (nodeName : string) (pod : Pod.t)
    (c : DupCounters) : M DupCounters :=
  do e <- get_evictor;
  let '(canEvict, reason) := canEvictPod e pod in
  if negb canEvict then
    VInfof 3 "Skipping duplicate pod %s/%s: %s"
      [fmt.AStr (Pod.Namespace pod); fmt.AStr (Pod.Name pod);
       fmt.AStr reason];;
    ret {| dup_evictedCount := dup_evictedCount c;
           dup_skippedCount := GoInt.add (dup_skippedCount c) 1 |}
  else
    let evictionReason :=
      fmt.Sprintf "Duplicate pod removal - keeping oldest pod on node %s"
        [fmt.AStr nodeName] in
    do err <- EvictPod pod evictionReason;
    match err with
    | Some err =>
        Errorf "Failed to evict duplicate pod %s/%s: %v"
          [fmt.AStr (Pod.Namespace pod); fmt.AStr (Pod.Name pod);
           fmt.AStr err];;
        ret c
    | None =>
        VInfof 2 "Successfully evicted duplicate pod %s/%s from node %s"
          [fmt.AStr (Pod.Namespace pod); fmt.AStr (Pod.Name pod);
           fmt.AStr nodeName];;
        ret {| dup_evictedCount := GoInt.add (dup_evictedCount c) 1;
               dup_skippedCount := dup_skippedCount c |}
    end.

(** The loop itself: [rounds] rounds are left, the next one reads
    [sortedPods[i]]. An index outside the slice would panic; the loop
    condition keeps [i] inside. *)
Fixpoint evictDuplicatesFrom (rounds i : nat) (nodeName : string)
    (sortedPods : list Pod.t) (c : DupCounters) : M DupCounters :=
  match rounds with
  | O => ret c
  | S rounds' =>
      match sortedPods !! i with
      | None => ret c
      | Some pod =>
          do c' <- evictDuplicate nodeName pod c;
          evictDuplicatesFrom rounds' (S i) nodeName sortedPods c'
      end
  end.

(** The body of the loop over the duplicate nodes of one group. *)
Definition processDuplicateNode (nodePodsMap : gmap string (list Pod.t))
    (nodeName : string) (c : DupCounters) : M DupCounters :=
  let pods := default [] (nodePodsMap !! nodeName) in
  if len pods <=? 1 then ret c
  else
    let sortedPods := sortPodsByAge pods in
    evictDuplicatesFrom (length sortedPods - 1) 1 nodeName sortedPods c.

Fixpoint processDuplicateNodes (nodePodsMap : gmap string (list Pod.t))
    (duplicateNodes : list string) (c : DupCounters) : M DupCounters :=
  match duplicateNodes with
  | [] => ret c
  | nodeName :: rest =>
      do c' <- processDuplicateNode nodePodsMap nodeName c;
      processDuplicateNodes nodePodsMap rest c'
  end.

(** The body of the loop over the signature groups. *)
Definition processGroup (signature : string)
    (nodePodsMap : gmap string (list Pod.t)) (c : DupCounters)
  : M DupCounters :=
  VInfof 3 "Processing pod signature: %s" [fmt.AStr signature];;
  let duplicateNodes :=
    findDuplicateNodes nodePodsMap (rangeNodes1 nodePodsMap)
                       (rangeNodes2 nodePodsMap) in
  if len duplicateNodes =? 0 then ret c
  else
    VInfof 2 "Found duplicates for signature %s on nodes: %v"
      [fmt.AStr signature; fmt.AStrs duplicateNodes];;
    processDuplicateNodes nodePodsMap duplicateNodes c.

Fixpoint processGroups
    (groups : list (string * gmap string (list Pod.t)))
    (c : DupCounters) : M DupCounters :=
  match groups with
  | [] => ret c
  | (signature, nodePodsMap) :: rest =>
      do c' <- processGroup signature nodePodsMap c;
      processGroups rest c'
  end.

(** Execute; the node list is the one the scheduler filtered. *)
Definition Execute (nodes : list Node.t) : M (option string) :=
  Infof "Executing %s strategy" [fmt.AStr Name];;
  do grouped <- groupPodsBySignature nodes;
  match grouped with
  | inr err =>
      ret (Some (fmt.Sprintf "failed to group pods by signature: %v"
                   [fmt.AStr err]))
  | inl podGroups =>
      VInfof 2 "Found %d unique pod signatures"
        [fmt.AInt (Z.of_nat (size podGroups))];;
      do c <- processGroups (rangeGroups podGroups)
                {| dup_evictedCount := 0; dup_skippedCount := 0 |};
      Infof "RemoveDuplicates strategy completed. Evicted: %d, Skipped: %d"
        [fmt.AInt (dup_evictedCount c); fmt.AInt (dup_skippedCount c)];;
      ret None
  end.

End RemoveDuplicatesStrategy.

End strategies.

(** ** package strategies, file remove_failed_pods.go

    The strategy lives in a module of its own because its helpers share
    their names with those of RemoveDuplicates. *)

Module remove_failed_pods.

Import eviction.
Local Open Scope evict_scope.

Section RemoveFailedPodsStrategy.

Variable s_client : Client.
Variable s_config : config.RemoveFailedPodsConfig.

(** From the Go library: [int(time.Since(pod.CreationTimestamp.Time).Seconds())],
    the age of the pod in whole seconds as the clock gives it at a given
    history. *)
Variable podAgeSeconds : list Event -> Pod.t -> Z.

Definition Name : string := "RemoveFailedPods".

Definition len {A} (l : list A) : Z := Z.of_nat (length l).

(** getFailedPods: the pods of the node whose phase is Failed. *)
Definition getFailedPods (nodeName : string) : M (list Pod.t + string) :=
  do listed <- strategies.listPodsOnNode s_client nodeName;
  match listed with
  | inr err => ret (inr err)
  | inl items =>
      ret (inl (filter
                  (fun pod => PodPhase_eqb (Pod.Phase pod) PodFailed = true)
                  items))
  end.

Definition canEvictPod (e : DefaultPodEvictor) (pod : Pod.t)
  : bool * string :=
  CanEvictPod e pod.

Definition shouldProcessNamespace (namespace : string) : bool :=
  if 0 <? len (config.rfp_IncludedNamespaces s_config) then
    utils.Contains (config.rfp_IncludedNamespaces s_config) namespace
  else if 0 <? len (config.rfp_ExcludedNamespaces s_config) then
    negb (utils.Contains (config.rfp_ExcludedNamespaces s_config) namespace)
  else true.

(** The first owner reference whose kind is excluded, if any: the loop
    over the owner references returns at it. *)
Fixpoint excludedOwner (owners : list OwnerReference.t)
  : option OwnerReference.t :=
  match owners with
  | [] => None
  | ownerRef :: owners' =>
      if utils.Contains (config.rfp_ExcludeOwnerKinds s_config)
                        (OwnerReference.Kind ownerRef)
      then Some ownerRef
      else excludedOwner owners'
  end.

(** shouldEvictPod; it logs why it says no. *)
Definition shouldEvictPod (pod : Pod.t) : M bool :=
  if negb (shouldProcessNamespace (Pod.Namespace pod)) then ret false
  else
    do history <- get_trace;
    if (0 <? config.MinPodLifetimeSeconds s_config)
       && (podAgeSeconds history pod <? config.MinPodLifetimeSeconds s_config)
    then
      VInfof 3 "Pod %s/%s is too young (age: %ds, min: %ds)"
        [fmt.AStr (Pod.Namespace pod); fmt.AStr (Pod.Name pod);
         fmt.AInt (podAgeSeconds history pod);
         fmt.AInt (config.MinPodLifetimeSeconds s_config)];;
      ret false
    else if 0 <? len (config.rfp_ExcludeOwnerKinds s_config) then
      match excludedOwner (Pod.OwnerReferences pod) with
      | Some ownerRef =>
          VInfof 3 "Pod %s/%s owner kind %s is excluded"
            [fmt.AStr (Pod.Namespace pod); fmt.AStr (Pod.Name pod);
             fmt.AStr (OwnerReference.Kind ownerRef)];;
          ret false
      | None => ret true
      end
    else ret true.

(** The reason Execute gives for the eviction of a pod. *)
Definition cleanupReason (pod : Pod.t) : string :=
  let reason :=
    fmt.Sprintf "Failed pod cleanup - Phase: %s"
      [fmt.AStr (PodPhase_string (Pod.Phase pod))] in
  if negb (String.eqb (Pod.Reason pod) "") then
    reason +:+ fmt.Sprintf ", Reason: %s" [fmt.AStr (Pod.Reason pod)]
  else reason.

Record Counters : Type := { evictedCount : Z; skippedCount : Z }.

Definition skipped (c : Counters) : Counters :=
  {| evictedCount := evictedCount c;
     skippedCount := GoInt.add (skippedCount c) 1 |}.

(** The body of the loop over the failed pods of a node. *)
Definition evictFailedPod (nodeName : string) (pod : Pod.t) (c : Counters)
  : M Counters :=
  do e <- get_evictor;
  let '(canEvict, reason) := canEvictPod e pod in
  if negb canEvict then
    VInfof 3 "Skipping pod %s/%s: %s"
      [fmt.AStr (Pod.Namespace pod); fmt.AStr (Pod.Name pod);
       fmt.AStr reason];;
    ret (skipped c)
  else
    do should <- shouldEvictPod pod;
    if negb should then
      VInfof 3 "Pod %s/%s does not meet eviction criteria"
        [fmt.AStr (Pod.Namespace pod); fmt.AStr (Pod.Name pod)];;
      ret (skipped c)
    else
      do err <- EvictPod pod (cleanupReason pod);
      match err with
      | Some err =>
          Errorf "Failed to evict pod %s/%s: %v"
            [fmt.AStr (Pod.Namespace pod); fmt.AStr (Pod.Name pod);
             fmt.AStr err];;
          ret c
      | None =>
          VInfof 2 "Successfully evicted failed pod %s/%s on node %s"
            [fmt.AStr (Pod.Namespace pod); fmt.AStr (Pod.Name pod);
             fmt.AStr nodeName];;
          ret {| evictedCount := GoInt.add (evictedCount c) 1;
                 skippedCount := skippedCount c |}
      end.

Fixpoint evictFailedPods (nodeName : string) (failedPods : list Pod.t)
    (c : Counters) : M Counters :=
  match failedPods with
  | [] => ret c
  | pod :: failedPods' =>
      do c' <- evictFailedPod nodeName pod c;
      evictFailedPods nodeName failedPods' c'
  end.

(** The body of the loop over the nodes. *)
Definition cleanNode (node : Node.t) (c : Counters) : M Counters :=
  VInfof 2 "Processing node: %s" [fmt.AStr (Node.Name node)];;
  do listed <- getFailedPods (Node.Name node);
  match listed with
  | inr err =>
      Errorf "Failed to get failed pods on node %s: %v"
        [fmt.AStr (Node.Name node); fmt.AStr err];;
      ret c
  | inl failedPods =>
      VInfof 2 "Found %d failed pods on node %s"
        [fmt.AInt (len failedPods); fmt.AStr (Node.Name node)];;
      evictFailedPods (Node.Name node) failedPods c
  end.

Fixpoint cleanNodes (nodes : list Node.t) (c : Counters) : M Counters :=
  match nodes with
  | [] => ret c
  | node :: nodes' =>
      do c' <- cleanNode node c;
      cleanNodes nodes' c'
  end.

(** Execute; it always returns the nil error. *)
Definition Execute (nodes : list Node.t) : M (option string) :=
  Infof "Executing %s strategy" [fmt.AStr Name];;
  do c <- cleanNodes nodes {| evictedCount := 0; skippedCount := 0 |};
  Infof "RemoveFailedPods strategy completed. Evicted: %d, Skipped: %d"
    [fmt.AInt (evictedCount c); fmt.AInt (skippedCount c)];;
  ret None.

End RemoveFailedPodsStrategy.

End remove_failed_pods.

(** ** package strategies, LowNodeUtilization from Execute down

    In a module of its own for the same reason. The eviction phase,
    [evictPodsFromOverUtilizedNodes], is the one of [strategies]. *)

Module low_node_utilization.

Import eviction.
Local Open Scope evict_scope.

Section LowNodeUtilizationStrategy.

Variable s_client : Client.
Variable s_config : config.LowNodeUtilizationConfig.

(** utils.CalculateNodeUtilization adds up resource quantities of the
    Kubernetes library (resource.Quantity), which the pods and nodes of
    this model do not carry: the strategy is modelled for whatever
    record it returns. [rangeUtilizations] lists the entries of the
    utilization map in the order the range of categorizeNodes visits
    them. *)
Variable CalculateNodeUtilization :
  Node.t -> list Pod.t -> utils.NodeResourceUtilization.
Variable rangeUtilizations :
  gmap string utils.NodeResourceUtilization
  -> list (string * utils.NodeResourceUtilization).

Definition Name : string := "LowNodeUtilization".

Definition len {A} (l : list A) : Z := Z.of_nat (length l).

Fixpoint calculateNodeUtilizationsFrom (nodes : list Node.t)
    (utilizations : gmap string utils.NodeResourceUtilization)
  : M (gmap string utils.NodeResourceUtilization + string) :=
  match nodes with
  | [] => ret (inl utilizations)
  | node :: nodes' =>
      do listed <- strategies.getPodsOnNode s_client (Node.Name node);
      match listed with
      | inr err =>
          ret (inr (fmt.Sprintf "failed to get pods on node %s: %v"
                      [fmt.AStr (Node.Name node); fmt.AStr err]))
      | inl pods =>
          let utilization := CalculateNodeUtilization node pods in
          let utilizations := <[Node.Name node := utilization]> utilizations in
          VInfof 2 "Node %s utilization: CPU=%d%%, Memory=%d%%, Pods=%d%%"
            [fmt.AStr (Node.Name node);
             fmt.AInt (utils.CPUPercent utilization);
             fmt.AInt (utils.MemoryPercent utilization);
             fmt.AInt (utils.PodsPercent utilization)];;
          calculateNodeUtilizationsFrom nodes' utilizations
      end
  end.

Definition calculateNodeUtilizations (nodes : list Node.t)
  : M (gmap string utils.NodeResourceUtilization + string) :=
  calculateNodeUtilizationsFrom nodes ∅.

(** The loop of categorizeNodes over the entries of the map. *)
Fixpoint categorizeFrom
    (entries : list (string * utils.NodeResourceUtilization))
    (lowUtilization overUtilization : list utils.NodeResourceUtilization)
  : M (list utils.NodeResourceUtilization
       * list utils.NodeResourceUtilization) :=
  let thresholds := config.Thresholds s_config in
  let targetThresholds := config.TargetThresholds s_config in
  match entries with
  | [] => ret (lowUtilization, overUtilization)
  | (_, utilization) :: entries' =>
      if utils.IsNodeUnderUtilized utilization thresholds then
        VInfof 2 "Node %s is under-utilized"
          [fmt.AStr (utils.NodeName utilization)];;
        categorizeFrom entries' (lowUtilization ++ [utilization])
                       overUtilization
      else if utils.IsNodeOverUtilized utilization targetThresholds then
        VInfof 2 "Node %s is over-utilized"
          [fmt.AStr (utils.NodeName utilization)];;
        categorizeFrom entries' lowUtilization
                       (overUtilization ++ [utilization])
      else categorizeFrom entries' lowUtilization overUtilization
  end.

Definition categorizeNodes
    (utilizations : gmap string utils.NodeResourceUtilization)
  : M (list utils.NodeResourceUtilization
       * list utils.NodeResourceUtilization) :=
  categorizeFrom (rangeUtilizations utilizations) [] [].

Definition Execute (nodes : list Node.t) : M (option string) :=
  Infof "Executing %s strategy" [fmt.AStr Name];;
  let readyNodes := utils.FilterReadySchedulableNodes nodes in
  if len readyNodes <? 2 then
    Infof "Need at least 2 ready nodes, found %d. Skipping strategy."
      [fmt.AInt (len readyNodes)];;
    ret None
  else
    do calculated <- calculateNodeUtilizations readyNodes;
    match calculated with
    | inr err =>
        ret (Some (fmt.Sprintf "failed to calculate node utilizations: %v"
                     [fmt.AStr err]))
    | inl nodeUtilizations =>
        do categorized <- categorizeNodes nodeUtilizations;
        let '(lowUtilizationNodes, overUtilizationNodes) := categorized in
        Infof "Found %d low utilization nodes and %d over utilization nodes"
          [fmt.AInt (len lowUtilizationNodes);
           fmt.AInt (len overUtilizationNodes)];;
        if len lowUtilizationNodes <? config.NumberOfNodes s_config then
          Infof
            "Low utilization nodes (%d) below threshold (%d). Skipping strategy."
            [fmt.AInt (len lowUtilizationNodes);
             fmt.AInt (config.NumberOfNodes s_config)];;
          ret None
        else if len overUtilizationNodes =? 0 then
          Infof "No over utilization nodes found. Skipping strategy." [];;
          ret None
        else
          strategies.evictPodsFromOverUtilizedNodes s_client s_config
            overUtilizationNodes lowUtilizationNodes
    end.

End LowNodeUtilizationStrategy.

End low_node_utilization.

(** ** package scheduler *)

Module scheduler.

Import eviction.
Local Open Scope evict_scope.

(** The Strategy interface. [IsEnabled] reads the immutable
    configuration only, so it is a constant of the strategy value. *)
Record Strategy : Type := {
  Name : string;
  IsEnabled : bool;
  Execute : list Node.t -> M (option string)
}.

(** What ends a wait in the select of Run: the context is done, with
    the error it reports, or the ticker fires. *)
Inductive Signal : Type :=
| Done (ctxErr : string)
| Tick.

(** How a call of Run stands once the given signals are used up. *)
Inductive RunResult : Type :=
| Returned (err : option string)
| Panicked (msg : string)
| Waiting.

Section Scheduler.

(** The fields of the scheduler value; its evictor is the one of the
    world. *)
Variable s_client : Client.
Variable s_config : config.Config.
Variable s_strategies : list Strategy.

(** From the Go library and runtime: how [%v] prints a duration, what
    [time.Since] of the start of the current cycle or strategy
    measures at a given history, and the order in which a range visits
    a statistics map. *)
Variable DurationString : Z -> string.
Variable Since : list Event -> Z.
Variable rangeStats : gmap string Z -> list (string * Z).

Definition len {A} (l : list A) : Z := Z.of_nat (length l).

Fixpoint availableNodes (items : list Node.t) (availableNodes_ : list Node.t)
  : M (list Node.t) :=
  match items with
  | [] => ret availableNodes_
  | node :: items' =>
      if utils.IsReadyNode node && utils.IsSchedulableNode node then
        VInfof 2 "Node %s is available for descheduling"
          [fmt.AStr (Node.Name node)];;
        availableNodes items' (availableNodes_ ++ [node])
      else
        VInfof 2 "Node %s is not available (ready=%v, schedulable=%v)"
          [fmt.AStr (Node.Name node);
           fmt.ABool (utils.IsReadyNode node);
           fmt.ABool (utils.IsSchedulableNode node)];;
        availableNodes items' availableNodes_
  end.

Definition getAvailableNodes : M (list Node.t + string) :=
  do history <- get_trace;
  emit ApiListNodes;;
  match ListNodes s_client history with
  | inr err => ret (inr err)
  | inl items =>
      do nodes <- availableNodes items [];
      ret (inl nodes)
  end.

(** nodeMatchesSelector: every entry of the selector must be a label of
    the node; the order of the range does not show in the result. *)
Definition nodeMatchesSelector (node : Node.t) : bool :=
  forallb
    (fun '(key, value) =>
       match Node.Labels node !! key with
       | Some nodeValue => String.eqb nodeValue value
       | None => false
       end)
    (map_to_list (config.NodeSelector s_config)).

Fixpoint selectNodes (nodes filteredNodes : list Node.t)
  : M (list Node.t) :=
  match nodes with
  | [] => ret filteredNodes
  | node :: nodes' =>
      if nodeMatchesSelector node then
        VInfof 2 "Node %s matches node selector"
          [fmt.AStr (Node.Name node)];;
        selectNodes nodes' (filteredNodes ++ [node])
      else
        VInfof 2 "Node %s does not match node selector"
          [fmt.AStr (Node.Name node)];;
        selectNodes nodes' filteredNodes
  end.

Definition filterNodesBySelector (nodes : list Node.t)
  : M (list Node.t) :=
  if Z.of_nat (size (config.NodeSelector s_config)) =? 0 then ret nodes
  else selectNodes nodes [].

Fixpoint printEntries (entries : list (string * Z)) : M unit :=
  match entries with
  | [] => ret tt
  | (key, count) :: entries' =>
      Infof "  %s: %d" [fmt.AStr key; fmt.AInt count];;
      printEntries entries'
  end.

Definition printBreakdown (title : string) (m : gmap string Z)
  : M unit :=
  if 0 <? Z.of_nat (size m) then
    Infof title [];;
    printEntries (rangeStats m)
  else ret tt.

Definition printCycleStats : M unit :=
  do history <- get_trace;
  let duration := Since history in
  do e <- get_evictor;
  let stats := GetEvictionStats e in
  Infof "=== Cycle Statistics ===" [];;
  Infof "Duration: %v" [fmt.AStr (DurationString duration)];;
  Infof "Total evicted: %d" [fmt.AInt (TotalEvicted stats)];;
  Infof "Failed evictions: %d" [fmt.AInt (FailedEvictions stats)];;
  printBreakdown "Evictions by node:" (EvictedByNode stats);;
  printBreakdown "Evictions by namespace:" (EvictedByNamespace stats);;
  printBreakdown "Evictions by reason:" (EvictedByReason stats).

Fixpoint runStrategies (strategies : list Strategy)
    (filteredNodes : list Node.t) : M unit :=
  match strategies with
  | [] => ret tt
  | strategy :: strategies' =>
      if negb (IsEnabled strategy) then
        runStrategies strategies' filteredNodes
      else
        Infof "--- Executing strategy: %s ---"
          [fmt.AStr (Name strategy)];;
        do err <- Execute strategy filteredNodes;
        match err with
        | Some err =>
            Errorf "Strategy %s failed: %v"
              [fmt.AStr (Name strategy); fmt.AStr err];;
            runStrategies strategies' filteredNodes
        | None =>
            do history <- get_trace;
            Infof "Strategy %s completed in %v"
              [fmt.AStr (Name strategy);
               fmt.AStr (DurationString (Since history))];;
            runStrategies strategies' filteredNodes
        end
  end.

(** runOnce: one descheduling cycle; the result is its error. *)
Definition runOnce : M (option string) :=
  Infof "=== Starting descheduling cycle ===" [];;
  ResetStats;;
  do listed <- getAvailableNodes;
  match listed with
  | inr err =>
      ret (Some (fmt.Sprintf "failed to get available nodes: %v"
                   [fmt.AStr err]))
  | inl nodes =>
      Infof "Found %d available nodes" [fmt.AInt (len nodes)];;
      if len nodes <? 2 then
        Infof "Need at least 2 nodes for descheduling, found %d. Skipping cycle."
          [fmt.AInt (len nodes)];;
        ret None
      else
        do filteredNodes <- filterNodesBySelector nodes;
        Infof "After node selector filtering: %d nodes"
          [fmt.AInt (len filteredNodes)];;
        if len filteredNodes =? 0 then
          Infof "No nodes match the node selector. Skipping cycle." [];;
          ret None
        else
          runStrategies s_strategies filteredNodes;;
          printCycleStats;;
          Infof "=== Descheduling cycle completed ===" [];;
          ret None
  end.

(** The select loop of Run, over the signals that arrive. *)
Fixpoint runLoop (signals : list Signal) : M RunResult :=
  match signals with
  | [] => ret Waiting
  | Done ctxErr :: _ =>
      Infof "Scheduler stopped by context cancellation" [];;
      ret (Returned (Some ctxErr))
  | Tick :: signals' =>
      do err <- runOnce;
      match err with
      | Some err =>
          Errorf "Scheduler run failed: %v" [fmt.AStr err];;
          runLoop signals'
      | None => runLoop signals'
      end
  end.

(** Run. [time.NewTicker] panics on an interval that is not positive. *)
Definition Run (signals : list Signal) : M RunResult :=
  Infof "Starting lightweight descheduler" [];;
  Infof "Configuration: DryRun=%v, Interval=%v"
    [fmt.ABool (config.DryRun s_config);
     fmt.AStr (DurationString (config.Interval s_config))];;
  (if config.DryRun s_config then
     Infof "Running in DRY RUN mode - no pods will actually be evicted" []
   else ret tt);;
  if config.Interval s_config =? 0 then
    do err <- runOnce;
    ret (Returned err)
  else if config.Interval s_config <? 0 then
    ret (Panicked "non-positive interval for NewTicker")
  else
    do err <- runOnce;
    (match err with
     | Some err => Errorf "Initial run failed: %v" [fmt.AStr err]
     | None => ret tt
     end);;
    runLoop signals.

End Scheduler.

End scheduler.

(** ** package strategies, file strategy.go

    The factory comes after the scheduler here because the [Strategy]
    interface is declared there. *)

Module factory.

Import eviction scheduler.
Local Open Scope evict_scope.

Section StrategyFactory.

(** The fields of the strategy context, and what the strategies take
    from the Go library and runtime. *)
Variable f_client : Client.
Variable f_config : config.Config.
Variable podAgeSeconds : list Event -> Pod.t -> Z.
Variable CalculateNodeUtilization :
  Node.t -> list Pod.t -> utils.NodeResourceUtilization.
Variable rangeUtilizations :
  gmap string utils.NodeResourceUtilization
  -> list (string * utils.NodeResourceUtilization).
Variable rangeGroups :
  gmap string (gmap string (list Pod.t))
  -> list (string * gmap string (list Pod.t)).
Variable rangeNodes1 rangeNodes2 :
  gmap string (list Pod.t) -> list (string * list Pod.t).

(** The three strategy values. Each is built for a section of the
    configuration that is there; its IsEnabled is the flag of the
    section. *)
Definition NewRemoveFailedPodsStrategy
    (cfg : config.RemoveFailedPodsConfig) : Strategy :=
  {| Name := remove_failed_pods.Name;
     IsEnabled := config.rfp_Enabled cfg;
     Execute := remove_failed_pods.Execute f_client cfg podAgeSeconds |}.

Definition NewLowNodeUtilizationStrategy
    (cfg : config.LowNodeUtilizationConfig) : Strategy :=
  {| Name := low_node_utilization.Name;
     IsEnabled := config.lnu_Enabled cfg;
     Execute := low_node_utilization.Execute f_client cfg
                  CalculateNodeUtilization rangeUtilizations |}.

Definition NewRemoveDuplicatesStrategy
    (cfg : config.RemoveDuplicatesConfig) : Strategy :=
  {| Name := strategies.Name;
     IsEnabled := config.rd_Enabled cfg;
     Execute := strategies.Execute f_client cfg rangeGroups rangeNodes1
                  rangeNodes2 |}.

Definition CreateStrategies : list Strategy :=
  let strategies := [] in
  let strategies :=
    match config.RemoveFailedPods (config.Strategies f_config) with
    | Some cfg =>
        if config.rfp_Enabled cfg
        then strategies ++ [NewRemoveFailedPodsStrategy cfg]
        else strategies
    | None => strategies
    end in
  let strategies :=
    match config.LowNodeUtilization (config.Strategies f_config) with
    | Some cfg =>
        if config.lnu_Enabled cfg
        then strategies ++ [NewLowNodeUtilizationStrategy cfg]
        else strategies
    | None => strategies
    end in
  let strategies :=
    match config.RemoveDuplicates (config.Strategies f_config) with
    | Some cfg =>
        if config.rd_Enabled cfg
        then strategies ++ [NewRemoveDuplicatesStrategy cfg]
        else strategies
    | None => strategies
    end in
  strategies.

End StrategyFactory.

End factory.

(** ** Sequences of evictor operations

    Within a cycle the strategies reach the evictor only through its
    methods. A sequence of operations stands for what they ask of it between
    two resets, whatever the strategies are. *)

Module cycle.

Import eviction.
Local Open Scope evict_scope.

Inductive Op : Type :=
| OpEvict (pod : Pod.t) (reason : string)
| OpReset.

Definition runOp (op : Op) : M unit :=
  match op with
  | OpEvict pod reason => do _ <- EvictPod pod reason; ret tt
  | OpReset => ResetStats
  end.

Fixpoint runOps (ops : list Op) : M unit :=
  match ops with
  | [] => ret tt
  | op :: ops' => runOp op;; runOps ops'
  end.

(** The three limits are Go [int] values. *)
Definition limits_are_ints (l : config.EvictionLimits) : Prop :=
  GoInt.in_range (config.MaxPodsToEvictTotal l)
  /\ GoInt.in_range (config.MaxPodsToEvictPerNode l)
  /\ GoInt.in_range (config.MaxPodsToEvictPerNamespace l).

(** The statistics respect every limit that is switched on. *)
Definition within_limits (l : config.EvictionLimits) (s : EvictionStats)
  : Prop :=
  (0 < config.MaxPodsToEvictTotal l ->
   TotalEvicted s <= config.MaxPodsToEvictTotal l)
  /\ (0 < config.MaxPodsToEvictPerNode l ->
      forall k, at_key (EvictedByNode s) k <= config.MaxPodsToEvictPerNode l)
  /\ (0 < config.MaxPodsToEvictPerNamespace l ->
      forall k, at_key (EvictedByNamespace s) k
                <= config.MaxPodsToEvictPerNamespace l).

(** All counters are Go [int] values. *)
Definition counters_are_ints (s : EvictionStats) : Prop :=
  GoInt.in_range (TotalEvicted s)
  /\ (forall k, GoInt.in_range (at_key (EvictedByNode s) k))
  /\ (forall k, GoInt.in_range (at_key (EvictedByNamespace s) k)).

End cycle.

(** * Vocabulary of the specification

    The words in which the properties below are stated, each next to the
    part of the code it talks about. *)

Section EvictorVocabulary.

Import eviction cycle.

(** The eviction object EvictPod posts for a pod. *)
Definition evictionOf (e : DefaultPodEvictor) (pod : Pod.t) : Eviction.t :=
  {| Eviction.APIVersion := "policy/v1";
     Eviction.Kind := "Eviction";
     Eviction.Name := Pod.Name pod;
     Eviction.Namespace := Pod.Namespace pod;
     Eviction.GracePeriodSeconds := gracePeriod e |}.

(** The outcomes of one call: rejected on quota, simulated, refused by
    the API, carried out. *)
Inductive EvictPod_outcome (pod : Pod.t) (reason : string) (w : World)
  : option string * World -> Prop :=
| outcome_quota err :
    checkEvictionLimits (evictor w) pod = Some err ->
    EvictPod_outcome pod reason w (Some err, w)
| outcome_dryRun line :
    checkEvictionLimits (evictor w) pod = None ->
    config.DryRun (config (evictor w)) = true ->
    EvictPod_outcome pod reason w
      (None,
       {| evictor := with_stats (evictor w)
                       (updateStats pod reason true (stats (evictor w)));
          trace := trace w ++ [Log Info 0 line] |})
| outcome_failed apiErr err line :
    checkEvictionLimits (evictor w) pod = None ->
    config.DryRun (config (evictor w)) = false ->
    Evict (client (evictor w)) (trace w) (evictionOf (evictor w) pod)
    = Some apiErr ->
    EvictPod_outcome pod reason w
      (Some err,
       {| evictor := with_stats (evictor w)
                       (failedEviction (stats (evictor w)));
          trace := trace w ++ [ApiEvict (evictionOf (evictor w) pod);
                               Log Error 0 line] |})
| outcome_evicted line :
    checkEvictionLimits (evictor w) pod = None ->
    config.DryRun (config (evictor w)) = false ->
    Evict (client (evictor w)) (trace w) (evictionOf (evictor w) pod)
    = None ->
    EvictPod_outcome pod reason w
      (None,
       {| evictor := with_stats (evictor w)
                       (updateStats pod reason true (stats (evictor w)));
          trace := trace w ++ [ApiEvict (evictionOf (evictor w) pod);
                               Log Info 0 line] |}).

(** The invariant of the evictor: integer counters within the limits. *)
Definition quota_inv (e : DefaultPodEvictor) : Prop :=
  limits_are_ints (config.Limits (config e))
  /\ counters_are_ints (stats e)
  /\ within_limits (config.Limits (config e)) (stats e).

(** The three quota rules, in the words of the specification. *)
Definition total_limit_reached (e : DefaultPodEvictor) : Prop :=
  0 < config.MaxPodsToEvictTotal (config.Limits (config e))
  /\ config.MaxPodsToEvictTotal (config.Limits (config e))
     <= TotalEvicted (stats e).

Definition node_limit_reached (e : DefaultPodEvictor) (pod : Pod.t)
  : Prop :=
  0 < config.MaxPodsToEvictPerNode (config.Limits (config e))
  /\ Pod.NodeName pod <> ""
  /\ config.MaxPodsToEvictPerNode (config.Limits (config e))
     <= at_key (EvictedByNode (stats e)) (Pod.NodeName pod).

Definition namespace_limit_reached (e : DefaultPodEvictor) (pod : Pod.t)
  : Prop :=
  0 < config.MaxPodsToEvictPerNamespace (config.Limits (config e))
  /\ config.MaxPodsToEvictPerNamespace (config.Limits (config e))
     <= at_key (EvictedByNamespace (stats e)) (Pod.Namespace pod).

(** The verdict on a pod: the error of the first rule that fails, in the
    order total, node, namespace, or no error. *)
Inductive quota_verdict (e : DefaultPodEvictor) (pod : Pod.t)
  : option string -> Prop :=
| verdict_total :
    total_limit_reached e ->
    quota_verdict e pod
      (Some ("reached total eviction limit: "
             +:+ pretty (config.MaxPodsToEvictTotal
                           (config.Limits (config e)))))
| verdict_node :
    ~ total_limit_reached e ->
    node_limit_reached e pod ->
    quota_verdict e pod
      (Some ("reached node " +:+ Pod.NodeName pod +:+ " eviction limit: "
             +:+ pretty (config.MaxPodsToEvictPerNode
                           (config.Limits (config e)))))
| verdict_namespace :
    ~ total_limit_reached e ->
    ~ node_limit_reached e pod ->
    namespace_limit_reached e pod ->
    quota_verdict e pod
      (Some ("reached namespace " +:+ Pod.Namespace pod
             +:+ " eviction limit: "
             +:+ pretty (config.MaxPodsToEvictPerNamespace
                           (config.Limits (config e)))))
| verdict_accept :
    ~ total_limit_reached e ->
    ~ node_limit_reached e pod ->
    ~ namespace_limit_reached e pod ->
    quota_verdict e pod None.

(** The eviction requests recorded in a trace. *)
Definition apiEvictions (t : list Event) : list Eviction.t :=
  omap (fun ev => match ev with ApiEvict e => Some e | _ => None end) t.

Definition with_EvictedByNode (e : DefaultPodEvictor) (m : gmap string Z)
  : DefaultPodEvictor :=
  with_stats e
    {| TotalEvicted := TotalEvicted (stats e);
       EvictedByNode := m;
       EvictedByNamespace := EvictedByNamespace (stats e);
       EvictedByReason := EvictedByReason (stats e);
       FailedEvictions := FailedEvictions (stats e) |}.

(** The six conditions, in the words of the specification. *)
Definition SystemCritical (pod : Pod.t) : Prop :=
  Pod.PriorityClassName pod = "system-cluster-critical"
  \/ Pod.PriorityClassName pod = "system-node-critical"
  \/ Pod.Namespace pod ∈ ["kube-system"; "kube-public"; "kube-node-lease"].

Definition DaemonSetLike (pod : Pod.t) : Prop :=
  exists owner, owner ∈ Pod.OwnerReferences pod
                /\ OwnerReference.Kind owner = "DaemonSet".

Definition Static (pod : Pod.t) : Prop :=
  Pod.Annotations pod !! "kubernetes.io/config.source" = Some "file".

Definition StandaloneNonFailed (pod : Pod.t) : Prop :=
  Pod.OwnerReferences pod = [] /\ Pod.Phase pod <> PodFailed.

Definition Terminating (pod : Pod.t) : Prop :=
  Pod.DeletionTimestamp pod <> None.

Definition LocalStorage (pod : Pod.t) : Prop :=
  exists volume, volume ∈ Pod.Volumes pod
                 /\ (Volume.HostPath volume <> None
                     \/ Volume.EmptyDir volume <> None).

(** The answer the specification prescribes: the reason of the first
    condition that holds, in the fixed order, and true when none does. *)
Inductive CanEvict_answer (pod : Pod.t) : bool * string -> Prop :=
| answer_critical :
    SystemCritical pod ->
    CanEvict_answer pod (false, "system critical pod")
| answer_daemonset :
    ~ SystemCritical pod -> DaemonSetLike pod ->
    CanEvict_answer pod (false, "daemonset pod")
| answer_static :
    ~ SystemCritical pod -> ~ DaemonSetLike pod -> Static pod ->
    CanEvict_answer pod (false, "static pod")
| answer_standalone :
    ~ SystemCritical pod -> ~ DaemonSetLike pod -> ~ Static pod ->
    StandaloneNonFailed pod ->
    CanEvict_answer pod (false, "standalone pod (not failed)")
| answer_terminating :
    ~ SystemCritical pod -> ~ DaemonSetLike pod -> ~ Static pod ->
    ~ StandaloneNonFailed pod -> Terminating pod ->
    CanEvict_answer pod (false, "pod is being deleted")
| answer_local_storage :
    ~ SystemCritical pod -> ~ DaemonSetLike pod -> ~ Static pod ->
    ~ StandaloneNonFailed pod -> ~ Terminating pod -> LocalStorage pod ->
    CanEvict_answer pod (false, "pod has local storage")
| answer_evictable :
    ~ SystemCritical pod -> ~ DaemonSetLike pod -> ~ Static pod ->
    ~ StandaloneNonFailed pod -> ~ Terminating pod -> ~ LocalStorage pod ->
    CanEvict_answer pod (true, "").

End EvictorVocabulary.

Section SignatureVocabulary.

Import utils.

(** What the signature reads of an owner reference. *)
Definition ownerKey (owner : OwnerReference.t) : string * string :=
  (OwnerReference.Kind owner, OwnerReference.Name owner).

(** The signature as a function of the three components alone. *)
Definition signatureOf (namespace : string) (owners : list (string * string))
    (sortedImages : list string) : string :=
  String.concat "|"
    ([namespace]
     ++ map (fun '(kind, name) => kind +:+ ":" +:+ name) owners
     ++ [String.concat "," sortedImages]).

End SignatureVocabulary.

Section StrategyVocabulary.

Import eviction strategies.
Local Open Scope evict_scope.

(** The cap, in the words of the specification. *)
Definition clamp (x lo hi : Z) : Z := Z.max lo (Z.min hi x).

Definition maxExcess (target : config.ResourceThresholds)
    (nodeUtil : utils.NodeResourceUtilization) : Z :=
  let excessCPU := Z.max 0 (utils.CPUPercent nodeUtil - config.CPU target) in
  let excessMem :=
    Z.max 0 (utils.MemoryPercent nodeUtil - config.Memory target) in
  let excessPods :=
    Z.max 0 (utils.PodsPercent nodeUtil - config.Pods target) in
  Z.max excessCPU (Z.max excessMem excessPods).

(** The percentages of a utilization record: integers, not negative. *)
Definition percentages (nodeUtil : utils.NodeResourceUtilization) : Prop :=
  0 <= utils.CPUPercent nodeUtil <= GoInt.maxInt
  /\ 0 <= utils.MemoryPercent nodeUtil <= GoInt.maxInt
  /\ 0 <= utils.PodsPercent nodeUtil <= GoInt.maxInt.

(** The world after one more event. *)
Definition logged (w : World) (ev : Event) : World :=
  {| evictor := evictor w; trace := trace w ++ [ev] |}.

Definition balancingReason (nodeUtil : utils.NodeResourceUtilization)
  : string :=
  fmt.Sprintf
    "Node over-utilization balancing - CPU=%d%%, Memory=%d%%, Pods=%d%%"
    [fmt.AInt (utils.CPUPercent nodeUtil);
     fmt.AInt (utils.MemoryPercent nodeUtil);
     fmt.AInt (utils.PodsPercent nodeUtil)].

(** A candidate is rejected for safety when CanEvictPod says no, and for
    quota when CanEvictPod says yes and the quota check of EvictPod
    returns an error. *)
Definition rejected_for_safety (w : World) (pod : Pod.t) : Prop :=
  fst (CanEvictPod (evictor w) pod) = false.

Definition rejected_for_quota (w : World) (pod : Pod.t) : Prop :=
  fst (CanEvictPod (evictor w) pod) = true
  /\ checkEvictionLimits (evictor w) pod <> None.

(** Not younger: created no later. *)
Definition older_eq (a b : Pod.t) : Prop :=
  Pod.CreationTimestamp a <= Pod.CreationTimestamp b.

(** The round of the duplicate loop, for each pod of a list in turn. *)
Fixpoint evictEach (nodeName : string) (pods : list Pod.t)
    (c : DupCounters) : M DupCounters :=
  match pods with
  | [] => ret c
  | pod :: pods' =>
      do c' <- evictDuplicate nodeName pod c;
      evictEach nodeName pods' c'
  end.

(** An eviction request names the pod it is for. *)
Definition evictionFor (pod : Pod.t) (ev : Eviction.t) : Prop :=
  Eviction.Name ev = Pod.Name pod
  /\ Eviction.Namespace ev = Pod.Namespace pod.

End StrategyVocabulary.

Section CapVocabulary.

Import eviction strategies.

(** Refused by the API: CanEvictPod says yes, the quota check passes,
    the evictor is not simulating, and the API answers the request with
    an error. *)
Definition refused_by_api (w : World) (pod : Pod.t) : Prop :=
  fst (CanEvictPod (evictor w) pod) = true
  /\ checkEvictionLimits (evictor w) pod = None
  /\ config.DryRun (config (evictor w)) = false
  /\ Evict (client (evictor w)) (trace w) (evictionOf (evictor w) pod)
     <> None.

(** The counters of the loop after a candidate that CanEvictPod turned
    down, after a candidate that was evicted, and at the start of a
    node. *)
Definition afterSkip (c : Counters) : Counters :=
  {| evicted := evicted c; evictedCount := evictedCount c;
     skippedCount := GoInt.add (skippedCount c) 1 |}.

Definition afterEviction (c : Counters) : Counters :=
  {| evicted := GoInt.add (evicted c) 1;
     evictedCount := GoInt.add (evictedCount c) 1;
     skippedCount := skippedCount c |}.

Definition atNodeStart (c : Counters) : Counters :=
  {| evicted := 0; evictedCount := evictedCount c;
     skippedCount := skippedCount c |}.

(** The lines the strategy logs around a candidate and around a node. *)
Definition skippingLine (pod : Pod.t) (why : string) : Event :=
  Log Info 3 (fmt.Sprintf "Skipping pod %s/%s: %s"
                [fmt.AStr (Pod.Namespace pod); fmt.AStr (Pod.Name pod);
                 fmt.AStr why]).

Definition failedLine (pod : Pod.t) (err : string) : Event :=
  Log Error 0 (fmt.Sprintf "Failed to evict pod %s/%s: %v"
                 [fmt.AStr (Pod.Namespace pod); fmt.AStr (Pod.Name pod);
                  fmt.AStr err]).

Definition evictedLine (pod : Pod.t)
    (nodeUtil : utils.NodeResourceUtilization) : Event :=
  Log Info 2
    (fmt.Sprintf "Successfully evicted pod %s/%s from over-utilized node %s"
       [fmt.AStr (Pod.Namespace pod); fmt.AStr (Pod.Name pod);
        fmt.AStr (utils.NodeName nodeUtil)]).

Definition processingLine (nodeUtil : utils.NodeResourceUtilization)
  : Event :=
  Log Info 2
    (fmt.Sprintf
       "Processing over-utilized node: %s (CPU=%d%%, Memory=%d%%, Pods=%d%%)"
       [fmt.AStr (utils.NodeName nodeUtil);
        fmt.AInt (utils.CPUPercent nodeUtil);
        fmt.AInt (utils.MemoryPercent nodeUtil);
        fmt.AInt (utils.PodsPercent nodeUtil)]).

Definition nodeDoneLine (c : Counters)
    (nodeUtil : utils.NodeResourceUtilization) : Event :=
  Log Info 2 (fmt.Sprintf "Evicted %d pods from node %s"
                [fmt.AInt (evicted c); fmt.AStr (utils.NodeName nodeUtil)]).

Definition listFailedLine (nodeUtil : utils.NodeResourceUtilization)
    (err : string) : Event :=
  Log Error 0 (fmt.Sprintf "Failed to get evictable pods on node %s: %v"
                 [fmt.AStr (utils.NodeName nodeUtil); fmt.AStr err]).

Definition balancedLine (c : Counters) : Event :=
  Log Info 0
    (fmt.Sprintf
       "LowNodeUtilization strategy completed. Evicted: %d, Skipped: %d"
       [fmt.AInt (evictedCount c); fmt.AInt (skippedCount c)]).

(** The counters at the start of the strategy. *)
Definition atStart : Counters :=
  {| evicted := 0; evictedCount := 0; skippedCount := 0 |}.

(** The evictions the evictor has counted as successful. *)
Definition successes (w : World) : Z := TotalEvicted (stats (evictor w)).

(** The caps of a list of nodes, added up. *)
Definition capsOf (cfg : config.LowNodeUtilizationConfig)
    (nodes : list utils.NodeResourceUtilization) : Z :=
  foldr (fun nodeUtil sum => calculateMaxEvictions cfg nodeUtil + sum) 0
        nodes.

End CapVocabulary.

Section DuplicateVocabulary.

Import eviction strategies.

(** The counters of RemoveDuplicates after a duplicate that CanEvictPod
    turned down and after one that was evicted. *)
Definition afterDupSkip (c : DupCounters) : DupCounters :=
  {| dup_evictedCount := dup_evictedCount c;
     dup_skippedCount := GoInt.add (dup_skippedCount c) 1 |}.

Definition afterDupEviction (c : DupCounters) : DupCounters :=
  {| dup_evictedCount := GoInt.add (dup_evictedCount c) 1;
     dup_skippedCount := dup_skippedCount c |}.

(** The reason RemoveDuplicates gives to EvictPod. *)
Definition duplicateReason (nodeName : string) : string :=
  fmt.Sprintf "Duplicate pod removal - keeping oldest pod on node %s"
    [fmt.AStr nodeName].

(** The lines RemoveDuplicates logs. *)
Definition executingLine : Event :=
  Log Info 0 (fmt.Sprintf "Executing %s strategy" [fmt.AStr Name]).

Definition signaturesLine (podGroups : gmap string (gmap string (list Pod.t)))
  : Event :=
  Log Info 2 (fmt.Sprintf "Found %d unique pod signatures"
                [fmt.AInt (Z.of_nat (size podGroups))]).

Definition groupLine (signature : string) : Event :=
  Log Info 3 (fmt.Sprintf "Processing pod signature: %s"
                [fmt.AStr signature]).

Definition duplicatesLine (signature : string)
    (duplicateNodes : list string) : Event :=
  Log Info 2 (fmt.Sprintf "Found duplicates for signature %s on nodes: %v"
                [fmt.AStr signature; fmt.AStrs duplicateNodes]).

Definition dupSkippingLine (pod : Pod.t) (why : string) : Event :=
  Log Info 3 (fmt.Sprintf "Skipping duplicate pod %s/%s: %s"
                [fmt.AStr (Pod.Namespace pod); fmt.AStr (Pod.Name pod);
                 fmt.AStr why]).

Definition dupFailedLine (pod : Pod.t) (err : string) : Event :=
  Log Error 0 (fmt.Sprintf "Failed to evict duplicate pod %s/%s: %v"
                 [fmt.AStr (Pod.Namespace pod); fmt.AStr (Pod.Name pod);
                  fmt.AStr err]).

Definition dupEvictedLine (pod : Pod.t) (nodeName : string) : Event :=
  Log Info 2
    (fmt.Sprintf "Successfully evicted duplicate pod %s/%s from node %s"
       [fmt.AStr (Pod.Namespace pod); fmt.AStr (Pod.Name pod);
        fmt.AStr nodeName]).

Definition completedLine (c : DupCounters) : Event :=
  Log Info 0
    (fmt.Sprintf "RemoveDuplicates strategy completed. Evicted: %d, Skipped: %d"
       [fmt.AInt (dup_evictedCount c); fmt.AInt (dup_skippedCount c)]).

(** A group that lives on fewer than two nodes. *)
Definition on_one_node (group : string * gmap string (list Pod.t)) : Prop :=
  (size (snd group) < 2)%nat.

End DuplicateVocabulary.

Section SchedulerVocabulary.

Import eviction scheduler.

Variable s_config : config.Config.
Variable DurationString : Z -> string.

(** The world after more events. *)
Definition extended (w : World) (events : list Event) : World :=
  {| evictor := evictor w; trace := trace w ++ events |}.

(** The line getAvailableNodes logs about a node. *)
Definition availabilityLine (node : Node.t) : Event :=
  if utils.IsReadyNode node && utils.IsSchedulableNode node then
    Log Info 2 (fmt.Sprintf "Node %s is available for descheduling"
                  [fmt.AStr (Node.Name node)])
  else
    Log Info 2 (fmt.Sprintf
                  "Node %s is not available (ready=%v, schedulable=%v)"
                  [fmt.AStr (Node.Name node);
                   fmt.ABool (utils.IsReadyNode node);
                   fmt.ABool (utils.IsSchedulableNode node)]).

(** The events of a cycle that stops for want of nodes. *)
Definition skippedCycle (items : list Node.t) : list Event :=
  [Log Info 0 "=== Starting descheduling cycle ==="; ApiListNodes]
  ++ map availabilityLine items
  ++ [Log Info 0
        (fmt.Sprintf "Found %d available nodes"
           [fmt.AInt (len (utils.FilterReadySchedulableNodes items))]);
      Log Info 0
        (fmt.Sprintf
           "Need at least 2 nodes for descheduling, found %d. Skipping cycle."
           [fmt.AInt (len (utils.FilterReadySchedulableNodes items))])].

(** The lines Run logs before its first cycle. *)
Definition startupLines : list Event :=
  [Log Info 0 "Starting lightweight descheduler";
   Log Info 0
     (fmt.Sprintf "Configuration: DryRun=%v, Interval=%v"
        [fmt.ABool (config.DryRun s_config);
         fmt.AStr (DurationString (config.Interval s_config))])]
  ++ (if config.DryRun s_config then
        [Log Info 0
           "Running in DRY RUN mode - no pods will actually be evicted"]
      else []).

(** The cycles a trace shows: a cycle opens with one fixed line. *)
Definition startsCycle (ev : Event) : bool :=
  match ev with
  | Log Info 0 line => String.eqb line "=== Starting descheduling cycle ==="
  | _ => false
  end.

Definition cyclesStarted (t : list Event) : nat :=
  length (List.filter startsCycle t).

End SchedulerVocabulary.

Section EvictorVocabularyMore.

Import eviction cycle.

(** The sum of the counts of a statistics map. *)
Definition sumOf (m : gmap string Z) : Z :=
  map_fold (fun _ count acc => count + acc) 0 m.

(** Every eviction the evictor attempts goes through: it only simulates,
    or its API accepts whatever it is asked. *)
Definition always_accepted (e : DefaultPodEvictor) : Prop :=
  config.DryRun (config e) = true
  \/ forall history ev, Evict (client e) history ev = None.

(** A run of calls to EvictPod, one per pod and reason. *)
Definition evictions (calls : list (Pod.t * string)) : list Op :=
  map (fun '(pod, reason) => OpEvict pod reason) calls.

(** The books balance: the total is the sum over the namespaces and the
    sum over the reasons, and no count is negative. *)
Definition balanced (s : EvictionStats) : Prop :=
  map_Forall (fun _ v => 0 <= v) (EvictedByNode s)
  /\ map_Forall (fun _ v => 0 <= v) (EvictedByNamespace s)
  /\ map_Forall (fun _ v => 0 <= v) (EvictedByReason s)
  /\ sumOf (EvictedByNamespace s) = TotalEvicted s
  /\ sumOf (EvictedByReason s) = TotalEvicted s
  /\ sumOf (EvictedByNode s) <= TotalEvicted s.

End EvictorVocabularyMore.

Section ConfigVocabulary.

(** A threshold triple of percentages. *)
Definition percentages_ok (t : config.ResourceThresholds) : Prop :=
  0 <= config.CPU t <= 100 /\ 0 <= config.Memory t <= 100
  /\ 0 <= config.Pods t <= 100.

(** The thresholds that validation looks at: those of an enabled
    LowNodeUtilization section. *)
Definition enabled_thresholds_ok (c : config.Config) : Prop :=
  forall lnu,
    config.LowNodeUtilization (config.Strategies c) = Some lnu ->
    config.lnu_Enabled lnu = true ->
    percentages_ok (config.Thresholds lnu)
    /\ percentages_ok (config.TargetThresholds lnu).

End ConfigVocabulary.

Section EffectVocabulary.

Import eviction.

(** How a strategy changes the world: by events that are no eviction
    request (log lines, list requests) and by calls of EvictPod.
    [acts P w w']: the world [w'] comes from [w] by such steps, with
    EvictPod called on pods of [P] only. *)
Inductive acts (P : Pod.t -> Prop) (w : World) : World -> Prop :=
| acts_done : acts P w w
| acts_event w' ev :
    acts P w w' -> apiEvictions [ev] = [] -> acts P w (logged w' ev)
| acts_EvictPod w' pod reason :
    acts P w w' -> P pod -> acts P w (snd (EvictPod pod reason w')).

(** A computation that changes the world in this way only, and whose
    result satisfies [Q]. *)
Definition does (P : Pod.t -> Prop) {A} (m : M A) (Q : A -> Prop) : Prop :=
  forall w, acts P w (snd (m w)) /\ Q (fst (m w)).

(** Two evictors that differ in their statistics at most. *)
Definition same_settings (e e' : DefaultPodEvictor) : Prop :=
  client e' = client e /\ config e' = config e
  /\ gracePeriod e' = gracePeriod e.

(** The pods the API ever lists. *)
Definition listed (c : Client) (pod : Pod.t) : Prop :=
  exists history nodeName items,
    ListPods c history nodeName = inl items /\ pod ∈ items.

(** None of the six conditions of CanEvictPod holds. *)
Definition evictable (pod : Pod.t) : Prop :=
  ~ SystemCritical pod /\ ~ DaemonSetLike pod /\ ~ Static pod
  /\ ~ StandaloneNonFailed pod /\ ~ Terminating pod /\ ~ LocalStorage pod.

(** A namespace passes the filter of a strategy: it is in the included
    list when there is one, else not in the excluded list. *)
Definition namespace_selected (included excluded : list string)
    (namespace : string) : Prop :=
  if included is [] then namespace ∉ excluded else namespace ∈ included.

(** No owner of the pod is of an excluded kind. *)
Definition owners_allowed (excludedKinds : list string) (pod : Pod.t)
  : Prop :=
  forall owner, owner ∈ Pod.OwnerReferences pod ->
                OwnerReference.Kind owner ∉ excludedKinds.

(** The pods RemoveFailedPods may evict. *)
Definition failed_and_cleanable (c : Client)
    (cfg : config.RemoveFailedPodsConfig)
    (podAgeSeconds : list Event -> Pod.t -> Z) (pod : Pod.t) : Prop :=
  listed c pod
  /\ Pod.Phase pod = PodFailed
  /\ evictable pod
  /\ namespace_selected (config.rfp_IncludedNamespaces cfg)
       (config.rfp_ExcludedNamespaces cfg) (Pod.Namespace pod)
  /\ (0 < config.MinPodLifetimeSeconds cfg ->
      exists history,
        config.MinPodLifetimeSeconds cfg <= podAgeSeconds history pod)
  /\ owners_allowed (config.rfp_ExcludeOwnerKinds cfg) pod.

(** The pods RemoveDuplicates may evict. *)
Definition running_and_replaceable (c : Client)
    (cfg : config.RemoveDuplicatesConfig) (pod : Pod.t) : Prop :=
  listed c pod
  /\ Pod.Phase pod = PodRunning
  /\ evictable pod
  /\ namespace_selected (config.rd_IncludedNamespaces cfg)
       (config.rd_ExcludedNamespaces cfg) (Pod.Namespace pod)
  /\ Pod.OwnerReferences pod <> []
  /\ owners_allowed (config.rd_ExcludeOwnerKinds cfg) pod.

(** The pods LowNodeUtilization may evict. *)
Definition active_and_evictable (c : Client) (pod : Pod.t) : Prop :=
  listed c pod
  /\ Pod.Phase pod <> PodSucceeded /\ Pod.Phase pod <> PodFailed
  /\ evictable pod.

(** The pods RemoveFailedPods may evict at a given moment: the age is
    the one the clock gives at the history of that moment. *)
Definition cleanable_at (c : Client)
    (cfg : config.RemoveFailedPodsConfig)
    (podAgeSeconds : list Event -> Pod.t -> Z)
    (history : list Event) (pod : Pod.t) : Prop :=
  listed c pod
  /\ Pod.Phase pod = PodFailed
  /\ evictable pod
  /\ namespace_selected (config.rfp_IncludedNamespaces cfg)
       (config.rfp_ExcludedNamespaces cfg) (Pod.Namespace pod)
  /\ (0 < config.MinPodLifetimeSeconds cfg ->
      config.MinPodLifetimeSeconds cfg <= podAgeSeconds history pod)
  /\ owners_allowed (config.rfp_ExcludeOwnerKinds cfg) pod.

(** Steps as in [acts], with the pods that may be evicted depending on
    the moment: EvictPod is called on a pod only in a world at whose
    history [P] holds of the pod. *)
Inductive acts_at (P : list Event -> Pod.t -> Prop) (w : World)
  : World -> Prop :=
| acts_at_done : acts_at P w w
| acts_at_event w' ev :
    acts_at P w w' -> apiEvictions [ev] = [] -> acts_at P w (logged w' ev)
| acts_at_EvictPod w' pod reason :
    acts_at P w w' -> P (trace w') pod ->
    acts_at P w (snd (EvictPod pod reason w')).

(** A computation that, started in a world of [Pre], changes the world
    by such steps only and ends with a result and in a world of
    [Post]. *)
Definition runs (P : list Event -> Pod.t -> Prop) {A}
    (Pre : World -> Prop) (m : M A) (Post : A -> World -> Prop) : Prop :=
  forall w, Pre w ->
            acts_at P w (snd (m w)) /\ Post (fst (m w)) (snd (m w)).

End EffectVocabulary.

Section SchedulerVocabularyMore.

Import eviction scheduler.

(** The error of the first cancellation among the signals, if any. *)
Fixpoint cancellation (signals : list Signal) : option string :=
  match signals with
  | [] => None
  | Done ctxErr :: _ => Some ctxErr
  | Tick :: signals' => cancellation signals'
  end.

(** The line filterNodesBySelector logs about a node when there is a
    selector. *)
Definition selectorLine (cfg : config.Config) (node : Node.t) : Event :=
  if nodeMatchesSelector cfg node then
    Log Info 2 (fmt.Sprintf "Node %s matches node selector"
                  [fmt.AStr (Node.Name node)])
  else
    Log Info 2 (fmt.Sprintf "Node %s does not match node selector"
                  [fmt.AStr (Node.Name node)]).

(** The world after ResetStats. *)
Definition afterReset (w : World) : World :=
  {| evictor := with_stats (evictor w) zeroStats; trace := trace w |}.

End SchedulerVocabularyMore.

Section LowNodeUtilizationVocabulary.

Import eviction.

Variable cfg : config.LowNodeUtilizationConfig.

(** The two tests of categorizeNodes, with the thresholds of the
    configuration. *)
Definition underUtilized (u : utils.NodeResourceUtilization) : bool :=
  utils.IsNodeUnderUtilized u (config.Thresholds cfg).

Definition overUtilized (u : utils.NodeResourceUtilization) : bool :=
  utils.IsNodeOverUtilized u (config.TargetThresholds cfg).

(** What categorizeNodes logs about a node. *)
Definition categoryLine (u : utils.NodeResourceUtilization) : list Event :=
  if underUtilized u then
    [Log Info 2 (fmt.Sprintf "Node %s is under-utilized"
                   [fmt.AStr (utils.NodeName u)])]
  else if overUtilized u then
    [Log Info 2 (fmt.Sprintf "Node %s is over-utilized"
                   [fmt.AStr (utils.NodeName u)])]
  else [].

End LowNodeUtilizationVocabulary.

(** * A small cluster

    Concrete pods, nodes, configurations and worlds on which the
    properties are exercised. *)

Module samples.

Import eviction cycle strategies.

Definition owner (kind name uid : string) : OwnerReference.t :=
  {| OwnerReference.Kind := kind; OwnerReference.Name := name;
     OwnerReference.UID := uid |}.

Definition replicaSet : OwnerReference.t := owner "ReplicaSet" "web" "uid-1".

Definition container (image : string) : Container.t :=
  {| Container.Name := "main"; Container.Image := image |}.

(** A pod on node [n1] with one container and no volume. *)
Definition pod (namespace name : string) (created : Z) (phase : PodPhase)
    (owners : list OwnerReference.t) : Pod.t :=
  {| Pod.Namespace := namespace; Pod.Name := name;
     Pod.OwnerReferences := owners; Pod.Annotations := ∅;
     Pod.CreationTimestamp := created; Pod.DeletionTimestamp := None;
     Pod.NodeName := "n1"; Pod.PriorityClassName := "";
     Pod.Priority := None; Pod.Containers := [container "nginx:1.25"];
     Pod.Volumes := []; Pod.Phase := phase; Pod.Reason := "" |}.

Definition web0 : Pod.t := pod "a" "web-0" 100 PodRunning [replicaSet].
Definition web1 : Pod.t := pod "a" "web-1" 110 PodRunning [replicaSet].
Definition web2 : Pod.t := pod "a" "web-2" 105 PodRunning [replicaSet].
Definition api1 : Pod.t := pod "b" "api-1" 120 PodRunning [replicaSet].

(** A failed pod without owner. *)
Definition orphan : Pod.t := pod "a" "job-x" 50 PodFailed [].

(** A pod that is not bound to a node. *)
Definition unbound : Pod.t :=
  {| Pod.Namespace := "c"; Pod.Name := "pending-1";
     Pod.OwnerReferences := [replicaSet]; Pod.Annotations := ∅;
     Pod.CreationTimestamp := 130; Pod.DeletionTimestamp := None;
     Pod.NodeName := ""; Pod.PriorityClassName := "";
     Pod.Priority := None; Pod.Containers := [container "nginx:1.25"];
     Pod.Volumes := []; Pod.Phase := PodPending; Pod.Reason := "" |}.

(** Two pods of one role: same namespace, same owner kind and name, the
    same two images in different container order; the pod names, the
    owner UIDs and the creation times differ. *)
Definition twin (name uid : string) (created : Z) (images : list string)
  : Pod.t :=
  {| Pod.Namespace := "shop"; Pod.Name := name;
     Pod.OwnerReferences := [owner "ReplicaSet" "cart" uid];
     Pod.Annotations := ∅;
     Pod.CreationTimestamp := created; Pod.DeletionTimestamp := None;
     Pod.NodeName := "n1"; Pod.PriorityClassName := "";
     Pod.Priority := None; Pod.Containers := map container images;
     Pod.Volumes := []; Pod.Phase := PodRunning; Pod.Reason := "" |}.

(** The same pod under its two owners in either order. *)
Definition adopted (owners : list OwnerReference.t) : Pod.t :=
  pod "a" "web-3" 140 PodRunning owners.

Definition twin1 : Pod.t := twin "cart-1" "uid-7" 10 ["proxy:2"; "cart:1"].
Definition twin2 : Pod.t := twin "cart-2" "uid-8" 20 ["cart:1"; "proxy:2"].

Definition readyNode (name : string) : Node.t :=
  {| Node.Name := name; Node.Labels := ∅; Node.Unschedulable := false;
     Node.Conditions := [{| NodeCondition.Type_ := "Ready";
                            NodeCondition.Status := "True" |}] |}.

(** A cluster of one ready node whose API accepts every eviction. *)
Definition cluster : Client :=
  {| ListNodes := fun _ => inl [readyNode "n1"];
     ListPods := fun _ _ => inl [];
     Evict := fun _ _ => None |}.

Definition limits : config.EvictionLimits :=
  {| config.MaxPodsToEvictPerNode := 10;
     config.MaxPodsToEvictPerNamespace := 1;
     config.MaxPodsToEvictTotal := 50 |}.

Definition cfg (interval : Z) (dryRun : bool) : config.Config :=
  {| config.Interval := interval; config.DryRun := dryRun;
     config.NodeSelector := ∅; config.Limits := limits;
     config.Strategies := {| config.RemoveFailedPods := None;
                             config.LowNodeUtilization := None;
                             config.RemoveDuplicates := None |};
     config.LogLevel := "info" |}.

(** The world a fresh evictor starts in. *)
Definition world (dryRun : bool) : World :=
  {| evictor := NewDefaultPodEvictor cluster (cfg (5 * config.Minute) dryRun);
     trace := [] |}.

(** The dry-run world after one eviction in namespace [a], which uses up
    the namespace limit of 1. *)
Definition worldAfterWeb0 : World :=
  snd (EvictPod web0 "earlier" (world true)).

Definition ops : list Op :=
  [OpEvict web0 "first"; OpEvict web1 "second"; OpEvict api1 "third";
   OpReset; OpEvict unbound "fourth"].

Definition lnu : config.LowNodeUtilizationConfig :=
  {| config.lnu_Enabled := true;
     config.Thresholds :=
       {| config.CPU := 20; config.Memory := 20; config.Pods := 20 |};
     config.TargetThresholds :=
       {| config.CPU := 80; config.Memory := 80; config.Pods := 80 |};
     config.NumberOfNodes := 1 |}.

(** Node [n1] at CPU 90%, memory 50%, pods 40%. *)
Definition busy : utils.NodeResourceUtilization :=
  {| utils.NodeName := "n1"; utils.CPUUsage := 3600;
     utils.MemoryUsage := 4000; utils.PodsCount := 44;
     utils.CPUPercent := 90; utils.MemoryPercent := 50;
     utils.PodsPercent := 40 |}.

Definition noCounters : Counters :=
  {| evicted := 0; evictedCount := 0; skippedCount := 0 |}.

Definition noDupCounters : DupCounters :=
  {| dup_evictedCount := 0; dup_skippedCount := 0 |}.

(** A signature group that lives on one node, with three pods. *)
Definition oneNodeGroup : gmap string (list Pod.t) :=
  {[ "n1" := [web0; web1; web2] ]}.

(** A signature group on two nodes, two pods on the first. *)
Definition twoNodeGroup : gmap string (list Pod.t) :=
  <["n1" := [web1; web0]]> {[ "n2" := [web2] ]}.

(** Stand-ins for the Go library in the scheduler: a duration printed
    as its number of nanoseconds, a clock that has not advanced, maps
    ranged in key order. *)
Definition durationString (d : Z) : string := pretty d +:+ "ns".
Definition since (history : list Event) : Z := 0.
Definition rangeStats (m : gmap string Z) : list (string * Z) :=
  map_to_list m.

End samples.

(** ** More of the small cluster

    A second node, clients that list pods or refuse evictions,
    configurations for the strategies, and stand-ins for what the
    strategies take from the Go library. *)

Module fixtures.

Import eviction cycle scheduler.

(** Limits with the total alone switched on. *)
Definition totalOnly : config.EvictionLimits :=
  {| config.MaxPodsToEvictPerNode := 0;
     config.MaxPodsToEvictPerNamespace := 0;
     config.MaxPodsToEvictTotal := 2 |}.

Definition noStrategies : config.StrategiesConfig :=
  {| config.RemoveFailedPods := None;
     config.LowNodeUtilization := None;
     config.RemoveDuplicates := None |}.

Definition worldTotalOnly : World :=
  {| evictor :=
       NewDefaultPodEvictor samples.cluster
         {| config.Interval := 5 * config.Minute; config.DryRun := false;
            config.NodeSelector := ∅; config.Limits := totalOnly;
            config.Strategies := noStrategies;
            config.LogLevel := "info" |};
     trace := [] |}.

Definition threeCalls : list (Pod.t * string) :=
  [(samples.web0, "first"); (samples.web1, "second");
   (samples.api1, "third")].

(** A failed pod of a Job. *)
Definition crashed : Pod.t :=
  samples.pod "a" "batch-1" 60 PodFailed [samples.owner "Job" "batch" "uid-3"].

(** Two ready nodes; the first carries four pods, one of them failed. *)
Definition twoNodes : list Node.t :=
  [samples.readyNode "n1"; samples.readyNode "n2"].

Definition podsOn (nodeName : string) : list Pod.t :=
  if String.eqb nodeName "n1"
  then [samples.web0; samples.web1; samples.web2; crashed]
  else [samples.api1].

(** The API of that cluster; it accepts every eviction. *)
Definition crowded : Client :=
  {| ListNodes := fun _ => inl twoNodes;
     ListPods := fun _ nodeName => inl (podsOn nodeName);
     Evict := fun _ _ => None |}.

(** An API that refuses every eviction. *)
Definition refusing : Client :=
  {| ListNodes := fun _ => inl twoNodes;
     ListPods := fun _ nodeName => inl (podsOn nodeName);
     Evict := fun _ _ => Some "disruption budget exhausted" |}.

Definition worldOf (c : Client) (dryRun : bool) : World :=
  {| evictor := NewDefaultPodEvictor c (samples.cfg (5 * config.Minute) dryRun);
     trace := [] |}.

(** The three strategy sections, all enabled, without filters. *)
Definition rfp : config.RemoveFailedPodsConfig :=
  {| config.rfp_Enabled := true; config.MinPodLifetimeSeconds := 300;
     config.rfp_ExcludeOwnerKinds := [];
     config.rfp_IncludedNamespaces := [];
     config.rfp_ExcludedNamespaces := [] |}.

Definition rd : config.RemoveDuplicatesConfig :=
  {| config.rd_Enabled := true; config.rd_ExcludeOwnerKinds := [];
     config.rd_IncludedNamespaces := [];
     config.rd_ExcludedNamespaces := [] |}.

Definition allStrategies : config.Config :=
  {| config.Interval := 5 * config.Minute; config.DryRun := false;
     config.NodeSelector := ∅; config.Limits := samples.limits;
     config.Strategies :=
       {| config.RemoveFailedPods := Some rfp;
          config.LowNodeUtilization := Some samples.lnu;
          config.RemoveDuplicates := Some rd |};
     config.LogLevel := "info" |}.

(** Stand-ins: every pod is an hour old; a node has room for ten pods
    and every pod takes a tenth of each resource; maps are ranged in
    key order. *)
Definition podAgeSeconds (history : list Event) (pod : Pod.t) : Z := 3600.

Definition CalculateNodeUtilization (node : Node.t) (pods : list Pod.t)
  : utils.NodeResourceUtilization :=
  let count := Z.of_nat (length pods) in
  {| utils.NodeName := Node.Name node; utils.CPUUsage := 100 * count;
     utils.MemoryUsage := 100 * count; utils.PodsCount := count;
     utils.CPUPercent := 10 * count; utils.MemoryPercent := 10 * count;
     utils.PodsPercent := 10 * count |}.

Definition rangeUtilizations
    (m : gmap string utils.NodeResourceUtilization)
  : list (string * utils.NodeResourceUtilization) :=
  map_to_list m.

Definition rangeGroups (m : gmap string (gmap string (list Pod.t)))
  : list (string * gmap string (list Pod.t)) :=
  map_to_list m.

Definition rangeNodes (m : gmap string (list Pod.t))
  : list (string * list Pod.t) :=
  map_to_list m.

(** Node [n2] at 10% of everything. *)
Definition idle : utils.NodeResourceUtilization :=
  CalculateNodeUtilization (samples.readyNode "n2") [samples.api1].

(** A signature group spread over two nodes, one pod on each. *)
Definition spreadGroup : gmap string (list Pod.t) :=
  <["n1" := [samples.web0]]> {[ "n2" := [samples.web2] ]}.

Definition signals : list Signal := [Tick; Done "context canceled"; Tick].

End fixtures.

(** * Properties *)

(** ** Go integers *)

Section GoIntFacts.

Import GoInt.

Lemma wrap_in_range z : in_range (wrap z).
Proof.
  unfold in_range, wrap, minInt, maxInt.
  pose proof (Z.mod_pos_bound (z + 2 ^ 63) (2 ^ 64) ltac:(lia)). lia.
Qed.

Lemma wrap_id z : in_range z -> wrap z = z.
Proof.
  unfold in_range, wrap, minInt, maxInt. intros Hz.
  rewrite Z.mod_small by lia. lia.
Qed.

Lemma add_in_range a b : in_range (add a b).
Proof. apply wrap_in_range. Qed.

(** A counter still below an [int] bound is incremented without
    overflow. *)
Lemma incr_below a m :
  in_range a -> in_range m -> a < m -> add a 1 = a + 1.
Proof.
  unfold add, in_range. intros Ha Hm Hlt. apply wrap_id.
  unfold in_range. lia.
Qed.

Lemma zero_in_range : in_range 0.
Proof. unfold in_range, minInt, maxInt. lia. Qed.

End GoIntFacts.

Lemma PodPhase_eqb_eq a b : PodPhase_eqb a b = true <-> a = b.
Proof. destruct a, b; simpl; split; congruence. Qed.

(** ** The evictor's statistics *)

Section StatsFacts.

Import eviction cycle.

Lemma at_key_empty k : at_key ∅ k = 0.
Proof. unfold at_key. by rewrite lookup_empty. Qed.

Lemma at_key_incr_key m n k :
  at_key (incr_key m n) k
  = if decide (n = k) then GoInt.add (at_key m n) 1 else at_key m k.
Proof.
  unfold incr_key, at_key at 1. rewrite lookup_insert.
  destruct (decide (n = k)); reflexivity.
Qed.

Lemma eqb_empty_false s : String.eqb s "" = false <-> s <> "".
Proof. apply String.eqb_neq. Qed.

Lemma append_nil_r s : s +:+ "" = s.
Proof.
  induction s as [|c s IH]; [reflexivity|].
  change (String c (s +:+ "") = String c s). by rewrite IH.
Qed.

Lemma Sprintf_head c rest args :
  Ascii.eqb c "%" = false ->
  fmt.Sprintf (String c rest) args = String c (fmt.Sprintf rest args).
Proof. intros H. cbn [fmt.Sprintf]. by rewrite H. Qed.

Lemma total_limit_reached_iff e :
  (0 <? config.MaxPodsToEvictTotal (config.Limits (config e)))
  && (config.MaxPodsToEvictTotal (config.Limits (config e))
      <=? TotalEvicted (stats e)) = true
  <-> total_limit_reached e.
Proof.
  unfold total_limit_reached.
  rewrite andb_true_iff, Z.ltb_lt, Z.leb_le. tauto.
Qed.

Lemma node_limit_reached_iff e pod :
  (0 <? config.MaxPodsToEvictPerNode (config.Limits (config e)))
  && negb (String.eqb (Pod.NodeName pod) "")
  && (config.MaxPodsToEvictPerNode (config.Limits (config e))
      <=? at_key (EvictedByNode (stats e)) (Pod.NodeName pod)) = true
  <-> node_limit_reached e pod.
Proof.
  unfold node_limit_reached.
  rewrite !andb_true_iff, negb_true_iff, Z.ltb_lt, Z.leb_le,
    eqb_empty_false. tauto.
Qed.

Lemma namespace_limit_reached_iff e pod :
  (0 <? config.MaxPodsToEvictPerNamespace (config.Limits (config e)))
  && (config.MaxPodsToEvictPerNamespace (config.Limits (config e))
      <=? at_key (EvictedByNamespace (stats e)) (Pod.Namespace pod)) = true
  <-> namespace_limit_reached e pod.
Proof.
  unfold namespace_limit_reached.
  rewrite andb_true_iff, Z.ltb_lt, Z.leb_le. tauto.
Qed.

Lemma checkEvictionLimits_verdict e pod :
  quota_verdict e pod (checkEvictionLimits e pod).
Proof.
  unfold checkEvictionLimits. cbv zeta.
  destruct (_ && _) eqn:Ht at 1.
  { apply total_limit_reached_iff in Ht. cbn. rewrite append_nil_r.
    by apply verdict_total. }
  destruct (_ && _ && _) eqn:Hn at 1.
  { apply node_limit_reached_iff in Hn. cbn. rewrite append_nil_r.
    apply verdict_node; [|done].
    rewrite <- total_limit_reached_iff. congruence. }
  destruct (_ && _) eqn:Hs at 1.
  { apply namespace_limit_reached_iff in Hs. cbn. rewrite append_nil_r.
    apply verdict_namespace; [| |done].
    - rewrite <- total_limit_reached_iff. congruence.
    - rewrite <- node_limit_reached_iff. congruence. }
  apply verdict_accept.
  - rewrite <- total_limit_reached_iff. congruence.
  - rewrite <- node_limit_reached_iff. congruence.
  - rewrite <- namespace_limit_reached_iff. congruence.
Qed.

(** What a nil result of checkEvictionLimits tells about the counters. *)
Lemma checkEvictionLimits_None e pod :
  checkEvictionLimits e pod = None ->
  let l := config.Limits (config e) in
  (0 < config.MaxPodsToEvictTotal l ->
   TotalEvicted (stats e) < config.MaxPodsToEvictTotal l)
  /\ (0 < config.MaxPodsToEvictPerNode l -> Pod.NodeName pod <> "" ->
      at_key (EvictedByNode (stats e)) (Pod.NodeName pod)
      < config.MaxPodsToEvictPerNode l)
  /\ (0 < config.MaxPodsToEvictPerNamespace l ->
      at_key (EvictedByNamespace (stats e)) (Pod.Namespace pod)
      < config.MaxPodsToEvictPerNamespace l).
Proof.
  intros Hnil. pose proof (checkEvictionLimits_verdict e pod) as Hv.
  rewrite Hnil in Hv. inversion Hv as [| | |Ht Hn Hs].
  unfold total_limit_reached in Ht. unfold node_limit_reached in Hn.
  unfold namespace_limit_reached in Hs. cbv zeta.
  split; [lia|]. split; [|lia].
  intros Hpos Hname.
  destruct (Z.lt_ge_cases
              (at_key (EvictedByNode (stats e)) (Pod.NodeName pod))
              (config.MaxPodsToEvictPerNode (config.Limits (config e))));
    [done|tauto].
Qed.

End StatsFacts.

(** ** EvictPod, case by case *)

Section EvictPodFacts.

Import eviction cycle.

Lemma EvictPod_outcomes pod reason w :
  EvictPod_outcome pod reason w (EvictPod pod reason w).
Proof.
  unfold EvictPod, bind, get_evictor.
  destruct (checkEvictionLimits (evictor w) pod) as [err|] eqn:Hcheck.
  - destruct w. by apply outcome_quota.
  - destruct (config.DryRun (config (evictor w))) eqn:Hdry.
    + unfold Infof, emit, modify_stats, ret. cbn.
      by apply outcome_dryRun.
    + unfold callEvict, bind, get_evictor, get_trace, emit, ret. cbn.
      fold (evictionOf (evictor w) pod).
      destruct (Evict (client (evictor w)) (trace w)
                  (evictionOf (evictor w) pod)) as [apiErr|] eqn:Hapi.
      * unfold modify_stats, Errorf, emit. cbn.
        rewrite <- app_assoc. by eapply outcome_failed.
      * unfold modify_stats, Infof, emit. cbn.
        rewrite <- app_assoc. by eapply outcome_evicted.
Qed.

Lemma EvictPod_rejected pod reason w err :
  checkEvictionLimits (evictor w) pod = Some err ->
  EvictPod pod reason w = (Some err, w).
Proof.
  intros Hcheck. destruct (EvictPod_outcomes pod reason w); congruence.
Qed.

End EvictPodFacts.

(** ** C1: the limits bound the statistics *)

Section QuotaInvariant.

Import eviction cycle.

Lemma quota_inv_zeroStats e :
  limits_are_ints (config.Limits (config e)) ->
  quota_inv (with_stats e zeroStats).
Proof.
  intros Hl. pose proof zero_in_range as H0.
  unfold quota_inv, counters_are_ints, within_limits.
  cbn [with_stats stats config zeroStats TotalEvicted EvictedByNode
       EvictedByNamespace].
  split; [exact Hl|]. split.
  - split; [exact H0|]. split; intros k; by rewrite at_key_empty.
  - split; [lia|]. split; intros Hpos k; rewrite at_key_empty; lia.
Qed.

Lemma quota_inv_failedEviction e :
  quota_inv e -> quota_inv (with_stats e (failedEviction (stats e))).
Proof. unfold quota_inv, counters_are_ints, within_limits. cbn. tauto. Qed.

Lemma quota_inv_updateStats e pod reason :
  quota_inv e ->
  checkEvictionLimits e pod = None ->
  quota_inv (with_stats e (updateStats pod reason true (stats e))).
Proof.
  intros (Hl & (Ht & Hn & Hs) & (Bt & Bn & Bs)) Hcheck.
  apply checkEvictionLimits_None in Hcheck. cbv zeta in Hcheck.
  destruct Hcheck as (Ct & Cn & Cs).
  destruct Hl as (Lt & Ln & Ls).
  unfold quota_inv, counters_are_ints, within_limits. cbn.
  split; [done|]. split.
  - split; [apply add_in_range|]. split.
    + intros k. destruct (String.eqb (Pod.NodeName pod) ""); cbn; [done|].
      rewrite at_key_incr_key. case_decide; [apply add_in_range|done].
    + intros k. rewrite at_key_incr_key.
      case_decide; [apply add_in_range|done].
  - split; [|split].
    + intros Hpos. rewrite (incr_below _ _ Ht Lt (Ct Hpos)).
      specialize (Ct Hpos). lia.
    + intros Hpos k.
      destruct (String.eqb (Pod.NodeName pod) "") eqn:Hname; cbn;
        [by apply Bn|].
      apply eqb_empty_false in Hname.
      rewrite at_key_incr_key. case_decide; [|by apply Bn].
      rewrite (incr_below _ _ (Hn _) Ln (Cn Hpos Hname)).
      specialize (Cn Hpos Hname). lia.
    + intros Hpos k. rewrite at_key_incr_key. case_decide; [|by apply Bs].
      rewrite (incr_below _ _ (Hs _) Ls (Cs Hpos)).
      specialize (Cs Hpos). lia.
Qed.

Lemma quota_inv_EvictPod pod reason w :
  quota_inv (evictor w) ->
  quota_inv (evictor (snd (EvictPod pod reason w))).
Proof.
  intros Hinv.
  destruct (EvictPod_outcomes pod reason w);
    cbn [snd evictor]; [done|..];
    first [by apply quota_inv_updateStats
          | by apply quota_inv_failedEviction].
Qed.

Lemma quota_inv_runOps ops : forall w,
  quota_inv (evictor w) -> quota_inv (evictor (snd (runOps ops w))).
Proof.
  induction ops as [|op ops IH]; intros w Hinv; [exact Hinv|].
  cbn [runOps]. unfold bind.
  destruct (runOp op w) as [u w1] eqn:Hop.
  apply IH. destruct op as [pod reason|]; cbn in Hop.
  - unfold bind, ret in Hop.
    pose proof (quota_inv_EvictPod pod reason w Hinv) as H1.
    destruct (EvictPod pod reason w) as [r w2]. by inversion Hop; subst.
  - unfold ResetStats, modify_stats in Hop. inversion Hop; subst. cbn.
    apply quota_inv_zeroStats, Hinv.
Qed.

(** C1. Whatever the state a cycle starts in, after the reset that opens
    the cycle and any sequence of Evict and Reset operations the
    statistics obey each limit that is positive: the total is at most
    the total limit, and every node and namespace entry is at most the
    per-node, respectively per-namespace, limit. *)
Theorem quota_limits_hold (w : World) (ops : list Op) :
  limits_are_ints (config.Limits (config (evictor w))) ->
  let l := config.Limits (config (evictor w)) in
  let s := stats (evictor (snd (runOps (OpReset :: ops) w))) in
  (0 < config.MaxPodsToEvictTotal l ->
   TotalEvicted s <= config.MaxPodsToEvictTotal l)
  /\ (0 < config.MaxPodsToEvictPerNode l ->
      forall k, at_key (EvictedByNode s) k <= config.MaxPodsToEvictPerNode l)
  /\ (0 < config.MaxPodsToEvictPerNamespace l ->
      forall k, at_key (EvictedByNamespace s) k
                <= config.MaxPodsToEvictPerNamespace l).
Proof.
  intros Hl l s.
  assert (Hinv : quota_inv (evictor (snd (runOps (OpReset :: ops) w)))).
  { cbn [runOps runOp]. unfold bind, ResetStats, modify_stats. cbn.
    apply quota_inv_runOps. cbn. by apply quota_inv_zeroStats. }
  assert (Hcfg : forall ops w, config (evictor (snd (runOps ops w)))
                               = config (evictor w)).
  { clear. induction ops as [|op ops IH]; intros w; [done|].
    cbn [runOps]. unfold bind. destruct (runOp op w) as [u w1] eqn:Hop.
    rewrite IH. destruct op as [pod reason|]; cbn in Hop.
    - unfold bind, ret in Hop.
      destruct (EvictPod_outcomes pod reason w); by inversion Hop; subst.
    - unfold ResetStats, modify_stats in Hop. by inversion Hop; subst. }
  destruct Hinv as (_ & _ & Hw). rewrite Hcfg in Hw. exact Hw.
Qed.

End QuotaInvariant.

(** ** C3: a call rejected on quota changes nothing *)

Section QuotaRejection.

Import eviction cycle.

(** C3. The quota check returns the error of the first limit that is
    reached, in the order total, node, namespace, each rule applying only
    when its limit is positive; and a call to EvictPod that the check
    rejects returns that error and leaves the evictor, statistics
    included, and the trace as they were. *)
Theorem quota_rejection_changes_nothing
    (pod : Pod.t) (reason : string) (w : World) :
  quota_verdict (evictor w) pod (checkEvictionLimits (evictor w) pod)
  /\ forall err,
       checkEvictionLimits (evictor w) pod = Some err ->
       EvictPod pod reason w = (Some err, w).
Proof.
  split; [apply checkEvictionLimits_verdict|].
  intros err. apply EvictPod_rejected.
Qed.

End QuotaRejection.

(** ** C4: dry run *)

Section DryRun.

Import eviction cycle.

Lemma apiEvictions_app t1 t2 :
  apiEvictions (t1 ++ t2) = apiEvictions t1 ++ apiEvictions t2.
Proof. apply omap_app. Qed.

(** C4. In dry-run mode a pod that passes the quota check is not sent to
    the eviction API: EvictPod succeeds, the only event it adds is the
    info line [[DryRun] Would evict pod <ns>/<name> on node <node>,
    reason: <reason>], and the statistics become what updateStats makes
    of them, which is also what a real eviction that the API accepts
    leaves behind from the same statistics. *)
Theorem dry_run_counts_without_evicting
    (pod : Pod.t) (reason : string) (w : World) :
  config.DryRun (config (evictor w)) = true ->
  checkEvictionLimits (evictor w) pod = None ->
  let after := updateStats pod reason true (stats (evictor w)) in
  EvictPod pod reason w
  = (None,
     {| evictor := with_stats (evictor w) after;
        trace := trace w
                 ++ [Log Info 0
                       ("[DryRun] Would evict pod " +:+ Pod.Namespace pod
                        +:+ "/" +:+ Pod.Name pod +:+ " on node "
                        +:+ Pod.NodeName pod +:+ ", reason: "
                        +:+ reason)] |})
  /\ apiEvictions (trace (snd (EvictPod pod reason w)))
     = apiEvictions (trace w)
  /\ TotalEvicted after = GoInt.add (TotalEvicted (stats (evictor w))) 1
  /\ (Pod.NodeName pod <> "" ->
      at_key (EvictedByNode after) (Pod.NodeName pod)
      = GoInt.add (at_key (EvictedByNode (stats (evictor w)))
                          (Pod.NodeName pod)) 1)
  /\ at_key (EvictedByNamespace after) (Pod.Namespace pod)
     = GoInt.add (at_key (EvictedByNamespace (stats (evictor w)))
                         (Pod.Namespace pod)) 1
  /\ at_key (EvictedByReason after) reason
     = GoInt.add (at_key (EvictedByReason (stats (evictor w))) reason) 1
  /\ forall real : World,
       stats (evictor real) = stats (evictor w) ->
       config.Limits (config (evictor real))
       = config.Limits (config (evictor w)) ->
       config.DryRun (config (evictor real)) = false ->
       Evict (client (evictor real)) (trace real)
             (evictionOf (evictor real) pod) = None ->
       fst (EvictPod pod reason real) = None
       /\ stats (evictor (snd (EvictPod pod reason real))) = after.
Proof.
  intros Hdry Hcheck after.
  assert (Hrun : EvictPod pod reason w
                 = (None,
                    {| evictor := with_stats (evictor w) after;
                       trace := trace w
                         ++ [Log Info 0
                               ("[DryRun] Would evict pod "
                                +:+ Pod.Namespace pod +:+ "/"
                                +:+ Pod.Name pod +:+ " on node "
                                +:+ Pod.NodeName pod +:+ ", reason: "
                                +:+ reason)] |})).
  { unfold EvictPod, bind, get_evictor. rewrite Hcheck, Hdry.
    unfold Infof, emit, modify_stats, ret. cbn.
    by rewrite append_nil_r. }
  split; [exact Hrun|]. split.
  { rewrite Hrun. cbn [snd trace]. rewrite apiEvictions_app. cbn.
    by rewrite app_nil_r. }
  split; [reflexivity|]. split.
  { intros Hname. unfold after, updateStats.
    cbn [EvictedByNode]. apply eqb_empty_false in Hname. rewrite Hname.
    cbn [negb]. rewrite at_key_incr_key. by case_decide. }
  split.
  { unfold after, updateStats. cbn [EvictedByNamespace].
    rewrite at_key_incr_key. by case_decide. }
  split.
  { unfold after, updateStats. cbn [EvictedByReason].
    rewrite at_key_incr_key. by case_decide. }
  intros real Hstats Hlimits Hreal Hapi.
  assert (Hcheck' : checkEvictionLimits (evictor real) pod = None).
  { unfold checkEvictionLimits in *. by rewrite Hstats, Hlimits. }
  destruct (EvictPod_outcomes pod reason real); try congruence.
  cbn. by rewrite Hstats.
Qed.

End DryRun.

(** ** C10: pods without a node *)

Section EmptyNodeName.

Import eviction cycle.

Lemma no_empty_key_EvictPod pod reason w :
  EvictedByNode (stats (evictor w)) !! "" = None ->
  EvictedByNode (stats (evictor (snd (EvictPod pod reason w)))) !! ""
  = None.
Proof.
  intros Hnone.
  assert (Hupd : EvictedByNode
                   (updateStats pod reason true (stats (evictor w))) !! ""
                 = None).
  { unfold updateStats. cbn [EvictedByNode].
    destruct (String.eqb (Pod.NodeName pod) "") eqn:Hname; cbn [negb];
      [done|].
    apply eqb_empty_false in Hname. unfold incr_key.
    by rewrite lookup_insert_ne. }
  destruct (EvictPod_outcomes pod reason w);
    cbn [snd evictor with_stats stats failedEviction EvictedByNode];
    assumption.
Qed.

Lemma no_empty_key_runOps ops : forall w,
  EvictedByNode (stats (evictor w)) !! "" = None ->
  EvictedByNode (stats (evictor (snd (runOps ops w)))) !! "" = None.
Proof.
  induction ops as [|op ops IH]; intros w Hnone; [exact Hnone|].
  cbn [runOps]. unfold bind.
  destruct (runOp op w) as [u w1] eqn:Hop.
  apply IH. destruct op as [pod reason|]; cbn in Hop.
  - unfold bind, ret in Hop.
    pose proof (no_empty_key_EvictPod pod reason w Hnone) as H1.
    destruct (EvictPod pod reason w) as [r w2]. by inversion Hop; subst.
  - unfold ResetStats, modify_stats in Hop. by inversion Hop; subst.
Qed.

(** C10. For a pod whose node name is empty, the verdict of the quota
    check does not depend on the per-node map, the node rule never
    rejects it, and EvictPod leaves the per-node map as it was, while the
    total and the namespace rule still reject it when reached and its
    eviction still counts in the total and in its namespace. So after
    the reset of a cycle and any sequence of Evict and Reset operations
    the per-node map has no entry for the empty name. *)
Theorem empty_node_name_is_never_counted (w : World) (ops : list Op) :
  EvictedByNode (stats (evictor (snd (runOps (OpReset :: ops) w)))) !! ""
  = None
  /\ forall (pod : Pod.t) (reason : string) (w : World),
       Pod.NodeName pod = "" ->
       (forall m, checkEvictionLimits (with_EvictedByNode (evictor w) m) pod
                  = checkEvictionLimits (evictor w) pod)
       /\ ~ node_limit_reached (evictor w) pod
       /\ EvictedByNode (stats (evictor (snd (EvictPod pod reason w))))
          = EvictedByNode (stats (evictor w))
       /\ (total_limit_reached (evictor w)
           \/ namespace_limit_reached (evictor w) pod ->
           exists err, EvictPod pod reason w = (Some err, w))
       /\ (fst (EvictPod pod reason w) = None ->
           let s := stats (evictor w) in
           let s' := stats (evictor (snd (EvictPod pod reason w))) in
           TotalEvicted s' = GoInt.add (TotalEvicted s) 1
           /\ at_key (EvictedByNamespace s') (Pod.Namespace pod)
              = GoInt.add (at_key (EvictedByNamespace s)
                                  (Pod.Namespace pod)) 1).
Proof.
  split.
  { cbn [runOps runOp]. unfold bind, ResetStats, modify_stats. cbn.
    by apply no_empty_key_runOps. }
  clear. intros pod reason w Hname.
  assert (Hnode : ~ node_limit_reached (evictor w) pod).
  { unfold node_limit_reached. tauto. }
  split; [|split; [exact Hnode|split; [|split]]].
  - intros m. unfold checkEvictionLimits. cbn. rewrite Hname.
    change (String.eqb "" "") with true. cbn [negb].
    by rewrite !andb_false_r.
  - destruct (EvictPod_outcomes pod reason w); cbn; try done;
      unfold updateStats; cbn; by rewrite Hname.
  - intros Hreached.
    pose proof (checkEvictionLimits_verdict (evictor w) pod) as Hv.
    destruct (checkEvictionLimits (evictor w) pod) as [err|] eqn:Hc.
    + exists err. by apply EvictPod_rejected.
    + inversion Hv. tauto.
  - intros Hok s s'. subst s s'.
    destruct (EvictPod_outcomes pod reason w); cbn in *; try done.
    + split; [done|]. rewrite at_key_incr_key. by case_decide.
    + split; [done|]. rewrite at_key_incr_key. by case_decide.
Qed.

End EmptyNodeName.

(** ** C2: CanEvictPod *)

Section CanEvict.

Import eviction.

Lemma isSystemCriticalPod_iff pod :
  isSystemCriticalPod pod = true <-> SystemCritical pod.
Proof.
  unfold isSystemCriticalPod, SystemCritical.
  destruct (String.eqb_spec (Pod.PriorityClassName pod)
              "system-cluster-critical") as [->|Hc]; cbn [orb];
    [tauto|].
  destruct (String.eqb_spec (Pod.PriorityClassName pod)
              "system-node-critical") as [->|Hn]; [tauto|].
  cbn [existsb]. rewrite !orb_true_iff, !String.eqb_eq.
  rewrite !elem_of_cons, elem_of_nil. intuition congruence.
Qed.

Lemma isDaemonSetPod_iff pod : isDaemonSetPod pod = true <-> DaemonSetLike pod.
Proof.
  unfold isDaemonSetPod, DaemonSetLike. rewrite existsb_exists.
  split; intros (owner & Hin & Hk); exists owner.
  - by rewrite list_elem_of_In, <- String.eqb_eq.
  - by rewrite <- list_elem_of_In, String.eqb_eq.
Qed.

Lemma isStaticPod_iff pod : isStaticPod pod = true <-> Static pod.
Proof.
  unfold isStaticPod, Static.
  destruct (Pod.Annotations pod !! "kubernetes.io/config.source")
    as [source|]; [|split; discriminate].
  rewrite String.eqb_eq. split; congruence.
Qed.

Lemma standalone_iff pod :
  isStandalonePod pod && negb (PodPhase_eqb (Pod.Phase pod) PodFailed)
  = true
  <-> StandaloneNonFailed pod.
Proof.
  unfold isStandalonePod, StandaloneNonFailed.
  rewrite andb_true_iff, negb_true_iff, Z.eqb_eq.
  rewrite <- not_true_iff_false, PodPhase_eqb_eq.
  destruct (Pod.OwnerReferences pod); cbn [length]; split;
    intros [H1 H2]; (split; [first [done|lia]|done]).
Qed.

Lemma isSome_iff {A} (o : option A) : isSome o = true <-> o <> None.
Proof. destruct o; cbn; split; congruence. Qed.

Lemma hasLocalStorage_iff pod : hasLocalStorage pod = true <-> LocalStorage pod.
Proof.
  unfold hasLocalStorage, LocalStorage. rewrite existsb_exists.
  split; intros (volume & Hin & Hv); exists volume.
  - by rewrite list_elem_of_In, <- !isSome_iff, <- orb_true_iff.
  - by rewrite <- list_elem_of_In, orb_true_iff, !isSome_iff.
Qed.

Lemma CanEvictPod_answer e pod : CanEvict_answer pod (CanEvictPod e pod).
Proof.
  unfold CanEvictPod.
  destruct (isSystemCriticalPod pod) eqn:H1.
  { apply answer_critical. by apply isSystemCriticalPod_iff. }
  destruct (isDaemonSetPod pod) eqn:H2.
  { apply answer_daemonset; [|by apply isDaemonSetPod_iff].
    rewrite <- isSystemCriticalPod_iff. congruence. }
  destruct (isStaticPod pod) eqn:H3.
  { apply answer_static; [| |by apply isStaticPod_iff].
    - rewrite <- isSystemCriticalPod_iff. congruence.
    - rewrite <- isDaemonSetPod_iff. congruence. }
  destruct (isStandalonePod pod && _) eqn:H4.
  { apply answer_standalone; [| | |by apply standalone_iff].
    - rewrite <- isSystemCriticalPod_iff. congruence.
    - rewrite <- isDaemonSetPod_iff. congruence.
    - rewrite <- isStaticPod_iff. congruence. }
  destruct (isSome (Pod.DeletionTimestamp pod)) eqn:H5.
  { apply answer_terminating; [| | | |by apply isSome_iff].
    - rewrite <- isSystemCriticalPod_iff. congruence.
    - rewrite <- isDaemonSetPod_iff. congruence.
    - rewrite <- isStaticPod_iff. congruence.
    - rewrite <- standalone_iff. congruence. }
  destruct (hasLocalStorage pod) eqn:H6.
  { apply answer_local_storage; [| | | | |by apply hasLocalStorage_iff].
    - rewrite <- isSystemCriticalPod_iff. congruence.
    - rewrite <- isDaemonSetPod_iff. congruence.
    - rewrite <- isStaticPod_iff. congruence.
    - rewrite <- standalone_iff. congruence.
    - unfold Terminating. rewrite <- isSome_iff. congruence. }
  apply answer_evictable.
  - rewrite <- isSystemCriticalPod_iff. congruence.
  - rewrite <- isDaemonSetPod_iff. congruence.
  - rewrite <- isStaticPod_iff. congruence.
  - rewrite <- standalone_iff. congruence.
  - unfold Terminating. rewrite <- isSome_iff. congruence.
  - rewrite <- hasLocalStorage_iff. congruence.
Qed.

(** C2. CanEvictPod answers with the reason of the first of the six
    conditions that holds, taken in the order system-critical,
    DaemonSet, static, standalone and not failed, terminating, local
    storage, and with true when none holds; the answer is the same for
    every state of the evictor; and a pod without owner whose phase is
    Failed is never rejected by the standalone rule. *)
Theorem CanEvictPod_first_matching_rule
    (e : DefaultPodEvictor) (pod : Pod.t) :
  CanEvict_answer pod (CanEvictPod e pod)
  /\ (forall e' : DefaultPodEvictor, CanEvictPod e' pod = CanEvictPod e pod)
  /\ (Pod.OwnerReferences pod = [] -> Pod.Phase pod = PodFailed ->
      CanEvictPod e pod <> (false, "standalone pod (not failed)")).
Proof.
  split; [apply CanEvictPod_answer|]. split; [reflexivity|].
  intros Hown Hphase Heq.
  pose proof (CanEvictPod_answer e pod) as Hans. rewrite Heq in Hans.
  inversion Hans as [| | |_ _ _ [_ Hne]| | |]. by apply Hne.
Qed.

End CanEvict.

(** ** C8: the signature *)

Section Signature.

Import utils.

Lemma ascii_compare_le_trans (a b c : ascii) :
  Ascii.compare a b <> Gt -> Ascii.compare b c <> Gt ->
  Ascii.compare a c <> Gt
  /\ (Ascii.compare a c = Eq ->
      Ascii.compare a b = Eq /\ Ascii.compare b c = Eq).
Proof.
  unfold Ascii.compare. intros Hab Hbc.
  change (N_of_ascii a <= N_of_ascii b)%N in Hab.
  change (N_of_ascii b <= N_of_ascii c)%N in Hbc.
  rewrite !N.compare_eq_iff.
  split; [change (N_of_ascii a <= N_of_ascii c)%N|]; lia.
Qed.

Lemma string_leb_trans (a b c : string) :
  String.leb a b = true -> String.leb b c = true -> String.leb a c = true.
Proof.
  unfold String.leb. revert b c.
  induction a as [|ca a IH]; intros [|cb b] [|cc c]; cbn; try done.
  intros Hab Hbc.
  destruct (ascii_compare_le_trans ca cb cc) as [Hle Heq].
  { by destruct (Ascii.compare ca cb). }
  { by destruct (Ascii.compare cb cc). }
  destruct (Ascii.compare ca cc) eqn:Hac; [|done|done].
  destruct (Heq eq_refl) as [E1 E2]. rewrite E1 in Hab. rewrite E2 in Hbc.
  by apply (IH b c).
Qed.

#[local] Instance string_le_trans : Transitive string_le.
Proof. intros a b c. apply string_leb_trans. Qed.

#[local] Instance string_le_antisym : AntiSymm (=) string_le.
Proof. intros a b. apply String.leb_antisym. Qed.

#[local] Instance string_le_total : Total string_le.
Proof. intros a b. apply String.leb_total. Qed.

Lemma sort_Strings_sorted l : Sorted string_le (sort_Strings l).
Proof. apply Sorted_merge_sort, _. Qed.

Lemma sort_Strings_perm l : sort_Strings l ≡ₚ l.
Proof. apply merge_sort_Permutation. Qed.

(** There is one ascending arrangement of a slice of strings: whatever
    algorithm sort.Strings runs, this is its result. *)
Lemma sort_Strings_unique l l' :
  Sorted string_le l' -> l' ≡ₚ l -> l' = sort_Strings l.
Proof.
  intros Hs Hp. apply (Sorted_unique string_le); [done| |].
  - apply sort_Strings_sorted.
  - by rewrite sort_Strings_perm.
Qed.

Lemma ownerPart_ownerKey owner :
  ownerPart owner = (let '(kind, name) := ownerKey owner in
                     kind +:+ ":" +:+ name).
Proof. unfold ownerPart, ownerKey. cbn. by rewrite append_nil_r. Qed.

Lemma GeneratePodSignature_signatureOf pod :
  GeneratePodSignature pod
  = signatureOf (Pod.Namespace pod) (map ownerKey (Pod.OwnerReferences pod))
                (GetPodImages pod).
Proof.
  unfold GeneratePodSignature, signatureOf. cbv zeta.
  rewrite <- app_assoc. do 3 f_equal.
  rewrite map_map. apply map_ext. intros owner.
  apply ownerPart_ownerKey.
Qed.

(** C8. The signature is a function of the namespace, of the kinds and
    names of the owner references in their order, and of the sorted
    images: two pods that agree on the three have the same signature,
    whatever else differs between them. The sorted images are the
    ascending arrangement of the container images, so the order of the
    containers does not count either. *)
Theorem signature_depends_on_three_components (p1 p2 : Pod.t) :
  (GeneratePodSignature p1
   = signatureOf (Pod.Namespace p1)
       (map ownerKey (Pod.OwnerReferences p1)) (GetPodImages p1))
  /\ Sorted string_le (GetPodImages p1)
  /\ GetPodImages p1 ≡ₚ map Container.Image (Pod.Containers p1)
  /\ (map Container.Image (Pod.Containers p1)
      ≡ₚ map Container.Image (Pod.Containers p2) ->
      GetPodImages p1 = GetPodImages p2)
  /\ (Pod.Namespace p1 = Pod.Namespace p2 ->
      map ownerKey (Pod.OwnerReferences p1)
      = map ownerKey (Pod.OwnerReferences p2) ->
      GetPodImages p1 = GetPodImages p2 ->
      GeneratePodSignature p1 = GeneratePodSignature p2).
Proof.
  split; [apply GeneratePodSignature_signatureOf|].
  split; [apply sort_Strings_sorted|].
  split; [apply sort_Strings_perm|].
  split.
  - intros Hperm. unfold GetPodImages. apply sort_Strings_unique.
    + apply sort_Strings_sorted.
    + by rewrite sort_Strings_perm.
  - intros Hns Hown Himg.
    rewrite !GeneratePodSignature_signatureOf. congruence.
Qed.

End Signature.

(** ** C5: the per-node cap of LowNodeUtilization *)

Section EvictionCap.

Import eviction strategies.

Lemma max_Zmax a b : strategies.max a b = Z.max a b.
Proof. unfold strategies.max. destruct (Z.ltb_spec b a); lia. Qed.

Lemma min_Zmin a b : strategies.min a b = Z.min a b.
Proof. unfold strategies.min. destruct (Z.ltb_spec a b); lia. Qed.

Lemma validateResourceThresholds_None t :
  config.validateResourceThresholds t = None ->
  0 <= config.CPU t <= 100 /\ 0 <= config.Memory t <= 100
  /\ 0 <= config.Pods t <= 100.
Proof.
  unfold config.validateResourceThresholds.
  repeat match goal with
         | |- context [?a <? ?b] =>
             destruct (Z.ltb_spec a b); cbn [orb]; try discriminate
         end.
  intros _. lia.
Qed.

Lemma sub_percent p t :
  0 <= p <= GoInt.maxInt -> 0 <= t <= 100 -> GoInt.sub p t = p - t.
Proof.
  intros Hp Ht. apply wrap_id.
  unfold GoInt.in_range, GoInt.minInt, GoInt.maxInt in *. lia.
Qed.

Lemma quot_ten x : 0 <= x <= GoInt.maxInt -> GoInt.quot x 10 = x / 10.
Proof.
  intros Hx. unfold GoInt.quot. rewrite Z.quot_div_nonneg by lia.
  apply wrap_id.
  unfold GoInt.in_range, GoInt.minInt, GoInt.maxInt in *.
  pose proof (Z.div_pos x 10). pose proof (Z.div_le_upper_bound x 10 x).
  lia.
Qed.

Lemma calculateMaxEvictions_clamp cfg nodeUtil :
  config.validateResourceThresholds (config.TargetThresholds cfg) = None ->
  percentages nodeUtil ->
  calculateMaxEvictions cfg nodeUtil
  = clamp (maxExcess (config.TargetThresholds cfg) nodeUtil / 10) 1 5.
Proof.
  intros Hv (Hc & Hm & Hp).
  apply validateResourceThresholds_None in Hv. destruct Hv as (Tc & Tm & Tp).
  unfold calculateMaxEvictions, clamp, maxExcess. cbv zeta.
  rewrite !sub_percent by done. rewrite !max_Zmax, min_Zmin.
  rewrite quot_ten; [done|].
  unfold GoInt.maxInt in *. lia.
Qed.

#[local] Opaque fmt.Sprintf.

(** One round of the loop while there is room under the cap. *)
Lemma evictFromNode_step nodeUtil cap pod rest c w :
  evicted c < cap ->
  evictFromNode nodeUtil cap (pod :: rest) c w
  = if fst (CanEvictPod (evictor w) pod) then
      match EvictPod pod (balancingReason nodeUtil) w with
      | (Some err, w1) =>
          evictFromNode nodeUtil cap rest c
            (logged w1 (Log Error 0
                          (fmt.Sprintf "Failed to evict pod %s/%s: %v"
                             [fmt.AStr (Pod.Namespace pod);
                              fmt.AStr (Pod.Name pod); fmt.AStr err])))
      | (None, w1) =>
          evictFromNode nodeUtil cap rest
            {| evicted := GoInt.add (evicted c) 1;
               evictedCount := GoInt.add (evictedCount c) 1;
               skippedCount := skippedCount c |}
            (logged w1 (Log Info 2
                          (fmt.Sprintf
                             "Successfully evicted pod %s/%s from over-utilized node %s"
                             [fmt.AStr (Pod.Namespace pod);
                              fmt.AStr (Pod.Name pod);
                              fmt.AStr (utils.NodeName nodeUtil)])))
      end
    else
      evictFromNode nodeUtil cap rest
        {| evicted := evicted c; evictedCount := evictedCount c;
           skippedCount := GoInt.add (skippedCount c) 1 |}
        (logged w (Log Info 3
                     (fmt.Sprintf "Skipping pod %s/%s: %s"
                        [fmt.AStr (Pod.Namespace pod);
                         fmt.AStr (Pod.Name pod);
                         fmt.AStr (snd (CanEvictPod (evictor w) pod))]))).
Proof.
  intros Hroom. cbn [evictFromNode].
  destruct (Z.leb_spec cap (evicted c)) as [Hfull|_]; [lia|].
  unfold bind at 1. cbn [get_evictor].
  destruct (CanEvictPod (evictor w) pod) as [[|] why]; cbn [negb fst snd].
  - unfold bind at 1. fold (balancingReason nodeUtil).
    destruct (EvictPod pod (balancingReason nodeUtil) w) as [[err|] w1];
      unfold bind, Errorf, VInfof, emit, logged; reflexivity.
  - unfold bind, VInfof, emit, logged. reflexivity.
Qed.

Lemma evictFromNode_full nodeUtil cap sortedPods c w :
  cap <= evicted c ->
  evictFromNode nodeUtil cap sortedPods c w = (c, w).
Proof.
  intros Hfull. destruct sortedPods as [|pod rest]; [reflexivity|].
  cbn [evictFromNode].
  by destruct (Z.leb_spec cap (evicted c)) as [_|Hroom]; [|lia].
Qed.

(** The loop never lowers [evicted] and stops it at the cap. *)
Lemma evictFromNode_bound nodeUtil cap sortedPods : forall c w,
  cap <= 5 -> 0 <= evicted c ->
  evicted c
  <= evicted (fst (evictFromNode nodeUtil cap sortedPods c w))
  <= Z.max (evicted c) cap.
Proof.
  induction sortedPods as [|pod rest IH]; intros c w Hcap Hc.
  { cbn. lia. }
  destruct (Z.leb_spec cap (evicted c)) as [Hfull|Hroom].
  { rewrite evictFromNode_full by done. cbn. lia. }
  rewrite evictFromNode_step by done.
  destruct (fst (CanEvictPod (evictor w) pod)).
  - destruct (EvictPod pod (balancingReason nodeUtil) w) as [[err|] w1].
    + by apply IH.
    + assert (Hadd : GoInt.add (evicted c) 1 = evicted c + 1).
      { apply wrap_id.
        unfold GoInt.in_range, GoInt.minInt, GoInt.maxInt. lia. }
      match goal with
      | |- context [evictFromNode _ _ _ ?c1 ?w2] =>
          pose proof (IH c1 w2 Hcap) as IH'
      end.
      cbn [evicted] in IH'. rewrite Hadd in IH' |- *.
      specialize (IH' ltac:(lia)). lia.
  - match goal with
    | |- context [evictFromNode _ _ _ ?c1 ?w2] =>
        pose proof (IH c1 w2 Hcap Hc) as IH'
    end.
    cbn [evicted] in IH'. exact IH'.
Qed.

Lemma calculateMaxEvictions_range cfg nodeUtil :
  1 <= calculateMaxEvictions cfg nodeUtil <= 5.
Proof.
  unfold calculateMaxEvictions. cbv zeta. rewrite !max_Zmax, min_Zmin. lia.
Qed.

(** Below the cap, with the vocabulary of the lines and counters. *)
Lemma evictFromNode_candidate nodeUtil cap pod rest c w :
  evicted c < cap ->
  evictFromNode nodeUtil cap (pod :: rest) c w
  = if fst (CanEvictPod (evictor w) pod) then
      match fst (EvictPod pod (balancingReason nodeUtil) w) with
      | Some err =>
          evictFromNode nodeUtil cap rest c
            (logged (snd (EvictPod pod (balancingReason nodeUtil) w))
                    (failedLine pod err))
      | None =>
          evictFromNode nodeUtil cap rest (afterEviction c)
            (logged (snd (EvictPod pod (balancingReason nodeUtil) w))
                    (evictedLine pod nodeUtil))
      end
    else
      evictFromNode nodeUtil cap rest (afterSkip c)
        (logged w (skippingLine pod (snd (CanEvictPod (evictor w) pod)))).
Proof.
  intros Hroom. rewrite evictFromNode_step by done.
  destruct (fst (CanEvictPod (evictor w) pod)); [|reflexivity].
  by destruct (EvictPod pod (balancingReason nodeUtil) w) as [[err|] w1].
Qed.

(** What EvictPod does to the count of successes. *)
Lemma EvictPod_successes pod reason w :
  0 <= successes w < GoInt.maxInt ->
  successes (snd (EvictPod pod reason w))
  = match fst (EvictPod pod reason w) with
    | Some _ => successes w
    | None => successes w + 1
    end.
Proof.
  intros Hs. unfold successes in *.
  assert (Hadd : GoInt.add (TotalEvicted (stats (evictor w))) 1
                 = TotalEvicted (stats (evictor w)) + 1).
  { apply wrap_id.
    unfold GoInt.in_range, GoInt.minInt, GoInt.maxInt in *. lia. }
  destruct (EvictPod_outcomes pod reason w);
    cbn [fst snd evictor with_stats stats updateStats failedEviction
         TotalEvicted]; done.
Qed.

(** Over the loop, the count of successes moves with [evicted]. *)
Lemma evictFromNode_successes nodeUtil cap sortedPods : forall c w,
  cap <= 5 -> 0 <= evicted c <= cap ->
  0 <= successes w -> successes w + (cap - evicted c) <= GoInt.maxInt ->
  successes (snd (evictFromNode nodeUtil cap sortedPods c w)) - successes w
  = evicted (fst (evictFromNode nodeUtil cap sortedPods c w)) - evicted c.
Proof.
  induction sortedPods as [|pod rest IH]; intros c w Hcap Hc Hs Hmax.
  { cbn. lia. }
  destruct (Z.leb_spec cap (evicted c)) as [Hfull|Hroom].
  { rewrite evictFromNode_full by done. cbn. lia. }
  rewrite evictFromNode_candidate by done.
  destruct (fst (CanEvictPod (evictor w) pod)).
  - pose proof (EvictPod_successes pod (balancingReason nodeUtil) w
                  ltac:(lia)) as Hstep.
    destruct (fst (EvictPod pod (balancingReason nodeUtil) w)) as [err|].
    + match goal with
      | |- context [evictFromNode _ _ _ ?c1 ?w2] =>
          pose proof (IH c1 w2 Hcap Hc) as IH'
      end.
      change (successes (logged ?w' ?ev)) with (successes w') in IH'.
      rewrite Hstep in IH'. apply IH'; lia.
    + assert (Hadd : GoInt.add (evicted c) 1 = evicted c + 1).
      { apply wrap_id.
        unfold GoInt.in_range, GoInt.minInt, GoInt.maxInt. lia. }
      match goal with
      | |- context [evictFromNode _ _ _ ?c1 ?w2] =>
          pose proof (IH c1 w2 Hcap) as IH'
      end.
      change (successes (logged ?w' ?ev)) with (successes w') in IH'.
      cbn [afterEviction evicted] in IH'. rewrite Hadd in IH'.
      specialize (IH' ltac:(lia) ltac:(lia) ltac:(lia)). lia.
  - match goal with
    | |- context [evictFromNode _ _ _ ?c1 ?w2] =>
        pose proof (IH c1 w2 Hcap) as IH'
    end.
    change (successes (logged ?w' ?ev)) with (successes w') in IH'.
    cbn [afterSkip evicted] in IH'. by apply IH'.
Qed.

Lemma getEvictablePodsOnNode_evictor client nodeName w :
  evictor (snd (getEvictablePodsOnNode client nodeName w)) = evictor w.
Proof.
  unfold getEvictablePodsOnNode, getPodsOnNode, listPodsOnNode.
  unfold bind, get_trace, emit, ret, get_evictor. cbn [evictor trace].
  by destruct (ListPods client (trace w) nodeName).
Qed.

(** The body of the loop over the nodes: the candidates of the node go
    through [evictFromNode] under the cap of the node, counted from 0. *)
Lemma evictFromOverUtilizedNode_loop client cfg nodeUtil c w :
  evictFromOverUtilizedNode client cfg nodeUtil c w
  = match getEvictablePodsOnNode client (utils.NodeName nodeUtil)
            (logged w (processingLine nodeUtil)) with
    | (inl evictablePods, w1) =>
        let (c', w2) :=
          evictFromNode nodeUtil (calculateMaxEvictions cfg nodeUtil)
            (sortPodsByPriority evictablePods) (atNodeStart c) w1 in
        (c', logged w2 (nodeDoneLine c' nodeUtil))
    | (inr err, w1) =>
        (c, logged w1
              (Log Error 0
                 (fmt.Sprintf "Failed to get evictable pods on node %s: %v"
                    [fmt.AStr (utils.NodeName nodeUtil); fmt.AStr err])))
    end.
Proof.
  unfold evictFromOverUtilizedNode.
  unfold bind at 1. unfold VInfof at 1, emit at 1.
  fold (processingLine nodeUtil). fold (logged w (processingLine nodeUtil)).
  unfold bind at 1.
  destruct (getEvictablePodsOnNode client (utils.NodeName nodeUtil)
              (logged w (processingLine nodeUtil)))
    as [[evictablePods|err] w1].
  - cbv zeta. unfold bind at 1. fold (atNodeStart c).
    destruct (evictFromNode nodeUtil (calculateMaxEvictions cfg nodeUtil)
                (sortPodsByPriority evictablePods) (atNodeStart c) w1)
      as [c' w2].
    reflexivity.
  - reflexivity.
Qed.

Lemma evictFromOverUtilizedNode_successes client cfg nodeUtil c w :
  0 <= successes w ->
  successes w + calculateMaxEvictions cfg nodeUtil <= GoInt.maxInt ->
  successes w
  <= successes (snd (evictFromOverUtilizedNode client cfg nodeUtil c w))
  <= successes w + calculateMaxEvictions cfg nodeUtil.
Proof.
  intros Hs Hmax. rewrite evictFromOverUtilizedNode_loop.
  pose proof (calculateMaxEvictions_range cfg nodeUtil) as Hcap.
  pose proof (getEvictablePodsOnNode_evictor client (utils.NodeName nodeUtil)
                (logged w (processingLine nodeUtil))) as Hsame.
  destruct (getEvictablePodsOnNode client (utils.NodeName nodeUtil)
              (logged w (processingLine nodeUtil)))
    as [[evictablePods|err] w1]; cbn [snd] in Hsame.
  - assert (Hw1 : successes w1 = successes w)
      by (unfold successes; by rewrite Hsame).
    pose proof (evictFromNode_successes nodeUtil
                  (calculateMaxEvictions cfg nodeUtil)
                  (sortPodsByPriority evictablePods) (atNodeStart c) w1)
      as Hmove.
    pose proof (evictFromNode_bound nodeUtil
                  (calculateMaxEvictions cfg nodeUtil)
                  (sortPodsByPriority evictablePods) (atNodeStart c) w1)
      as Hbound.
    cbn [atNodeStart evicted] in Hmove, Hbound.
    specialize (Hmove ltac:(lia) ltac:(lia) ltac:(lia) ltac:(lia)).
    specialize (Hbound ltac:(lia) ltac:(lia)).
    destruct (evictFromNode nodeUtil (calculateMaxEvictions cfg nodeUtil)
                (sortPodsByPriority evictablePods) (atNodeStart c) w1)
      as [c' w2].
    cbn [fst snd] in *.
    change (successes (logged w2 ?ev)) with (successes w2). lia.
  - cbn [snd]. change (successes (logged w1 ?ev)) with (successes w1).
    unfold successes in *. rewrite Hsame. cbn [logged evictor]. lia.
Qed.

Lemma evictFromOverUtilizedNodes_successes client cfg overUtilizedNodes :
  forall c w,
    0 <= successes w ->
    successes w + capsOf cfg overUtilizedNodes <= GoInt.maxInt ->
    successes w
    <= successes (snd (evictFromOverUtilizedNodes client cfg
                         overUtilizedNodes c w))
    <= successes w + capsOf cfg overUtilizedNodes.
Proof.
  induction overUtilizedNodes as [|nodeUtil rest IH]; intros c w Hs Hmax.
  { cbn. lia. }
  cbn [capsOf foldr] in *. fold (capsOf cfg rest) in *.
  assert (Hrest : 0 <= capsOf cfg rest).
  { clear. induction rest as [|u rest IH]; cbn [capsOf foldr]; [lia|].
    fold (capsOf cfg rest).
    pose proof (calculateMaxEvictions_range cfg u). lia. }
  cbn [evictFromOverUtilizedNodes]. unfold bind.
  pose proof (evictFromOverUtilizedNode_successes client cfg nodeUtil c w
                Hs ltac:(lia)) as Hnode.
  destruct (evictFromOverUtilizedNode client cfg nodeUtil c w) as [c1 w1].
  cbn [snd] in Hnode.
  specialize (IH c1 w1 ltac:(lia) ltac:(lia)). lia.
Qed.

Lemma evictPodsFromOverUtilizedNodes_successes client cfg
    overUtilizedNodes lowUtilizedNodes w :
  successes (snd (evictPodsFromOverUtilizedNodes client cfg
                    overUtilizedNodes lowUtilizedNodes w))
  = successes (snd (evictFromOverUtilizedNodes client cfg overUtilizedNodes
                      {| evicted := 0; evictedCount := 0;
                         skippedCount := 0 |} w)).
Proof.
  unfold evictPodsFromOverUtilizedNodes. unfold bind at 1.
  by destruct (evictFromOverUtilizedNodes client cfg overUtilizedNodes _ w).
Qed.

(** A node whose pods cannot be listed is passed over. *)
Lemma evictFromOverUtilizedNode_unlisted client cfg nodeUtil c w err w1 :
  getEvictablePodsOnNode client (utils.NodeName nodeUtil)
    (logged w (processingLine nodeUtil))
  = (inr err, w1) ->
  evictFromOverUtilizedNode client cfg nodeUtil c w
  = (c, logged w1 (listFailedLine nodeUtil err)).
Proof.
  intros Hlist. by rewrite evictFromOverUtilizedNode_loop, Hlist.
Qed.

(** The loop over the over-utilized nodes, one node at a time. *)
Lemma evictFromOverUtilizedNodes_cons client cfg nodeUtil rest c w :
  evictFromOverUtilizedNodes client cfg (nodeUtil :: rest) c w
  = (let (c', w') := evictFromOverUtilizedNode client cfg nodeUtil c w in
     evictFromOverUtilizedNodes client cfg rest c' w').
Proof. reflexivity. Qed.

Lemma evictPodsFromOverUtilizedNodes_loop client cfg overUtilizedNodes
    lowUtilizedNodes w :
  evictPodsFromOverUtilizedNodes client cfg overUtilizedNodes
    lowUtilizedNodes w
  = (let (c, w') :=
       evictFromOverUtilizedNodes client cfg overUtilizedNodes atStart w in
     (None, logged w' (balancedLine c))).
Proof.
  unfold evictPodsFromOverUtilizedNodes. unfold bind at 1. fold atStart.
  by destruct (evictFromOverUtilizedNodes client cfg overUtilizedNodes
                 atStart w).
Qed.

(** C5 as amended. On an over-utilized node the cap is
    [clamp(maxExcess / 10, 1, 5)], with [maxExcess] the largest of the
    three excesses over the target thresholds. The strategy runs the
    candidates of the node, low priority first, through the loop under
    this cap with the count at 0; the loop stops when the count is at
    the cap. A candidate that is turned down, by CanEvictPod for safety,
    by the quota check or by the API, leaves the count as it was, and
    the loop goes on to the next candidate under the same count; only a
    candidate that EvictPod evicts raises it, by one. So the cap bounds
    the evictions that succeed on the node, as the evictor counts them,
    and the caps of the nodes bound those of a whole run, which takes
    the over-utilized nodes one after the other and passes over a node
    whose pods cannot be listed. *)
Theorem cap_bounds_successful_evictions
    (client : Client) (cfg : config.LowNodeUtilizationConfig)
    (nodeUtil : utils.NodeResourceUtilization) :
  config.validateResourceThresholds (config.TargetThresholds cfg) = None ->
  percentages nodeUtil ->
  let cap := calculateMaxEvictions cfg nodeUtil in
  let reason := balancingReason nodeUtil in
  cap = clamp (maxExcess (config.TargetThresholds cfg) nodeUtil / 10) 1 5
  /\ 1 <= cap <= 5
  /\ (forall sortedPods c w,
        0 <= evicted c <= cap ->
        evicted (fst (evictFromNode nodeUtil cap sortedPods c w)) <= cap)
  /\ (forall sortedPods c w,
        cap <= evicted c ->
        evictFromNode nodeUtil cap sortedPods c w = (c, w))
  /\ (forall pod rest c w,
        0 <= evicted c < cap ->
        (rejected_for_safety w pod ->
         evictFromNode nodeUtil cap (pod :: rest) c w
         = evictFromNode nodeUtil cap rest (afterSkip c)
             (logged w (skippingLine pod
                          (snd (CanEvictPod (evictor w) pod))))
         /\ evicted (afterSkip c) = evicted c)
        /\ (rejected_for_quota w pod ->
            exists err,
              EvictPod pod reason w = (Some err, w)
              /\ evictFromNode nodeUtil cap (pod :: rest) c w
                 = evictFromNode nodeUtil cap rest c
                     (logged w (failedLine pod err)))
        /\ (refused_by_api w pod ->
            exists err,
              fst (EvictPod pod reason w) = Some err
              /\ successes (snd (EvictPod pod reason w)) = successes w
              /\ evictFromNode nodeUtil cap (pod :: rest) c w
                 = evictFromNode nodeUtil cap rest c
                     (logged (snd (EvictPod pod reason w))
                             (failedLine pod err)))
        /\ (fst (CanEvictPod (evictor w) pod) = true ->
            fst (EvictPod pod reason w) = None ->
            evictFromNode nodeUtil cap (pod :: rest) c w
            = evictFromNode nodeUtil cap rest (afterEviction c)
                (logged (snd (EvictPod pod reason w))
                        (evictedLine pod nodeUtil))
            /\ evicted (afterEviction c) = evicted c + 1))
  /\ (forall c w evictablePods w1,
        getEvictablePodsOnNode client (utils.NodeName nodeUtil)
          (logged w (processingLine nodeUtil))
        = (inl evictablePods, w1) ->
        evictFromOverUtilizedNode client cfg nodeUtil c w
        = (let (c', w2) :=
             evictFromNode nodeUtil cap (sortPodsByPriority evictablePods)
               (atNodeStart c) w1 in
           (c', logged w2 (nodeDoneLine c' nodeUtil)))
        /\ 0 <= evicted (fst (evictFromOverUtilizedNode client cfg nodeUtil
                                c w)) <= cap)
  /\ (forall c w,
        0 <= successes w -> successes w + cap <= GoInt.maxInt ->
        successes w
        <= successes (snd (evictFromOverUtilizedNode client cfg nodeUtil
                             c w))
        <= successes w + cap)
  /\ (forall overUtilizedNodes lowUtilizedNodes w,
        0 <= successes w ->
        successes w + capsOf cfg overUtilizedNodes <= GoInt.maxInt ->
        successes w
        <= successes (snd (evictPodsFromOverUtilizedNodes client cfg
                             overUtilizedNodes lowUtilizedNodes w))
        <= successes w + capsOf cfg overUtilizedNodes)
  /\ (forall c w err w1,
        getEvictablePodsOnNode client (utils.NodeName nodeUtil)
          (logged w (processingLine nodeUtil))
        = (inr err, w1) ->
        evictFromOverUtilizedNode client cfg nodeUtil c w
        = (c, logged w1 (listFailedLine nodeUtil err)))
  /\ (forall rest c w,
        evictFromOverUtilizedNodes client cfg [] c w = (c, w)
        /\ evictFromOverUtilizedNodes client cfg (nodeUtil :: rest) c w
           = (let (c', w') :=
                evictFromOverUtilizedNode client cfg nodeUtil c w in
              evictFromOverUtilizedNodes client cfg rest c' w'))
  /\ (forall overUtilizedNodes lowUtilizedNodes w,
        evictPodsFromOverUtilizedNodes client cfg overUtilizedNodes
          lowUtilizedNodes w
        = (let (c, w') :=
             evictFromOverUtilizedNodes client cfg overUtilizedNodes
               atStart w in
           (None, logged w' (balancedLine c)))).
Proof.
  intros Hv Hp cap reason.
  assert (Hcap : cap = clamp (maxExcess (config.TargetThresholds cfg)
                                nodeUtil / 10) 1 5).
  { by apply calculateMaxEvictions_clamp. }
  assert (Hrange : 1 <= cap <= 5).
  { rewrite Hcap. unfold clamp. lia. }
  split; [exact Hcap|]. split; [exact Hrange|]. split.
  { intros sortedPods c w Hc.
    pose proof (evictFromNode_bound nodeUtil cap sortedPods c w) as Hb.
    lia. }
  split; [intros sortedPods c w Hfull; by apply evictFromNode_full|].
  split.
  { intros pod rest c w Hc.
    rewrite evictFromNode_candidate by lia. fold reason. split_and!.
    - intros Hsafe. unfold rejected_for_safety in Hsafe. by rewrite Hsafe.
    - intros [Hcan Hquota]. rewrite Hcan.
      destruct (checkEvictionLimits (evictor w) pod) as [err|] eqn:Hcheck;
        [|done].
      exists err. by rewrite (EvictPod_rejected _ _ _ _ Hcheck).
    - intros (Hcan & Hcheck & Hreal & Hapi). rewrite Hcan.
      destruct (EvictPod_outcomes pod reason w) as [| |apiErr err line|];
        try congruence.
      exists err. by cbn [fst snd].
    - intros Hcan Hok. rewrite Hcan, Hok. split; [done|].
      cbn [afterEviction evicted]. apply wrap_id.
      unfold GoInt.in_range, GoInt.minInt, GoInt.maxInt. lia. }
  split.
  { intros c w evictablePods w1 Hlist.
    rewrite evictFromOverUtilizedNode_loop, Hlist. fold cap.
    split; [done|].
    pose proof (evictFromNode_bound nodeUtil cap
                  (sortPodsByPriority evictablePods) (atNodeStart c) w1)
      as Hb.
    cbn [atNodeStart evicted] in Hb.
    destruct (evictFromNode nodeUtil cap (sortPodsByPriority evictablePods)
                (atNodeStart c) w1) as [c' w2].
    cbn [fst] in *. lia. }
  split.
  { intros c w Hs Hmax. by apply evictFromOverUtilizedNode_successes. }
  split.
  { intros overUtilizedNodes lowUtilizedNodes w Hs Hmax.
    rewrite evictPodsFromOverUtilizedNodes_successes.
    by apply evictFromOverUtilizedNodes_successes. }
  split.
  { intros c w err w1 Hlist.
    by apply evictFromOverUtilizedNode_unlisted. }
  split.
  { intros rest c w. split; [reflexivity|].
    apply evictFromOverUtilizedNodes_cons. }
  intros overUtilizedNodes lowUtilizedNodes w.
  apply evictPodsFromOverUtilizedNodes_loop.
Qed.

#[local] Transparent fmt.Sprintf.

End EvictionCap.

(** ** C6: RemoveDuplicates *)

Section DuplicateNodes.

Import eviction strategies.

Lemma nodes_with_duplicates_spec (range1 : list (string * list Pod.t)) :
  forall acc n,
    n ∈ fold_left
          (fun duplicateNodes '(nodeName, pods) =>
             if 1 <? len pods then duplicateNodes ++ [nodeName]
             else duplicateNodes)
          range1 acc
    <-> n ∈ acc \/ exists pods, (n, pods) ∈ range1 /\ (1 < length pods)%nat.
Proof.
  induction range1 as [|[nodeName pods] range1 IH]; intros acc n;
    cbn [fold_left].
  { split; [tauto|]. intros [H|(pods & H & _)]; [done|].
    by apply elem_of_nil in H. }
  rewrite IH. unfold len.
  destruct (Z.ltb_spec 1 (Z.of_nat (length pods))) as [Hlt|Hge].
  - rewrite elem_of_app, list_elem_of_singleton. split.
    + intros [[H| ->]|(pods' & Hin & Hl)]; [tauto| |].
      * right. exists pods. split; [left|lia].
      * right. exists pods'. split; [by right|done].
    + intros [H|(pods' & Hin & Hl)]; [tauto|].
      apply elem_of_cons in Hin as [Heq|Hin].
      * inversion Heq; subst. tauto.
      * right. eauto.
  - split.
    + intros [H|(pods' & Hin & Hl)]; [tauto|].
      right. exists pods'. split; [by right|done].
    + intros [H|(pods' & Hin & Hl)]; [tauto|].
      apply elem_of_cons in Hin as [Heq|Hin].
      * inversion Heq; subst. lia.
      * right. eauto.
Qed.

(** A group on fewer than two nodes has no duplicate node, however many
    pods its node carries. *)
Lemma findDuplicateNodes_one_node nodePodsMap range1 range2 :
  (size nodePodsMap < 2)%nat ->
  findDuplicateNodes nodePodsMap range1 range2 = [].
Proof.
  intros Hsize. unfold findDuplicateNodes.
  by destruct (Z.ltb_spec (Z.of_nat (size nodePodsMap)) 2); [|lia].
Qed.

(** On two nodes or more, the nodes with more than one pod are duplicate
    nodes, and when there is such a node they are the only ones. *)
Lemma findDuplicateNodes_several_nodes nodePodsMap range1 range2 n pods :
  (2 <= size nodePodsMap)%nat ->
  range1 ≡ₚ map_to_list nodePodsMap ->
  nodePodsMap !! n = Some pods ->
  (1 < length pods)%nat ->
  n ∈ findDuplicateNodes nodePodsMap range1 range2
  /\ forall n', n' ∈ findDuplicateNodes nodePodsMap range1 range2 ->
                exists pods', nodePodsMap !! n' = Some pods'
                              /\ (1 < length pods')%nat.
Proof.
  intros Hsize Hperm Hlook Hlen. unfold findDuplicateNodes.
  destruct (Z.ltb_spec (Z.of_nat (size nodePodsMap)) 2); [lia|].
  cbv zeta.
  set (dups := fold_left _ range1 []).
  assert (Hin : n ∈ dups).
  { apply nodes_with_duplicates_spec. right. exists pods. split; [|done].
    rewrite Hperm. by apply elem_of_map_to_list. }
  assert (Hne : (len dups =? 0) = false).
  { apply Z.eqb_neq. unfold len. destruct dups; [|cbn; lia].
    by apply elem_of_nil in Hin. }
  rewrite Hne. cbn [andb]. split; [exact Hin|].
  intros n' Hn'. apply nodes_with_duplicates_spec in Hn'.
  destruct Hn' as [Hn'|(pods' & Hin' & Hl')]; [by apply elem_of_nil in Hn'|].
  exists pods'. split; [|done].
  apply elem_of_map_to_list. by rewrite <- Hperm.
Qed.

End DuplicateNodes.

Section SortByAge.

Import eviction strategies.

Lemma bubble_perm k : forall l, bubble k l ≡ₚ l.
Proof.
  induction k as [|k IH]; intros [|a [|b rest]]; cbn [bubble]; try done.
  destruct (After a b).
  - rewrite IH. apply Permutation_swap.
  - by rewrite IH.
Qed.

Lemma bubble_app k : forall l s,
  length l = S k -> bubble k (l ++ s) = bubble k l ++ s.
Proof.
  induction k as [|k IH]; intros l s Hlen.
  { destruct l as [|a [|b rest]]; try discriminate. cbn.
    by destruct s. }
  destruct l as [|a [|b rest]]; try discriminate.
  cbn [bubble app]. cbn in Hlen.
  destruct (After a b).
  - change (a :: rest ++ s) with ((a :: rest) ++ s).
    rewrite IH by (cbn; lia). reflexivity.
  - change (b :: rest ++ s) with ((b :: rest) ++ s).
    rewrite IH by (cbn; lia). reflexivity.
Qed.

(** One pass over [k + 1] pods carries a youngest one to the end. *)
Lemma bubble_last k : forall l,
  length l = S k ->
  exists front m,
    bubble k l = front ++ [m] /\ forall x, x ∈ l -> older_eq x m.
Proof.
  unfold older_eq.
  induction k as [|k IH]; intros l Hlen.
  { destruct l as [|a [|b rest]]; try discriminate.
    exists [], a. split; [done|].
    intros x Hx. apply list_elem_of_singleton in Hx. subst. lia. }
  destruct l as [|a [|b rest]]; try discriminate.
  cbn [bubble]. cbn in Hlen. unfold After.
  destruct (Z.ltb_spec (Pod.CreationTimestamp b) (Pod.CreationTimestamp a))
    as [Hyounger|Holder].
  - destruct (IH (a :: rest)) as (front & m & Heq & Hmax); [cbn; lia|].
    exists (b :: front), m. rewrite Heq. split; [done|].
    intros x Hx. rewrite !elem_of_cons in Hx.
    destruct Hx as [->|[->|Hx]].
    + apply Hmax. set_solver.
    + pose proof (Hmax a ltac:(set_solver)). lia.
    + apply Hmax. set_solver.
  - destruct (IH (b :: rest)) as (front & m & Heq & Hmax); [cbn; lia|].
    exists (a :: front), m. rewrite Heq. split; [done|].
    intros x Hx. apply elem_of_cons in Hx as [->|Hx].
    + pose proof (Hmax b ltac:(set_solver)). lia.
    + by apply Hmax.
Qed.

Lemma bubblePasses_sorted passes : forall i l front back,
  l = front ++ back ->
  length back = i ->
  length front = S passes ->
  StronglySorted older_eq back ->
  (forall x y, x ∈ front -> y ∈ back -> older_eq x y) ->
  StronglySorted older_eq (bubblePasses passes i l)
  /\ bubblePasses passes i l ≡ₚ l.
Proof.
  induction passes as [|passes IH]; intros i l front back -> Hb Hf Hs Hle.
  { destruct front as [|x [|? ?]]; try discriminate. cbn.
    split; [|done]. apply SSorted_cons; [done|].
    apply Forall_forall. intros y Hy. apply Hle; [set_solver|done]. }
  cbn [bubblePasses].
  assert (Hk : (length (front ++ back) - i - 1 = S passes)%nat).
  { rewrite length_app. lia. }
  rewrite Hk, (bubble_app _ _ _ Hf).
  destruct (bubble_last _ _ Hf) as (front' & m & Heq & Hmax).
  pose proof (bubble_perm (S passes) front) as Hperm.
  rewrite Heq in Hperm |- *.
  assert (Hm : m ∈ front).
  { rewrite <- Hperm. apply elem_of_app. right. by left. }
  assert (Hsub : forall x, x ∈ front' -> x ∈ front).
  { intros x Hx. rewrite <- Hperm. apply elem_of_app. by left. }
  destruct (IH (S i) ((front' ++ [m]) ++ back) front' (m :: back))
    as [Hsorted Hp].
  - by rewrite <- app_assoc.
  - cbn. lia.
  - apply (f_equal length) in Heq.
    rewrite length_app in Heq. cbn in Heq.
    pose proof (Permutation_length Hperm) as Hl.
    rewrite length_app in Hl. cbn in Hl. lia.
  - apply SSorted_cons; [done|].
    apply Forall_forall. intros y Hy. by apply Hle.
  - intros x y Hx Hy. apply elem_of_cons in Hy as [->|Hy].
    + apply Hmax. by apply Hsub.
    + apply Hle; [by apply Hsub|done].
  - split; [exact Hsorted|]. by rewrite Hp, Hperm.
Qed.

(** sortPodsByAge arranges the pods of the slice from oldest to
    youngest. *)
Lemma sortPodsByAge_sorted pods :
  StronglySorted older_eq (sortPodsByAge pods)
  /\ sortPodsByAge pods ≡ₚ pods.
Proof.
  unfold sortPodsByAge. destruct pods as [|pod pods].
  { cbn. split; [constructor|done]. }
  apply (bubblePasses_sorted _ 0%nat _ (pod :: pods) []).
  - by rewrite app_nil_r.
  - done.
  - cbn. lia.
  - constructor.
  - intros x y _ Hy. by apply elem_of_nil in Hy.
Qed.

End SortByAge.

Section EvictDuplicates.

Import eviction strategies.
Local Open Scope evict_scope.

#[local] Opaque fmt.Sprintf.

Lemma evictDuplicatesFrom_drop nodeName sortedPods rounds :
  forall i c w,
    (rounds = length sortedPods - i)%nat ->
    evictDuplicatesFrom rounds i nodeName sortedPods c w
    = evictEach nodeName (drop i sortedPods) c w.
Proof.
  induction rounds as [|rounds IH]; intros i c w Hrounds.
  { rewrite drop_ge by lia. reflexivity. }
  cbn [evictDuplicatesFrom].
  destruct (lookup_lt_is_Some_2 sortedPods i ltac:(lia)) as [pod Hpod].
  rewrite Hpod, (drop_S _ _ _ Hpod). cbn [evictEach]. unfold bind.
  destruct (evictDuplicate nodeName pod c w) as [c' w'].
  apply IH. lia.
Qed.

Lemma EvictPod_evictions pod reason w :
  exists new,
    apiEvictions (trace (snd (EvictPod pod reason w)))
    = apiEvictions (trace w) ++ new
    /\ forall ev, ev ∈ new -> evictionFor pod ev.
Proof.
  destruct (EvictPod_outcomes pod reason w); cbn [snd trace].
  - exists []. rewrite app_nil_r. split; [done|]. by intros ev ?%elem_of_nil.
  - exists []. rewrite apiEvictions_app. split; [done|].
    by intros ev ?%elem_of_nil.
  - exists [evictionOf (evictor w) pod]. rewrite apiEvictions_app.
    split; [done|]. by intros ev ->%list_elem_of_singleton.
  - exists [evictionOf (evictor w) pod]. rewrite apiEvictions_app.
    split; [done|]. by intros ev ->%list_elem_of_singleton.
Qed.

Lemma evictDuplicate_evictions nodeName pod c w :
  exists new,
    apiEvictions (trace (snd (evictDuplicate nodeName pod c w)))
    = apiEvictions (trace w) ++ new
    /\ forall ev, ev ∈ new -> evictionFor pod ev.
Proof.
  unfold evictDuplicate, canEvictPod. unfold bind at 1. cbn [get_evictor].
  destruct (CanEvictPod (evictor w) pod) as [[|] why]; cbn [negb].
  - unfold bind at 1.
    destruct (EvictPod_evictions pod
                (fmt.Sprintf
                   "Duplicate pod removal - keeping oldest pod on node %s"
                   [fmt.AStr nodeName]) w) as (new & Hnew & Hfor).
    destruct (EvictPod pod _ w) as [[err|] w1]; cbn [snd] in Hnew;
      exists new; (split; [|exact Hfor]);
      unfold bind, Errorf, VInfof, emit, ret; cbn [snd trace];
      rewrite apiEvictions_app, Hnew; cbn; by rewrite app_nil_r.
  - exists []. unfold bind, VInfof, emit, ret. cbn [snd trace].
    rewrite apiEvictions_app. split; [done|]. by intros ev ?%elem_of_nil.
Qed.

Lemma evictEach_evictions nodeName pods : forall c w,
  exists new,
    apiEvictions (trace (snd (evictEach nodeName pods c w)))
    = apiEvictions (trace w) ++ new
    /\ forall ev, ev ∈ new -> exists pod, pod ∈ pods /\ evictionFor pod ev.
Proof.
  induction pods as [|pod pods IH]; intros c w.
  { exists []. cbn. rewrite app_nil_r. split; [done|].
    by intros ev ?%elem_of_nil. }
  cbn [evictEach]. unfold bind.
  destruct (evictDuplicate_evictions nodeName pod c w)
    as (new1 & Hnew1 & Hfor1).
  destruct (evictDuplicate nodeName pod c w) as [c1 w1]. cbn [snd] in Hnew1.
  destruct (IH c1 w1) as (new2 & Hnew2 & Hfor2).
  exists (new1 ++ new2). rewrite Hnew2, Hnew1, app_assoc.
  split; [done|]. intros ev [Hev|Hev]%elem_of_app.
  - exists pod. split; [by left|by apply Hfor1].
  - destruct (Hfor2 ev Hev) as (pod' & Hin & Hfor).
    exists pod'. split; [by right|done].
Qed.

Lemma processDuplicateNode_tail nodePodsMap nodeName pods c w :
  nodePodsMap !! nodeName = Some pods ->
  (1 < length pods)%nat ->
  processDuplicateNode nodePodsMap nodeName c w
  = evictEach nodeName (tail (sortPodsByAge pods)) c w.
Proof.
  intros Hlook Hlen. unfold processDuplicateNode. rewrite Hlook.
  change (default [] (Some pods)) with pods. unfold strategies.len.
  destruct (Z.leb_spec (Z.of_nat (length pods)) 1); [lia|].
  cbv zeta. rewrite evictDuplicatesFrom_drop by lia.
  by destruct (sortPodsByAge pods).
Qed.

(** One round of the duplicate loop: CanEvictPod first, and EvictPod
    only when it says yes. *)
Lemma evictDuplicate_gatekeeper nodeName pod c w :
  evictDuplicate nodeName pod c w
  = if fst (CanEvictPod (evictor w) pod) then
      match fst (EvictPod pod (duplicateReason nodeName) w) with
      | Some err =>
          (c, logged (snd (EvictPod pod (duplicateReason nodeName) w))
                     (dupFailedLine pod err))
      | None =>
          (afterDupEviction c,
           logged (snd (EvictPod pod (duplicateReason nodeName) w))
                  (dupEvictedLine pod nodeName))
      end
    else
      (afterDupSkip c,
       logged w (dupSkippingLine pod (snd (CanEvictPod (evictor w) pod)))).
Proof.
  unfold evictDuplicate, canEvictPod. unfold bind at 1. cbn [get_evictor].
  destruct (CanEvictPod (evictor w) pod) as [[|] why]; cbn [negb fst snd].
  - unfold bind at 1. fold (duplicateReason nodeName).
    destruct (EvictPod pod (duplicateReason nodeName) w) as [[err|] w1];
      unfold bind, Errorf, VInfof, emit, ret; reflexivity.
  - unfold bind, VInfof, emit, ret. reflexivity.
Qed.

(** A group on fewer than two nodes: one line, and on to the next. *)
Lemma processGroup_one_node rangeNodes1 rangeNodes2 signature nodePodsMap
    c w :
  (size nodePodsMap < 2)%nat ->
  processGroup rangeNodes1 rangeNodes2 signature nodePodsMap c w
  = (c, logged w (groupLine signature)).
Proof.
  intros Hsize. unfold processGroup.
  rewrite findDuplicateNodes_one_node by done.
  unfold bind, VInfof, emit, ret. reflexivity.
Qed.

Lemma processGroups_one_node rangeNodes1 rangeNodes2 groups : forall c w,
  Forall on_one_node groups ->
  processGroups rangeNodes1 rangeNodes2 groups c w
  = (c, extended w (map (fun group => groupLine (fst group)) groups)).
Proof.
  induction groups as [|[signature nodePodsMap] groups IH]; intros c w Hall.
  { cbn. unfold ret, extended. rewrite app_nil_r. by destruct w. }
  apply Forall_cons in Hall as [Hone Hall].
  cbn [processGroups]. unfold bind.
  rewrite processGroup_one_node by exact Hone.
  rewrite IH by done. unfold extended, logged. cbn [evictor trace map fst].
  by rewrite <- app_assoc.
Qed.

(** A group on two nodes or more with a node that carries several
    pods: the duplicate nodes are processed one after the other. *)
Lemma processGroup_several_nodes rangeNodes1 rangeNodes2 signature
    nodePodsMap c w nodeName pods :
  (2 <= size nodePodsMap)%nat ->
  rangeNodes1 nodePodsMap ≡ₚ map_to_list nodePodsMap ->
  nodePodsMap !! nodeName = Some pods ->
  (1 < length pods)%nat ->
  processGroup rangeNodes1 rangeNodes2 signature nodePodsMap c w
  = processDuplicateNodes nodePodsMap
      (findDuplicateNodes nodePodsMap (rangeNodes1 nodePodsMap)
                          (rangeNodes2 nodePodsMap))
      c
      (extended w
         [groupLine signature;
          duplicatesLine signature
            (findDuplicateNodes nodePodsMap (rangeNodes1 nodePodsMap)
                                (rangeNodes2 nodePodsMap))]).
Proof.
  intros Hsize Hperm Hlook Hlen.
  destruct (findDuplicateNodes_several_nodes nodePodsMap
              (rangeNodes1 nodePodsMap) (rangeNodes2 nodePodsMap)
              nodeName pods Hsize Hperm Hlook Hlen) as [Hin _].
  unfold processGroup. unfold bind at 1. unfold VInfof at 1, emit at 1.
  cbv zeta.
  destruct (findDuplicateNodes nodePodsMap (rangeNodes1 nodePodsMap)
              (rangeNodes2 nodePodsMap)) as [|n dups] eqn:Hdups.
  { by apply elem_of_nil in Hin. }
  destruct (Z.eqb_spec (strategies.len (n :: dups)) 0) as [Hzero|_].
  { unfold strategies.len in Hzero. cbn [length] in Hzero. lia. }
  unfold bind at 1. unfold VInfof at 1, emit at 1.
  unfold extended, groupLine, duplicatesLine. cbn [evictor trace].
  by rewrite <- app_assoc.
Qed.

(** Execute when no group lives on two nodes: the groups are logged and
    nothing is asked of the evictor. *)
Lemma Execute_one_node_groups client cfg rangeGroups rangeNodes1 rangeNodes2
    nodes w podGroups w1 :
  groupPodsBySignature client cfg nodes (logged w executingLine)
  = (inl podGroups, w1) ->
  Forall on_one_node (rangeGroups podGroups) ->
  Execute client cfg rangeGroups rangeNodes1 rangeNodes2 nodes w
  = (None,
     extended w1
       ([signaturesLine podGroups]
        ++ map (fun group => groupLine (fst group)) (rangeGroups podGroups)
        ++ [completedLine {| dup_evictedCount := 0;
                             dup_skippedCount := 0 |}])).
Proof.
  intros Hgroup Hall. unfold Execute.
  unfold bind at 1. unfold Infof at 1, emit at 1.
  fold executingLine. fold (logged w executingLine).
  unfold bind at 1. rewrite Hgroup.
  unfold bind at 1. unfold VInfof at 1, emit at 1.
  unfold bind at 1. rewrite processGroups_one_node by done.
  unfold bind, Infof, emit, ret, extended, signaturesLine, completedLine.
  cbn [evictor trace]. by rewrite <- !app_assoc.
Qed.

(** Execute: the groups, in the order of the range, between the line
    on the signatures and the line on the totals. *)
Lemma Execute_groups client cfg rangeGroups rangeNodes1 rangeNodes2
    nodes w podGroups w1 :
  groupPodsBySignature client cfg nodes (logged w executingLine)
  = (inl podGroups, w1) ->
  Execute client cfg rangeGroups rangeNodes1 rangeNodes2 nodes w
  = (let (c, w2) :=
       processGroups rangeNodes1 rangeNodes2 (rangeGroups podGroups)
         {| dup_evictedCount := 0; dup_skippedCount := 0 |}
         (logged w1 (signaturesLine podGroups)) in
     (None, logged w2 (completedLine c))).
Proof.
  intros Hgroup. unfold Execute.
  unfold bind at 1. unfold Infof at 1, emit at 1.
  fold executingLine. fold (logged w executingLine).
  unfold bind at 1. rewrite Hgroup.
  unfold bind at 1. unfold VInfof at 1, emit at 1.
  fold (signaturesLine podGroups).
  fold (logged w1 (signaturesLine podGroups)).
  unfold bind at 1.
  by destruct (processGroups rangeNodes1 rangeNodes2 (rangeGroups podGroups)
                 _ (logged w1 (signaturesLine podGroups))).
Qed.

(** C6 as amended. A signature group on fewer than two nodes is skipped,
    however many pods its node carries: it has no duplicate node, the
    strategy logs its signature and goes on, and a run in which every
    group lives on fewer than two nodes asks nothing of the evictor. A
    run takes the groups one after the other, each through
    processGroup. In
    a group on two nodes or more every node with more than one pod is a
    duplicate node, and the duplicate nodes are processed in turn. On a
    duplicate node with more than one pod the pods are sorted by
    ascending creation time, the first, an oldest one, is kept, and each
    of the others in turn goes through the evictor: CanEvictPod, then
    EvictPod if it says yes. No eviction is requested for any other
    pod. *)
Theorem duplicates_need_two_nodes
    (client : Client) (cfg : config.RemoveDuplicatesConfig)
    (rangeGroups :
       gmap string (gmap string (list Pod.t))
       -> list (string * gmap string (list Pod.t)))
    (rangeNodes1 rangeNodes2 :
       gmap string (list Pod.t) -> list (string * list Pod.t))
    (nodePodsMap : gmap string (list Pod.t))
    (range1 range2 : list (string * list Pod.t)) :
  ((size nodePodsMap < 2)%nat ->
   findDuplicateNodes nodePodsMap range1 range2 = [])
  /\ ((size nodePodsMap < 2)%nat ->
      forall signature c w,
        processGroup rangeNodes1 rangeNodes2 signature nodePodsMap c w
        = (c, logged w (groupLine signature)))
  /\ (forall nodes w podGroups w1,
        groupPodsBySignature client cfg nodes (logged w executingLine)
        = (inl podGroups, w1) ->
        Forall on_one_node (rangeGroups podGroups) ->
        Execute client cfg rangeGroups rangeNodes1 rangeNodes2 nodes w
        = (None,
           extended w1
             ([signaturesLine podGroups]
              ++ map (fun group => groupLine (fst group))
                     (rangeGroups podGroups)
              ++ [completedLine {| dup_evictedCount := 0;
                                   dup_skippedCount := 0 |}])))
  /\ ((2 <= size nodePodsMap)%nat ->
      range1 ≡ₚ map_to_list nodePodsMap ->
      forall nodeName pods,
        nodePodsMap !! nodeName = Some pods ->
        (1 < length pods)%nat ->
        nodeName ∈ findDuplicateNodes nodePodsMap range1 range2)
  /\ ((2 <= size nodePodsMap)%nat ->
      rangeNodes1 nodePodsMap ≡ₚ map_to_list nodePodsMap ->
      forall nodeName pods,
        nodePodsMap !! nodeName = Some pods ->
        (1 < length pods)%nat ->
        forall signature c w,
          processGroup rangeNodes1 rangeNodes2 signature nodePodsMap c w
          = processDuplicateNodes nodePodsMap
              (findDuplicateNodes nodePodsMap (rangeNodes1 nodePodsMap)
                                  (rangeNodes2 nodePodsMap))
              c
              (extended w
                 [groupLine signature;
                  duplicatesLine signature
                    (findDuplicateNodes nodePodsMap
                       (rangeNodes1 nodePodsMap)
                       (rangeNodes2 nodePodsMap))]))
  /\ (forall nodeName duplicateNodes c w,
        processDuplicateNodes nodePodsMap [] c w = (c, w)
        /\ processDuplicateNodes nodePodsMap (nodeName :: duplicateNodes) c w
           = (let (c', w') :=
                processDuplicateNode nodePodsMap nodeName c w in
              processDuplicateNodes nodePodsMap duplicateNodes c' w'))
  /\ (forall nodeName pods,
        nodePodsMap !! nodeName = Some pods ->
        (1 < length pods)%nat ->
        exists oldest others,
          sortPodsByAge pods = oldest :: others
          /\ oldest :: others ≡ₚ pods
          /\ StronglySorted older_eq (oldest :: others)
          /\ (forall pod, pod ∈ pods -> older_eq oldest pod)
          /\ forall c w,
               processDuplicateNode nodePodsMap nodeName c w
               = evictEach nodeName others c w
               /\ exists new,
                    apiEvictions
                      (trace (snd (processDuplicateNode
                                     nodePodsMap nodeName c w)))
                    = apiEvictions (trace w) ++ new
                    /\ forall ev, ev ∈ new ->
                         exists pod, pod ∈ others /\ evictionFor pod ev)
  /\ (forall nodeName pod c w,
        evictDuplicate nodeName pod c w
        = if fst (CanEvictPod (evictor w) pod) then
            match fst (EvictPod pod (duplicateReason nodeName) w) with
            | Some err =>
                (c, logged (snd (EvictPod pod (duplicateReason nodeName) w))
                           (dupFailedLine pod err))
            | None =>
                (afterDupEviction c,
                 logged (snd (EvictPod pod (duplicateReason nodeName) w))
                        (dupEvictedLine pod nodeName))
            end
          else
            (afterDupSkip c,
             logged w (dupSkippingLine pod
                         (snd (CanEvictPod (evictor w) pod)))))
  /\ (forall nodes w podGroups w1,
        groupPodsBySignature client cfg nodes (logged w executingLine)
        = (inl podGroups, w1) ->
        Execute client cfg rangeGroups rangeNodes1 rangeNodes2 nodes w
        = (let (c, w2) :=
             processGroups rangeNodes1 rangeNodes2 (rangeGroups podGroups)
               {| dup_evictedCount := 0; dup_skippedCount := 0 |}
               (logged w1 (signaturesLine podGroups)) in
           (None, logged w2 (completedLine c))))
  /\ (forall signature rest c w,
        processGroups rangeNodes1 rangeNodes2 [] c w = (c, w)
        /\ processGroups rangeNodes1 rangeNodes2
             ((signature, nodePodsMap) :: rest) c w
           = (let (c', w') :=
                processGroup rangeNodes1 rangeNodes2 signature nodePodsMap
                  c w in
              processGroups rangeNodes1 rangeNodes2 rest c' w')).
Proof.
  split; [apply findDuplicateNodes_one_node|]. split.
  { intros Hsize signature c w. by apply processGroup_one_node. }
  split.
  { intros nodes w podGroups w1 Hgroup Hall.
    by apply Execute_one_node_groups. }
  split.
  { intros Hsize Hperm nodeName pods Hlook Hlen.
    by apply (findDuplicateNodes_several_nodes _ _ _ _ pods). }
  split.
  { intros Hsize Hperm nodeName pods Hlook Hlen signature c w.
    by apply (processGroup_several_nodes _ _ _ _ _ _ nodeName pods). }
  split.
  { intros nodeName duplicateNodes c w. split; [reflexivity|].
    cbn [processDuplicateNodes]. unfold bind.
    by destruct (processDuplicateNode nodePodsMap nodeName c w). }
  split; [|split_and!;
           [intros nodeName pod c w; apply evictDuplicate_gatekeeper
           |intros nodes w podGroups w1 Hgroup; by apply Execute_groups
           |intros signature rest c w; split; reflexivity]].
  intros nodeName pods Hlook Hlen.
  destruct (sortPodsByAge_sorted pods) as [Hsorted Hperm].
  destruct (sortPodsByAge pods) as [|oldest others] eqn:Hsort.
  { apply Permutation_length in Hperm. cbn in Hperm. lia. }
  exists oldest, others. split; [done|]. split; [done|].
  split; [done|]. split.
  - intros pod Hpod. rewrite <- Hperm in Hpod.
    apply elem_of_cons in Hpod as [->|Hpod]; [unfold older_eq; lia|].
    apply StronglySorted_inv in Hsorted as [_ Hall].
    by apply (proj1 (Forall_forall _ _) Hall).
  - intros c w.
    rewrite (processDuplicateNode_tail _ _ pods) by done.
    rewrite Hsort. cbn [tail]. split; [done|].
    apply evictEach_evictions.
Qed.

#[local] Transparent fmt.Sprintf.

End EvictDuplicates.

(** ** C9 and C7: the scheduler *)

Section Cycle.

Import eviction scheduler.
Local Open Scope evict_scope.

#[local] Opaque fmt.Sprintf.

Variable s_client : Client.
Variable s_config : config.Config.
Variable DurationString : Z -> string.
Variable Since : list Event -> Z.
Variable rangeStats : gmap string Z -> list (string * Z).

Lemma availableNodes_spec items : forall acc w,
  availableNodes items acc w
  = (acc ++ utils.FilterReadySchedulableNodes items,
     extended w (map availabilityLine items)).
Proof.
  induction items as [|node items IH]; intros acc w.
  { cbn. unfold ret, extended. rewrite !app_nil_r. by destruct w. }
  cbn [availableNodes map]. unfold utils.FilterReadySchedulableNodes.
  rewrite filter_cons. unfold availabilityLine at 1.
  destruct (utils.IsReadyNode node && utils.IsSchedulableNode node) eqn:Hok.
  - rewrite decide_True by done.
    unfold bind, VInfof, emit. rewrite IH.
    unfold extended. cbn [evictor trace].
    by rewrite <- !app_assoc.
  - rewrite decide_False by done.
    unfold bind, VInfof, emit. rewrite IH.
    unfold extended. cbn [evictor trace].
    by rewrite <- !app_assoc.
Qed.

Lemma runOnce_skipped strategies w items :
  ListNodes s_client
    (trace w ++ [Log Info 0 "=== Starting descheduling cycle ==="])
  = inl items ->
  (length (utils.FilterReadySchedulableNodes items) < 2)%nat ->
  runOnce s_client s_config strategies DurationString Since rangeStats w
  = (None,
     {| evictor := with_stats (evictor w) zeroStats;
        trace := trace w ++ skippedCycle items |}).
Proof.
  intros Hlist Hfew. unfold runOnce.
  unfold bind at 1. unfold Infof at 1, emit at 1.
  change (fmt.Sprintf "=== Starting descheduling cycle ===" [])
    with "=== Starting descheduling cycle ===".
  unfold bind at 1. unfold ResetStats, modify_stats. cbn [evictor trace].
  unfold bind at 1. unfold getAvailableNodes.
  unfold bind at 1. cbn [get_trace trace].
  unfold bind at 1. unfold emit at 1. cbn [evictor trace].
  rewrite Hlist. unfold bind at 1. rewrite availableNodes_spec.
  cbn [app ret]. unfold ret at 1.
  unfold bind at 1. unfold Infof at 1, emit at 1.
  destruct (Z.ltb_spec (len (utils.FilterReadySchedulableNodes items)) 2)
    as [_|Hge]; [|unfold len in Hge; lia].
  unfold bind, Infof, emit, ret, extended, skippedCycle.
  cbn [evictor trace]. f_equal. f_equal.
  rewrite <- !app_assoc. reflexivity.
Qed.

(** C9 as amended. When fewer than two of the listed nodes are ready and
    schedulable, the cycle runs no strategy, whatever the strategies are,
    logs that it is skipped and returns without error and without the
    summary: after the reset, which leaves the statistics at zero, it
    adds the events of [skippedCycle] and no other, and the line that
    opens the summary is not among them. *)
Theorem short_cycle_skips_summary
    (strategies : list Strategy) (w : World) (items : list Node.t) :
  ListNodes s_client
    (trace w ++ [Log Info 0 "=== Starting descheduling cycle ==="])
  = inl items ->
  (length (utils.FilterReadySchedulableNodes items) < 2)%nat ->
  runOnce s_client s_config strategies DurationString Since rangeStats w
  = (None,
     {| evictor := with_stats (evictor w) zeroStats;
        trace := trace w ++ skippedCycle items |})
  /\ (forall strategies' : list Strategy,
        runOnce s_client s_config strategies' DurationString Since
                rangeStats w
        = runOnce s_client s_config strategies DurationString Since
                  rangeStats w)
  /\ Log Info 0 "=== Cycle Statistics ===" ∉ skippedCycle items.
Proof.
  intros Hlist Hfew. split; [by apply runOnce_skipped|]. split.
  { intros strategies'. by rewrite !(runOnce_skipped _ _ items). }
  unfold skippedCycle. rewrite !elem_of_app, !elem_of_cons, elem_of_nil.
  intros [[H|[H|[]]]|[H|[H|[H|[]]]]];
    try (rewrite Sprintf_head in H by reflexivity); try discriminate H.
  apply list_elem_of_fmap in H as (node & H & _).
  unfold availabilityLine in H.
  destruct (utils.IsReadyNode node && utils.IsSchedulableNode node);
    discriminate H.
Qed.

Lemma Run_startup strategies signals w :
  Run s_client s_config strategies DurationString Since rangeStats signals w
  = (if config.Interval s_config =? 0 then
       do err <- runOnce s_client s_config strategies DurationString Since
                   rangeStats;
       ret (Returned err)
     else if config.Interval s_config <? 0 then
       ret (Panicked "non-positive interval for NewTicker")
     else
       do err <- runOnce s_client s_config strategies DurationString Since
                   rangeStats;
       (match err with
        | Some err => Errorf "Initial run failed: %v" [fmt.AStr err]
        | None => ret tt
        end);;
       runLoop s_client s_config strategies DurationString Since rangeStats
               signals)
      (extended w (startupLines s_config DurationString)).
Proof.
  unfold Run, startupLines.
  unfold bind at 1. unfold Infof at 1, emit at 1.
  unfold bind at 1. unfold Infof at 1, emit at 1. cbn [evictor trace].
  unfold bind at 1.
  change (fmt.Sprintf "Starting lightweight descheduler" [])
    with "Starting lightweight descheduler".
  destruct (config.DryRun s_config).
  - unfold Infof at 1, emit at 1. cbn [evictor trace].
    change (fmt.Sprintf
              "Running in DRY RUN mode - no pods will actually be evicted"
              [])
      with "Running in DRY RUN mode - no pods will actually be evicted".
    unfold extended. by rewrite <- !app_assoc.
  - unfold ret at 1. unfold extended. cbn [app].
    rewrite <- !app_assoc. by destruct w.
Qed.

Lemma setDefaults_Interval parsed :
  config.Interval parsed <> 0 ->
  config.Interval (config.setDefaults parsed) = config.Interval parsed.
Proof.
  intros Hne. unfold config.setDefaults.
  destruct (Z.eqb_spec (config.Interval parsed) 0); [done|].
  cbv zeta.
  repeat match goal with
         | |- context [if ?b then _ else _] => destruct b
         end; reflexivity.
Qed.

Lemma validateConfig_interval c :
  config.validateConfig c = Some "interval must be at least 1 minute"
  <-> config.Interval c < config.Minute.
Proof.
  unfold config.validateConfig.
  destruct (Z.ltb_spec (config.Interval c) config.Minute) as [Hlt|Hge].
  { split; [done|]. intros _. reflexivity. }
  split; [|lia]. intros H. exfalso. revert H.
  repeat match goal with
         | |- context [if ?b then _ else _] => destruct b
         | |- context [match ?o with Some _ => _ | None => _ end] =>
             destruct o
         end;
    try discriminate;
    rewrite !Sprintf_head by reflexivity; discriminate.
Qed.

(** C7 as amended. With an interval of 0 Run logs its start, executes
    one cycle and returns what the cycle returns, whatever signals
    arrive. Of the intervals other than 0, configuration loading rejects
    those below one minute, the negative ones included, and no other on
    account of the interval. *)
Theorem one_shot_and_interval_validation :
  (config.Interval s_config = 0 ->
   forall strategies signals w,
     Run s_client s_config strategies DurationString Since rangeStats
         signals w
     = (let (err, w') :=
          runOnce s_client s_config strategies DurationString Since
                  rangeStats
                  (extended w (startupLines s_config DurationString)) in
        (Returned err, w')))
  /\ forall parsed : config.Config,
       config.Interval parsed <> 0 ->
       (config.Interval parsed < config.Minute ->
        config.LoadConfig parsed
        = inr "invalid config: interval must be at least 1 minute")
       /\ (config.Minute <= config.Interval parsed ->
           config.validateConfig (config.setDefaults parsed)
           <> Some "interval must be at least 1 minute").
Proof.
  split.
  - intros Hzero strategies signals w. rewrite Run_startup, Hzero.
    reflexivity.
  - intros parsed Hne. split.
    + intros Hlt. unfold config.LoadConfig.
      assert (Hv : config.validateConfig (config.setDefaults parsed)
                   = Some "interval must be at least 1 minute").
      { apply validateConfig_interval.
        by rewrite setDefaults_Interval. }
      rewrite Hv. reflexivity.
    + intros Hge Hv. apply validateConfig_interval in Hv.
      rewrite setDefaults_Interval in Hv by done. lia.
Qed.

#[local] Transparent fmt.Sprintf.

End Cycle.


(** ** More on the evictor *)

Section EvictorMore.

Import eviction cycle.
Local Open Scope evict_scope.

Lemma failed_to_evict_message (prefix : Ascii.ascii) namespace name err :
  Ascii.eqb prefix "%" = false ->
  fmt.Sprintf (String prefix "ailed to evict pod %s/%s: %v")
    [fmt.AStr namespace; fmt.AStr name; fmt.AStr err]
  = String prefix "ailed to evict pod " +:+ namespace +:+ "/" +:+ name
    +:+ ": " +:+ err.
Proof.
  intros Hp. rewrite Sprintf_head by done. cbn. by rewrite append_nil_r.
Qed.

#[local] Opaque fmt.Sprintf.

Lemma copyMap_id m : copyMap m = m.
Proof.
  unfold copyMap.
  apply (map_fold_weak_ind (fun r m => r = m)); [done|].
  by intros k v m' r _ ->.
Qed.

(** X1. GetEvictionStats returns the statistics of the evictor: the
    entry-by-entry copy of each map is equal to the map. *)
Theorem GetEvictionStats_is_a_copy (e : DefaultPodEvictor) :
  GetEvictionStats e = stats e.
Proof.
  unfold GetEvictionStats. rewrite !copyMap_id. by destruct (stats e).
Qed.

(** X2. Right after ResetStats the quota check accepts every pod,
    whatever the limits are. *)
Theorem reset_reopens_every_quota (w : World) (pod : Pod.t) :
  checkEvictionLimits (evictor (snd (ResetStats w))) pod = None.
Proof.
  pose proof (checkEvictionLimits_verdict (evictor (snd (ResetStats w))) pod)
    as Hv.
  destruct (checkEvictionLimits (evictor (snd (ResetStats w))) pod)
    as [err|]; [exfalso|done].
  inversion Hv as [Ht|_ Hn|_ _ Hs|].
  - unfold total_limit_reached in Ht. cbn in Ht. lia.
  - unfold node_limit_reached in Hn. cbn in Hn.
    rewrite at_key_empty in Hn. lia.
  - unfold namespace_limit_reached in Hs. cbn in Hs.
    rewrite at_key_empty in Hs. lia.
Qed.

(** What one accepted eviction does to the statistics. *)
Lemma EvictPod_accepted pod reason w :
  always_accepted (evictor w) ->
  checkEvictionLimits (evictor w) pod = None ->
  fst (EvictPod pod reason w) = None
  /\ evictor (snd (EvictPod pod reason w))
     = with_stats (evictor w)
         (updateStats pod reason true (stats (evictor w))).
Proof.
  intros Hacc Hcheck.
  destruct (EvictPod_outcomes pod reason w) as [err Herr| | |];
    cbn [fst snd]; try done; try congruence.
  destruct Hacc as [Hdry|Hapi]; congruence.
Qed.

Lemma always_accepted_with_stats e s :
  always_accepted (with_stats e s) <-> always_accepted e.
Proof. done. Qed.

Lemma total_after_evictions calls : forall w,
  let maxTotal :=
    config.MaxPodsToEvictTotal (config.Limits (config (evictor w))) in
  0 < maxTotal <= GoInt.maxInt ->
  config.MaxPodsToEvictPerNode (config.Limits (config (evictor w))) <= 0 ->
  config.MaxPodsToEvictPerNamespace (config.Limits (config (evictor w)))
  <= 0 ->
  always_accepted (evictor w) ->
  0 <= TotalEvicted (stats (evictor w)) <= maxTotal ->
  TotalEvicted (stats (evictor (snd (runOps (evictions calls) w))))
  = Z.min (TotalEvicted (stats (evictor w)) + Z.of_nat (length calls))
          maxTotal.
Proof.
  induction calls as [|[pod reason] calls IH];
    intros w maxTotal Hmax Hnode Hns Hacc Ht.
  { cbn. lia. }
  cbn [evictions map runOps runOp]. unfold bind at 1 2, ret at 1.
  fold (evictions calls).
  pose proof (checkEvictionLimits_verdict (evictor w) pod) as Hv.
  destruct (checkEvictionLimits (evictor w) pod) as [err|] eqn:Hcheck.
  - rewrite (EvictPod_rejected _ _ _ _ Hcheck).
    inversion Hv as [Hfull|_ Hn|_ _ Hs|].
    + unfold total_limit_reached in Hfull. fold maxTotal in Hfull.
      rewrite IH by done. fold maxTotal. cbn [length]. lia.
    + unfold node_limit_reached in Hn. lia.
    + unfold namespace_limit_reached in Hs. lia.
  - inversion Hv as [| | |Hroom _ _].
    unfold total_limit_reached in Hroom. fold maxTotal in Hroom.
    destruct (EvictPod_accepted pod reason w Hacc Hcheck) as [_ Hev].
    destruct (EvictPod pod reason w) as [r w1]. cbn [snd] in Hev.
    assert (Hadd : GoInt.add (TotalEvicted (stats (evictor w))) 1
                   = TotalEvicted (stats (evictor w)) + 1).
    { apply wrap_id.
      unfold GoInt.in_range, GoInt.minInt, GoInt.maxInt in *. lia. }
    specialize (IH w1). rewrite Hev in IH. cbn in IH.
    rewrite Hadd in IH. rewrite IH; try done; try lia.
    fold maxTotal. cbn [length]. lia.
Qed.

(** X3. With a positive total limit and the two other limits switched
    off, a cycle in which every attempted eviction goes through evicts
    the first [maxTotal] of the pods it is asked to evict and no more:
    after the reset and [n] calls the total is [min n maxTotal]. *)
Theorem total_limit_is_reached_exactly
    (w : World) (calls : list (Pod.t * string)) :
  let maxTotal :=
    config.MaxPodsToEvictTotal (config.Limits (config (evictor w))) in
  0 < maxTotal <= GoInt.maxInt ->
  config.MaxPodsToEvictPerNode (config.Limits (config (evictor w))) <= 0 ->
  config.MaxPodsToEvictPerNamespace (config.Limits (config (evictor w)))
  <= 0 ->
  always_accepted (evictor w) ->
  TotalEvicted
    (stats (evictor (snd (runOps (OpReset :: evictions calls) w))))
  = Z.min (Z.of_nat (length calls)) maxTotal.
Proof.
  intros maxTotal Hmax Hnode Hns Hacc.
  cbn [runOps runOp]. unfold bind at 1, ResetStats, modify_stats.
  rewrite total_after_evictions; cbn; try done; lia.
Qed.

(** X4. An eviction that the API refuses is counted as failed and as
    nothing else: EvictPod returns the API's error behind the prefix
    [failed to evict pod <ns>/<name>: ], adds one to FailedEvictions and
    leaves the total and the three maps as they were, so that the quota
    check gives every pod the same verdict as before. *)
Theorem refused_eviction_uses_no_quota
    (pod : Pod.t) (reason apiErr : string) (w : World) :
  config.DryRun (config (evictor w)) = false ->
  checkEvictionLimits (evictor w) pod = None ->
  Evict (client (evictor w)) (trace w) (evictionOf (evictor w) pod)
  = Some apiErr ->
  let s := stats (evictor w) in
  EvictPod pod reason w
  = (Some ("failed to evict pod " +:+ Pod.Namespace pod +:+ "/"
           +:+ Pod.Name pod +:+ ": " +:+ apiErr),
     {| evictor :=
          with_stats (evictor w)
            {| TotalEvicted := TotalEvicted s;
               EvictedByNode := EvictedByNode s;
               EvictedByNamespace := EvictedByNamespace s;
               EvictedByReason := EvictedByReason s;
               FailedEvictions := GoInt.add (FailedEvictions s) 1 |};
        trace := trace w
                 ++ [ApiEvict (evictionOf (evictor w) pod);
                     Log Error 0
                       ("Failed to evict pod " +:+ Pod.Namespace pod
                        +:+ "/" +:+ Pod.Name pod +:+ ": " +:+ apiErr)] |})
  /\ forall pod' : Pod.t,
       checkEvictionLimits (evictor (snd (EvictPod pod reason w))) pod'
       = checkEvictionLimits (evictor w) pod'.
Proof.
  intros Hreal Hcheck Hapi s.
  assert (Hrun : EvictPod pod reason w
                 = (Some ("failed to evict pod " +:+ Pod.Namespace pod
                          +:+ "/" +:+ Pod.Name pod +:+ ": " +:+ apiErr),
                    {| evictor := with_stats (evictor w) (failedEviction s);
                       trace := trace w
                         ++ [ApiEvict (evictionOf (evictor w) pod);
                             Log Error 0
                               ("Failed to evict pod "
                                +:+ Pod.Namespace pod +:+ "/"
                                +:+ Pod.Name pod +:+ ": " +:+ apiErr)] |})).
  { unfold EvictPod, bind, get_evictor. rewrite Hcheck, Hreal.
    unfold callEvict, bind, get_evictor, get_trace, emit, ret.
    cbn [evictor trace]. fold (evictionOf (evictor w) pod). rewrite Hapi.
    unfold modify_stats, Errorf, emit. cbn [evictor trace fst snd].
    rewrite (failed_to_evict_message "f"), (failed_to_evict_message "F")
      by reflexivity.
    rewrite <- app_assoc. reflexivity. }
  split; [exact Hrun|].
  intros pod'. rewrite Hrun. reflexivity.
Qed.

(** X5. In dry-run mode no sequence of Evict and Reset operations ever
    sends a request to the eviction API. *)
Theorem dry_run_never_calls_the_api (ops : list Op) (w : World) :
  config.DryRun (config (evictor w)) = true ->
  apiEvictions (trace (snd (runOps ops w))) = apiEvictions (trace w).
Proof.
  revert w. induction ops as [|op ops IH]; intros w Hdry; [done|].
  cbn [runOps]. unfold bind at 1.
  destruct (runOp op w) as [u w1] eqn:Hop.
  assert (Hw1 : config (evictor w1) = config (evictor w)
                /\ apiEvictions (trace w1) = apiEvictions (trace w)).
  { destruct op as [pod reason|]; cbn in Hop.
    - unfold bind, ret in Hop.
      destruct (EvictPod_outcomes pod reason w); inversion Hop; subst;
        cbn [evictor trace with_stats config]; try done; try congruence.
      rewrite apiEvictions_app. cbn. by rewrite app_nil_r.
    - unfold ResetStats, modify_stats in Hop. by inversion Hop; subst. }
  destruct Hw1 as [Hcfg Htr]. rewrite IH by congruence. exact Htr.
Qed.

(** The requests of a trace are well formed for an evictor when each is a
    policy/v1 Eviction with the evictor's grace period. *)
Lemma requests_runOps (ops : list Op) : forall w,
  exists new,
    apiEvictions (trace (snd (runOps ops w)))
    = apiEvictions (trace w) ++ new
    /\ gracePeriod (evictor (snd (runOps ops w))) = gracePeriod (evictor w)
    /\ forall ev, ev ∈ new ->
         Eviction.APIVersion ev = "policy/v1"
         /\ Eviction.Kind ev = "Eviction"
         /\ Eviction.GracePeriodSeconds ev = gracePeriod (evictor w).
Proof.
  induction ops as [|op ops IH]; intros w.
  { exists []. cbn. rewrite app_nil_r. split; [done|]. split; [done|].
    by intros ev ?%elem_of_nil. }
  cbn [runOps]. unfold bind at 1 2.
  destruct (runOp op w) as [u w1] eqn:Hop.
  assert (Hw1 : exists new1,
             apiEvictions (trace w1) = apiEvictions (trace w) ++ new1
             /\ gracePeriod (evictor w1) = gracePeriod (evictor w)
             /\ forall ev, ev ∈ new1 ->
                  Eviction.APIVersion ev = "policy/v1"
                  /\ Eviction.Kind ev = "Eviction"
                  /\ Eviction.GracePeriodSeconds ev
                     = gracePeriod (evictor w)).
  { destruct op as [pod reason|]; cbn in Hop.
    - unfold bind, ret in Hop.
      destruct (EvictPod_outcomes pod reason w); inversion Hop; subst;
        cbn [evictor trace with_stats gracePeriod];
        rewrite ?apiEvictions_app; cbn [apiEvictions omap].
      + exists []. rewrite app_nil_r. split; [done|]. split; [done|].
        by intros ev ?%elem_of_nil.
      + exists []. split; [done|]. split; [done|].
        by intros ev ?%elem_of_nil.
      + exists [evictionOf (evictor w) pod]. split; [done|]. split; [done|].
        by intros ev ->%list_elem_of_singleton.
      + exists [evictionOf (evictor w) pod]. split; [done|]. split; [done|].
        by intros ev ->%list_elem_of_singleton.
    - unfold ResetStats, modify_stats in Hop. inversion Hop; subst.
      exists []. cbn. rewrite app_nil_r. split; [done|]. split; [done|].
      by intros ev ?%elem_of_nil. }
  destruct Hw1 as (new1 & Htr1 & Hg1 & Hall1).
  destruct (IH w1) as (new2 & Htr2 & Hg2 & Hall2).
  exists (new1 ++ new2). rewrite Htr2, Htr1, app_assoc.
  split; [done|]. split; [congruence|].
  intros ev [Hev|Hev]%elem_of_app; [by apply Hall1|].
  rewrite <- Hg1. by apply Hall2.
Qed.

(** X6. Every request that an evictor made by NewDefaultPodEvictor sends
    to the API, over any sequence of operations, is a policy/v1 Eviction
    with a grace period of 30 seconds. *)
Theorem every_eviction_is_graceful
    (c : Client) (cfg : config.Config) (ops : list Op) (ev : Eviction.t) :
  ev ∈ apiEvictions
         (trace (snd (runOps ops {| evictor := NewDefaultPodEvictor c cfg;
                                    trace := [] |}))) ->
  Eviction.APIVersion ev = "policy/v1"
  /\ Eviction.Kind ev = "Eviction"
  /\ Eviction.GracePeriodSeconds ev = 30.
Proof.
  intros Hev.
  destruct (requests_runOps ops {| evictor := NewDefaultPodEvictor c cfg;
                                   trace := [] |})
    as (new & Htr & _ & Hall).
  rewrite Htr in Hev. cbn in Hev. by apply Hall.
Qed.

Lemma sumOf_empty : sumOf ∅ = 0.
Proof. apply map_fold_empty. Qed.

Lemma sumOf_insert_fresh m k v :
  m !! k = None -> sumOf (<[k := v]> m) = v + sumOf m.
Proof.
  intros Hfresh. unfold sumOf. rewrite map_fold_insert_L; [done| |done].
  intros. lia.
Qed.

Lemma sumOf_delete m k v :
  m !! k = Some v -> sumOf m = v + sumOf (delete k m).
Proof.
  intros Hk. unfold sumOf.
  rewrite (map_fold_delete_L _ _ k v m); [done| |done].
  intros. lia.
Qed.

Lemma sumOf_insert m k v :
  sumOf (<[k := v]> m) = sumOf m - at_key m k + v.
Proof.
  unfold at_key. destruct (m !! k) as [x|] eqn:Hk; simpl.
  - rewrite <- (insert_delete_eq m k v).
    rewrite sumOf_insert_fresh by apply lookup_delete_eq.
    rewrite (sumOf_delete m k x Hk). lia.
  - rewrite sumOf_insert_fresh by done. lia.
Qed.

Lemma sumOf_nonneg m :
  map_Forall (fun _ v => 0 <= v) m -> 0 <= sumOf m.
Proof.
  induction m as [|k v m Hfresh IH] using map_ind; intros Hall.
  { by rewrite sumOf_empty. }
  rewrite sumOf_insert_fresh by done.
  apply map_Forall_insert in Hall as [Hv Hm]; [|done].
  specialize (IH Hm). lia.
Qed.

Lemma at_key_le_sumOf m k :
  map_Forall (fun _ v => 0 <= v) m -> 0 <= at_key m k <= sumOf m.
Proof.
  intros Hall. unfold at_key.
  destruct (m !! k) as [x|] eqn:Hk; simpl.
  - rewrite (sumOf_delete m k x Hk).
    pose proof (Hall k x Hk) as Hx. cbn in Hx.
    assert (0 <= sumOf (delete k m)); [|lia].
    apply sumOf_nonneg. intros j y Hj.
    apply lookup_delete_Some in Hj as [_ Hj]. by apply (Hall j y).
  - split; [done|]. by apply sumOf_nonneg.
Qed.

Lemma balanced_incr m k total :
  map_Forall (fun _ v => 0 <= v) m ->
  sumOf m <= total -> total < GoInt.maxInt ->
  map_Forall (fun _ v => 0 <= v) (incr_key m k)
  /\ sumOf (incr_key m k) = sumOf m + 1.
Proof.
  intros Hall Hsum Hroom. pose proof (at_key_le_sumOf m k Hall) as Hk.
  assert (Hadd : GoInt.add (at_key m k) 1 = at_key m k + 1).
  { apply wrap_id.
    unfold GoInt.in_range, GoInt.minInt, GoInt.maxInt in *. lia. }
  unfold incr_key. rewrite Hadd. split.
  - apply map_Forall_insert_2; [lia|done].
  - rewrite sumOf_insert. lia.
Qed.

Lemma balanced_updateStats pod reason s :
  balanced s -> TotalEvicted s < GoInt.maxInt ->
  balanced (updateStats pod reason true s).
Proof.
  intros (Hn & Hs & Hr & Sn & Sr & Snode) Hroom.
  assert (Hadd : GoInt.add (TotalEvicted s) 1 = TotalEvicted s + 1).
  { apply wrap_id. pose proof (sumOf_nonneg _ Hs).
    unfold GoInt.in_range, GoInt.minInt, GoInt.maxInt in *. lia. }
  destruct (balanced_incr (EvictedByNamespace s) (Pod.Namespace pod)
              (TotalEvicted s) Hs ltac:(lia) Hroom) as [Hs' Ss'].
  destruct (balanced_incr (EvictedByReason s) reason
              (TotalEvicted s) Hr ltac:(lia) Hroom) as [Hr' Sr'].
  destruct (balanced_incr (EvictedByNode s) (Pod.NodeName pod)
              (TotalEvicted s) Hn Snode Hroom) as [Hn' Sn'].
  unfold balanced, updateStats.
  cbn [TotalEvicted EvictedByNode EvictedByNamespace EvictedByReason].
  rewrite Hadd.
  destruct (negb (String.eqb (Pod.NodeName pod) ""));
    repeat split; try done; lia.
Qed.

Lemma balanced_zeroStats : balanced zeroStats.
Proof.
  unfold balanced. cbn. rewrite !sumOf_empty.
  repeat split; try done; apply map_Forall_empty.
Qed.

Lemma balanced_runOps ops : forall w,
  0 < config.MaxPodsToEvictTotal (config.Limits (config (evictor w))) ->
  quota_inv (evictor w) -> balanced (stats (evictor w)) ->
  balanced (stats (evictor (snd (runOps ops w)))).
Proof.
  induction ops as [|op ops IH]; intros w Hpos Hinv Hbal; [exact Hbal|].
  cbn [runOps]. unfold bind at 1.
  destruct (runOp op w) as [u w1] eqn:Hop.
  assert (Hw1 : config (evictor w1) = config (evictor w)
                /\ quota_inv (evictor w1) /\ balanced (stats (evictor w1))).
  { destruct op as [pod reason|]; cbn in Hop.
    - unfold bind, ret in Hop.
      pose proof (quota_inv_EvictPod pod reason w Hinv) as Hinv1.
      destruct (EvictPod_outcomes pod reason w) as [|? Hcheck|
                                                    |? Hcheck];
        inversion Hop; subst; cbn [snd] in Hinv1;
        (split; [done|]); (split; [exact Hinv1|]);
        cbn [evictor with_stats stats]; try done.
      all: apply balanced_updateStats; [done|].
      all: apply checkEvictionLimits_None in Hcheck as [Ht _].
      all: destruct Hinv as ((Lt & _) & _ & _).
      all: specialize (Ht Hpos).
      all: unfold GoInt.in_range in Lt; lia.
    - unfold ResetStats, modify_stats in Hop. inversion Hop; subst.
      split; [done|]. split.
      + apply quota_inv_zeroStats, Hinv.
      + apply balanced_zeroStats. }
  destruct Hw1 as (Hcfg & Hinv1 & Hbal1).
  apply IH; [by rewrite Hcfg|done|done].
Qed.

(** X7. Under a positive total limit the statistics add up: after the
    reset of a cycle and any sequence of Evict and Reset operations the
    total equals the sum of the per-namespace counts and the sum of the
    per-reason counts, and the per-node counts sum to no more (pods
    without a node are in the total only). *)
Theorem statistics_add_up (w : World) (ops : list Op) :
  limits_are_ints (config.Limits (config (evictor w))) ->
  0 < config.MaxPodsToEvictTotal (config.Limits (config (evictor w))) ->
  let s := stats (evictor (snd (runOps (OpReset :: ops) w))) in
  sumOf (EvictedByNamespace s) = TotalEvicted s
  /\ sumOf (EvictedByReason s) = TotalEvicted s
  /\ sumOf (EvictedByNode s) <= TotalEvicted s.
Proof.
  intros Hl Hpos s.
  assert (Hbal : balanced s).
  { unfold s. cbn [runOps runOp].
    unfold bind at 1, ResetStats, modify_stats.
    apply balanced_runOps; cbn [snd evictor with_stats config stats].
    - exact Hpos.
    - by apply quota_inv_zeroStats.
    - apply balanced_zeroStats. }
  destruct Hbal as (_ & _ & _ & Hs & Hr & Hn). done.
Qed.

End EvictorMore.

(** ** Configuration loading *)

Section ConfigFacts.

Import config.

Lemma validateResourceThresholds_iff t :
  validateResourceThresholds t = None <-> percentages_ok t.
Proof.
  unfold validateResourceThresholds, percentages_ok.
  repeat match goal with
         | |- context [?a <? ?b] =>
             destruct (Z.ltb_spec a b); cbn [orb]
         end;
    split; try discriminate; try lia; done.
Qed.

Lemma setDefaults_fields c :
  Interval (setDefaults c)
  = (if Interval c =? 0 then 5 * Minute else Interval c)
  /\ LogLevel (setDefaults c)
     = (if String.eqb (LogLevel c) "" then "info" else LogLevel c)
  /\ MaxPodsToEvictPerNode (Limits (setDefaults c))
     = (if MaxPodsToEvictPerNode (Limits c) =? 0 then 10
        else MaxPodsToEvictPerNode (Limits c))
  /\ MaxPodsToEvictPerNamespace (Limits (setDefaults c))
     = (if MaxPodsToEvictPerNamespace (Limits c) =? 0 then 5
        else MaxPodsToEvictPerNamespace (Limits c))
  /\ MaxPodsToEvictTotal (Limits (setDefaults c))
     = (if MaxPodsToEvictTotal (Limits c) =? 0 then 50
        else MaxPodsToEvictTotal (Limits c))
  /\ DryRun (setDefaults c) = DryRun c
  /\ NodeSelector (setDefaults c) = NodeSelector c
  /\ Strategies (setDefaults c) = Strategies c.
Proof.
  assert (Hfive : GoInt.mul 5 Minute = 5 * Minute) by reflexivity.
  destruct c as [interval dryRun selector [perNode perNamespace total]
                   strategies logLevel].
  unfold setDefaults. rewrite Hfive.
  cbn [Interval DryRun NodeSelector Limits Strategies LogLevel
       MaxPodsToEvictPerNode MaxPodsToEvictPerNamespace MaxPodsToEvictTotal].
  destruct (interval =? 0); simpl;
    destruct (String.eqb logLevel ""); simpl;
    destruct (perNode =? 0); simpl;
    destruct (perNamespace =? 0); simpl;
    destruct (total =? 0); simpl; repeat split.
Qed.

Lemma validateConfig_iff c :
  validateConfig c = None
  <-> Minute <= Interval c
      /\ 0 <= MaxPodsToEvictPerNode (Limits c)
      /\ 0 <= MaxPodsToEvictPerNamespace (Limits c)
      /\ 0 <= MaxPodsToEvictTotal (Limits c)
      /\ enabled_thresholds_ok c.
Proof.
  unfold validateConfig, enabled_thresholds_ok.
  destruct (Z.ltb_spec (Interval c) Minute); [split; [done|lia]|].
  destruct (Z.ltb_spec (MaxPodsToEvictPerNode (Limits c)) 0);
    [split; [done|lia]|].
  destruct (Z.ltb_spec (MaxPodsToEvictPerNamespace (Limits c)) 0);
    [split; [done|lia]|].
  destruct (Z.ltb_spec (MaxPodsToEvictTotal (Limits c)) 0);
    [split; [done|lia]|].
  destruct (LowNodeUtilization (Strategies c)) as [lnu|].
  2: { split; [|done]. intros _. split_and!; try done. }
  destruct (lnu_Enabled lnu) eqn:Hen.
  2: { split; [|done]. intros _. split_and!; try done.
       intros lnu' [= <-]; congruence. }
  pose proof (validateResourceThresholds_iff (Thresholds lnu)) as Ht1.
  pose proof (validateResourceThresholds_iff (TargetThresholds lnu)) as Ht2.
  destruct (validateResourceThresholds (Thresholds lnu)).
  { split; [done|]. intros (_ & _ & _ & _ & Hok).
    destruct (Hok lnu eq_refl Hen) as [Hbad _].
    apply Ht1 in Hbad. discriminate. }
  destruct (validateResourceThresholds (TargetThresholds lnu)).
  { split; [done|]. intros (_ & _ & _ & _ & Hok).
    destruct (Hok lnu eq_refl Hen) as [_ Hbad].
    apply Ht2 in Hbad. discriminate. }
  split; [|done]. intros _. split_and!; try done.
  intros lnu' [= <-] _. split; [by apply Ht1|by apply Ht2].
Qed.

Lemma LoadConfig_interval (parsed c : Config) :
  LoadConfig parsed = inl c -> Minute <= Interval c.
Proof.
  unfold LoadConfig.
  destruct (validateConfig (setDefaults parsed)) eqn:Hv; [done|].
  intros [= <-]. by apply validateConfig_iff in Hv as (Hint & _).
Qed.

(** X8. LoadConfig accepts a parsed file exactly when its interval is 0
    or at least one minute, none of its three limits is negative, and the
    thresholds of an enabled LowNodeUtilization section are percentages;
    what it returns then is the parsed configuration with the defaults
    filled in. *)
Theorem LoadConfig_accepts_iff (parsed c : Config) :
  LoadConfig parsed = inl c
  <-> c = setDefaults parsed
      /\ (Interval parsed = 0 \/ Minute <= Interval parsed)
      /\ 0 <= MaxPodsToEvictPerNode (Limits parsed)
      /\ 0 <= MaxPodsToEvictPerNamespace (Limits parsed)
      /\ 0 <= MaxPodsToEvictTotal (Limits parsed)
      /\ enabled_thresholds_ok parsed.
Proof.
  unfold LoadConfig.
  pose proof (validateConfig_iff (setDefaults parsed)) as Hv.
  destruct (setDefaults_fields parsed)
    as (Hi & _ & Hn & Hns & Ht & _ & _ & Hs).
  unfold enabled_thresholds_ok in *.
  rewrite Hi, Hn, Hns, Ht, Hs in Hv.
  assert (Hmin : 0 < Minute) by (unfold Minute; lia).
  destruct (validateConfig (setDefaults parsed)) as [err|].
  - split; [done|]. intros (_ & Hint & H1 & H2 & H3 & Hok).
    assert (Some err = None) as Hbad; [|done].
    apply Hv. split_and!; try done.
    + destruct (Z.eqb_spec (Interval parsed) 0); lia.
    + destruct (Z.eqb_spec (MaxPodsToEvictPerNode (Limits parsed)) 0); lia.
    + destruct (Z.eqb_spec (MaxPodsToEvictPerNamespace (Limits parsed)) 0);
        lia.
    + destruct (Z.eqb_spec (MaxPodsToEvictTotal (Limits parsed)) 0); lia.
  - destruct Hv as [Hv _]. destruct (Hv eq_refl) as (Hint & H1 & H2 & H3 & Hok).
    split.
    + intros [= <-]. split_and!; try done.
      * destruct (Z.eqb_spec (Interval parsed) 0); [by left|by right].
      * destruct (Z.eqb_spec (MaxPodsToEvictPerNode (Limits parsed)) 0); lia.
      * destruct (Z.eqb_spec (MaxPodsToEvictPerNamespace (Limits parsed)) 0);
          lia.
      * destruct (Z.eqb_spec (MaxPodsToEvictTotal (Limits parsed)) 0); lia.
    + intros (-> & _). reflexivity.
Qed.

Lemma setDefaults_fixed c :
  Interval c <> 0 -> LogLevel c <> "" ->
  MaxPodsToEvictPerNode (Limits c) <> 0 ->
  MaxPodsToEvictPerNamespace (Limits c) <> 0 ->
  MaxPodsToEvictTotal (Limits c) <> 0 ->
  setDefaults c = c.
Proof.
  destruct c as [interval dryRun selector [perNode perNamespace total]
                   strategies logLevel].
  cbn [Interval LogLevel Limits MaxPodsToEvictPerNode
       MaxPodsToEvictPerNamespace MaxPodsToEvictTotal].
  intros Hi Hl Hn Hns Ht. unfold setDefaults.
  cbn [Interval LogLevel Limits MaxPodsToEvictPerNode
       MaxPodsToEvictPerNamespace MaxPodsToEvictTotal].
  destruct (Z.eqb_spec interval 0); [done|].
  cbn [Interval LogLevel Limits MaxPodsToEvictPerNode
       MaxPodsToEvictPerNamespace MaxPodsToEvictTotal].
  destruct (String.eqb_spec logLevel ""); [done|].
  cbn [Interval LogLevel Limits MaxPodsToEvictPerNode
       MaxPodsToEvictPerNamespace MaxPodsToEvictTotal].
  destruct (Z.eqb_spec perNode 0); [done|].
  cbn [Interval LogLevel Limits MaxPodsToEvictPerNode
       MaxPodsToEvictPerNamespace MaxPodsToEvictTotal].
  destruct (Z.eqb_spec perNamespace 0); [done|].
  cbn [Interval LogLevel Limits MaxPodsToEvictPerNode
       MaxPodsToEvictPerNamespace MaxPodsToEvictTotal].
  destruct (Z.eqb_spec total 0); [done|]. reflexivity.
Qed.

(** X9. A configuration that LoadConfig returns has an interval of at
    least one minute, a log level, and three strictly positive limits, so
    that no quota of the evictor is switched off; the dry-run flag, the
    node selector and the strategies are those of the file. Loading it
    again changes nothing. *)
Theorem loaded_config_is_complete (parsed c : Config) :
  LoadConfig parsed = inl c ->
  Minute <= Interval c
  /\ LogLevel c <> ""
  /\ 0 < MaxPodsToEvictPerNode (Limits c)
  /\ 0 < MaxPodsToEvictPerNamespace (Limits c)
  /\ 0 < MaxPodsToEvictTotal (Limits c)
  /\ DryRun c = DryRun parsed
  /\ NodeSelector c = NodeSelector parsed
  /\ Strategies c = Strategies parsed
  /\ LoadConfig c = inl c.
Proof.
  intros Hload. unfold LoadConfig in Hload.
  destruct (validateConfig (setDefaults parsed)) eqn:Hv; [done|].
  injection Hload as <-.
  pose proof (proj1 (validateConfig_iff _) Hv) as (Hint & H1 & H2 & H3 & Hok).
  destruct (setDefaults_fields parsed)
    as (Hi & Hl & Hn & Hns & Ht & Hd & Hsel & Hs).
  assert (Hlog : LogLevel (setDefaults parsed) <> "").
  { rewrite Hl. destruct (String.eqb_spec (LogLevel parsed) ""); done. }
  assert (Hpn : 0 < MaxPodsToEvictPerNode (Limits (setDefaults parsed))).
  { rewrite Hn in *.
    destruct (Z.eqb_spec (MaxPodsToEvictPerNode (Limits parsed)) 0); lia. }
  assert (Hpns : 0 < MaxPodsToEvictPerNamespace (Limits (setDefaults parsed))).
  { rewrite Hns in *.
    destruct (Z.eqb_spec (MaxPodsToEvictPerNamespace (Limits parsed)) 0);
      lia. }
  assert (Hpt : 0 < MaxPodsToEvictTotal (Limits (setDefaults parsed))).
  { rewrite Ht in *.
    destruct (Z.eqb_spec (MaxPodsToEvictTotal (Limits parsed)) 0); lia. }
  assert (Hmin : 0 < Minute) by (unfold Minute; lia).
  split_and!; try done.
  unfold LoadConfig.
  rewrite (setDefaults_fixed (setDefaults parsed)) by lia || done.
  by rewrite Hv.
Qed.

End ConfigFacts.

(** ** What a strategy does to the world *)

Section Effects.

Import eviction cycle.
Local Open Scope evict_scope.

#[local] Opaque fmt.Sprintf.

Lemma acts_trans P w1 w2 w3 : acts P w1 w2 -> acts P w2 w3 -> acts P w1 w3.
Proof.
  intros H12 H23. induction H23 as [|w3 ev _ IH Hev|w3 pod reason _ IH HP].
  - exact H12.
  - by apply acts_event.
  - by apply acts_EvictPod.
Qed.

Lemma acts_mono (P P' : Pod.t -> Prop) w w' :
  (forall pod, P pod -> P' pod) -> acts P w w' -> acts P' w w'.
Proof.
  intros Hsub Hacts. induction Hacts as [|w' ev _ IH Hev|w' pod reason _ IH HP].
  - apply acts_done.
  - by apply acts_event.
  - apply acts_EvictPod; [done|by apply Hsub].
Qed.

Lemma does_ret P {A} (a : A) (Q : A -> Prop) : Q a -> does P (ret a) Q.
Proof. intros HQ w. split; [apply acts_done|exact HQ]. Qed.

Lemma does_bind P {A B} (m : M A) (k : A -> M B) Q R :
  does P m Q -> (forall a, Q a -> does P (k a) R) -> does P (bind m k) R.
Proof.
  intros Hm Hk w. unfold bind. destruct (Hm w) as [Hacts HQ].
  destruct (m w) as [a w1]. cbn [fst snd] in *.
  destruct (Hk a HQ w1) as [Hacts' HR]. split; [|exact HR].
  by eapply acts_trans.
Qed.

Lemma does_weaken P {A} (m : M A) (Q Q' : A -> Prop) :
  does P m Q -> (forall a, Q a -> Q' a) -> does P m Q'.
Proof. intros Hm Hsub w. destruct (Hm w). split; [done|by apply Hsub]. Qed.

Lemma does_emit P ev :
  apiEvictions [ev] = [] -> does P (emit ev) (fun _ => True).
Proof.
  intros Hev w. split; [|done].
  change (snd (emit ev w)) with (logged w ev).
  apply acts_event; [apply acts_done|exact Hev].
Qed.

Lemma does_Infof P format args : does P (Infof format args) (fun _ => True).
Proof. by apply does_emit. Qed.

Lemma does_Errorf P format args : does P (Errorf format args) (fun _ => True).
Proof. by apply does_emit. Qed.

Lemma does_VInfof P v format args :
  does P (VInfof v format args) (fun _ => True).
Proof. by apply does_emit. Qed.

Lemma does_get_evictor P : does P get_evictor (fun _ => True).
Proof. intros w. split; [apply acts_done|done]. Qed.

Lemma does_get_trace P : does P get_trace (fun _ => True).
Proof. intros w. split; [apply acts_done|done]. Qed.

Lemma does_EvictPod (P : Pod.t -> Prop) pod reason :
  P pod -> does P (EvictPod pod reason) (fun _ => True).
Proof.
  intros HP w. split; [|done]. apply acts_EvictPod; [apply acts_done|done].
Qed.

Lemma does_listPodsOnNode P c nodeName :
  does P (strategies.listPodsOnNode c nodeName)
    (fun r => forall items pod, r = inl items -> pod ∈ items -> listed c pod).
Proof.
  intros w. unfold strategies.listPodsOnNode, bind, get_trace, emit, ret.
  cbn [fst snd]. split.
  - change {| evictor := evictor w; trace := trace w ++ [ApiListPods nodeName] |}
      with (logged w (ApiListPods nodeName)).
    apply acts_event; [apply acts_done|done].
  - intros items pod Hr Hin. by exists (trace w), nodeName, items.
Qed.

Lemma acts_settings P w w' :
  acts P w w' -> same_settings (evictor w) (evictor w').
Proof.
  induction 1 as [|w' ev _ IH Hev|w' pod reason _ IH HP]; [done|done|].
  destruct IH as (Hc & Hcfg & Hg).
  destruct (EvictPod_outcomes pod reason w'); by cbn [snd evictor].
Qed.

Lemma acts_requests P w w' :
  acts P w w' ->
  exists new,
    trace w' = trace w ++ new
    /\ forall ev, ev ∈ apiEvictions new ->
                  exists pod, P pod /\ ev = evictionOf (evictor w) pod.
Proof.
  induction 1 as [|w' ev _ IH Hev|w' pod reason Hacts IH HP].
  - exists []. rewrite app_nil_r. split; [done|]. by intros ev ?%elem_of_nil.
  - destruct IH as (new & Htr & Hfor). exists (new ++ [ev]).
    cbn [logged trace]. rewrite Htr, app_assoc. split; [done|].
    intros ev'. rewrite apiEvictions_app, Hev, app_nil_r. apply Hfor.
  - destruct IH as (new & Htr & Hfor).
    destruct (acts_settings _ _ _ Hacts) as (Hc & Hcfg & Hg).
    assert (Hof : evictionOf (evictor w') pod = evictionOf (evictor w) pod).
    { unfold evictionOf. by rewrite Hg. }
    destruct (EvictPod_outcomes pod reason w'); cbn [snd trace].
    + by exists new.
    + exists (new ++ [Log Info 0 line]). rewrite Htr, app_assoc.
      split; [done|]. intros ev'.
      rewrite apiEvictions_app. cbn. rewrite app_nil_r. apply Hfor.
    + exists (new ++ [ApiEvict (evictionOf (evictor w') pod);
                      Log Error 0 line]).
      rewrite Htr, app_assoc. split; [done|]. intros ev'.
      rewrite apiEvictions_app. cbn.
      intros [Hin| ->%list_elem_of_singleton]%elem_of_app;
        [by apply Hfor|by exists pod].
    + exists (new ++ [ApiEvict (evictionOf (evictor w') pod);
                      Log Info 0 line]).
      rewrite Htr, app_assoc. split; [done|]. intros ev'.
      rewrite apiEvictions_app. cbn.
      intros [Hin| ->%list_elem_of_singleton]%elem_of_app;
        [by apply Hfor|by exists pod].
Qed.

Lemma acts_quota_inv P w w' :
  acts P w w' -> quota_inv (evictor w) -> quota_inv (evictor w').
Proof.
  induction 1 as [|w' ev _ IH Hev|w' pod reason _ IH HP]; intros Hinv.
  - done.
  - by apply IH.
  - by apply quota_inv_EvictPod, IH.
Qed.

Lemma acts_dry_run P w w' :
  acts P w w' -> config.DryRun (config (evictor w)) = true ->
  apiEvictions (trace w') = apiEvictions (trace w).
Proof.
  induction 1 as [|w' ev Hacts IH Hev|w' pod reason Hacts IH HP]; intros Hdry.
  - done.
  - cbn [logged trace]. rewrite apiEvictions_app, Hev, app_nil_r. by apply IH.
  - destruct (acts_settings _ _ _ Hacts) as (_ & Hcfg & _).
    rewrite <- IH by done.
    destruct (EvictPod_outcomes pod reason w'); cbn [snd trace];
      rewrite ?apiEvictions_app; cbn; rewrite ?app_nil_r; try done;
      congruence.
Qed.

Lemma acts_at_trans P w1 w2 w3 :
  acts_at P w1 w2 -> acts_at P w2 w3 -> acts_at P w1 w3.
Proof.
  intros H12 H23. induction H23 as [|w3 ev _ IH Hev|w3 pod reason _ IH HP].
  - exact H12.
  - by apply acts_at_event.
  - by apply acts_at_EvictPod.
Qed.

(** Forgetting the moment. *)
Lemma acts_at_acts (P : list Event -> Pod.t -> Prop) (P' : Pod.t -> Prop)
    w w' :
  (forall history pod, P history pod -> P' pod) ->
  acts_at P w w' -> acts P' w w'.
Proof.
  intros Hsub Hacts.
  induction Hacts as [|w' ev _ IH Hev|w' pod reason _ IH HP].
  - apply acts_done.
  - by apply acts_event.
  - apply acts_EvictPod; [done|by eapply Hsub].
Qed.

Lemma runs_ret P {A} (Pre : World -> Prop) (a : A)
    (Post : A -> World -> Prop) :
  (forall w, Pre w -> Post a w) -> runs P Pre (ret a) Post.
Proof. intros HPost w HPre. split; [apply acts_at_done|by apply HPost]. Qed.

Lemma runs_bind P {A B} (Pre : World -> Prop) (m : M A) (k : A -> M B)
    (Mid : A -> World -> Prop) (Post : B -> World -> Prop) :
  runs P Pre m Mid -> (forall a, runs P (Mid a) (k a) Post) ->
  runs P Pre (bind m k) Post.
Proof.
  intros Hm Hk w HPre. unfold bind. destruct (Hm w HPre) as [Hacts HMid].
  destruct (m w) as [a w1]. cbn [fst snd] in *.
  destruct (Hk a w1 HMid) as [Hacts' HPost]. split; [|exact HPost].
  by eapply acts_at_trans.
Qed.

Lemma runs_emit P (Pre : World -> Prop) ev (Post : unit -> World -> Prop) :
  apiEvictions [ev] = [] ->
  (forall w, Pre w -> Post tt (logged w ev)) ->
  runs P Pre (emit ev) Post.
Proof.
  intros Hev HPost w HPre. split; [|by apply HPost].
  change (snd (emit ev w)) with (logged w ev).
  apply acts_at_event; [apply acts_at_done|exact Hev].
Qed.

Lemma runs_Infof P (Pre : World -> Prop) format args :
  runs P Pre (Infof format args) (fun _ _ => True).
Proof. by apply runs_emit. Qed.

Lemma runs_Errorf P (Pre : World -> Prop) format args :
  runs P Pre (Errorf format args) (fun _ _ => True).
Proof. by apply runs_emit. Qed.

Lemma runs_VInfof P (Pre : World -> Prop) v format args :
  runs P Pre (VInfof v format args) (fun _ _ => True).
Proof. by apply runs_emit. Qed.

(** A fact that does not depend on the world passes every step. *)
Lemma runs_assume P {A} (Pre : World -> Prop) (m : M A)
    (Post : A -> World -> Prop) (Fact : Prop) :
  (forall w, Pre w -> Fact) ->
  (Fact -> runs P (fun _ => True) m Post) ->
  runs P Pre m Post.
Proof. intros HFact Hm w HPre. exact (Hm (HFact w HPre) w I). Qed.

Lemma runs_get_evictor P (Pre : World -> Prop) :
  runs P Pre get_evictor (fun _ w => Pre w).
Proof. intros w HPre. split; [apply acts_at_done|done]. Qed.

Lemma runs_get_trace P (Pre : World -> Prop) :
  runs P Pre get_trace (fun history w => history = trace w /\ Pre w).
Proof. intros w HPre. split; [apply acts_at_done|done]. Qed.

Lemma runs_EvictPod (P : list Event -> Pod.t -> Prop) (Pre : World -> Prop)
    pod reason :
  (forall w, Pre w -> P (trace w) pod) ->
  runs P Pre (EvictPod pod reason) (fun _ _ => True).
Proof.
  intros HP w HPre. split; [|done].
  apply acts_at_EvictPod; [apply acts_at_done|by apply HP].
Qed.

Lemma runs_listPodsOnNode P (Pre : World -> Prop) c nodeName :
  runs P Pre (strategies.listPodsOnNode c nodeName)
    (fun r _ => forall items pod,
                  r = inl items -> pod ∈ items -> listed c pod).
Proof.
  intros w HPre. unfold strategies.listPodsOnNode, bind, get_trace, emit, ret.
  cbn [fst snd]. split.
  - change {| evictor := evictor w;
              trace := trace w ++ [ApiListPods nodeName] |}
      with (logged w (ApiListPods nodeName)).
    apply acts_at_event; [apply acts_at_done|done].
  - intros items pod Hr Hin. by exists (trace w), nodeName, items.
Qed.

#[local] Transparent fmt.Sprintf.

End Effects.

(** ** utils: slices, readiness and thresholds *)

Section UtilsFacts.

Import utils.

Lemma Contains_elem_of slice item :
  Contains slice item = true <-> item ∈ slice.
Proof.
  induction slice as [|s slice IH]; cbn [Contains].
  - split; [done|by intros ?%elem_of_nil].
  - rewrite elem_of_cons.
    destruct (String.eqb_spec s item) as [->|Hne].
    + split; [by left|done].
    + rewrite IH. split; [by right|]. intros [?|?]; [congruence|done].
Qed.

Lemma Contains_not_elem_of slice item :
  Contains slice item = false <-> item ∉ slice.
Proof.
  rewrite <- Contains_elem_of. by destruct (Contains slice item).
Qed.

Lemma RemoveFromSlice_from slice item : forall result,
  fold_left
    (fun result s => if negb (String.eqb s item) then result ++ [s] else result)
    slice result
  = result ++ List.filter (fun s => negb (String.eqb s item)) slice.
Proof.
  induction slice as [|s slice IH]; intros result; cbn [fold_left List.filter].
  - by rewrite app_nil_r.
  - rewrite IH. destruct (negb (String.eqb s item)); [|done].
    by rewrite <- app_assoc.
Qed.

Lemma RemoveFromSlice_filter slice item :
  RemoveFromSlice slice item
  = List.filter (fun s => negb (String.eqb s item)) slice.
Proof. unfold RemoveFromSlice. by rewrite RemoveFromSlice_from. Qed.

(** X10. RemoveFromSlice takes out every occurrence of the item and
    nothing else: what Contains finds afterwards are the other elements
    of the slice, their order is kept, and a slice without the item
    comes back as it was. *)
Theorem RemoveFromSlice_removes_the_item_only (slice : list string)
    (item : string) :
  (forall s, Contains (RemoveFromSlice slice item) s
             = Contains slice s && negb (String.eqb s item))
  /\ sublist (RemoveFromSlice slice item) slice
  /\ (Contains slice item = false -> RemoveFromSlice slice item = slice).
Proof.
  rewrite RemoveFromSlice_filter. split_and!.
  - intros s. induction slice as [|s' slice IH]; [done|].
    cbn [List.filter Contains].
    destruct (String.eqb_spec s' item) as [->|Hne]; cbn [negb Contains].
    + rewrite IH. destruct (String.eqb_spec item s) as [->|Hne]; [|done].
      rewrite String.eqb_refl. cbn. by rewrite andb_false_r.
    + rewrite IH. destruct (String.eqb_spec s' s) as [->|Hne']; [|done].
      destruct (String.eqb_spec s item); [done|]. done.
  - induction slice as [|s' slice IH]; [done|]. cbn [List.filter].
    destruct (negb (String.eqb s' item));
      [by apply sublist_skip|by apply sublist_cons].
  - induction slice as [|s' slice IH]; [done|]. cbn [List.filter Contains].
    destruct (String.eqb_spec s' item); [done|]. cbn [negb].
    intros Hno. by rewrite IH.
Qed.

(** X11. IsReadyNode goes by the first condition of type Ready: a node
    whose conditions before it are of other types is ready exactly when
    the status of that condition is True, whatever conditions follow,
    and a node without a Ready condition is not ready. *)
Theorem first_Ready_condition_decides (node : Node.t) :
  (forall before c after,
     Node.Conditions node = before ++ c :: after ->
     Forall (fun c' => NodeCondition.Type_ c' <> "Ready") before ->
     NodeCondition.Type_ c = "Ready" ->
     IsReadyNode node = String.eqb (NodeCondition.Status c) "True")
  /\ (Forall (fun c' => NodeCondition.Type_ c' <> "Ready")
             (Node.Conditions node) ->
      IsReadyNode node = false).
Proof.
  unfold IsReadyNode. split.
  - intros before c after -> Hbefore Hc.
    induction Hbefore as [|c' before Hc' _ IH]; cbn [app readyCondition].
    + by rewrite Hc, String.eqb_refl.
    + by destruct (String.eqb_spec (NodeCondition.Type_ c') "Ready").
  - induction 1 as [|c' conds Hc' _ IH]; cbn [readyCondition]; [done|].
    by destruct (String.eqb_spec (NodeCondition.Type_ c') "Ready").
Qed.

(** X12. A node below every threshold is not above any target threshold
    when the thresholds do not exceed the targets: under the usual
    configuration no node is both under- and over-utilized. *)
Theorem under_utilized_is_not_over_utilized
    (u : NodeResourceUtilization)
    (thresholds targetThresholds : config.ResourceThresholds) :
  config.CPU thresholds <= config.CPU targetThresholds ->
  config.Memory thresholds <= config.Memory targetThresholds ->
  config.Pods thresholds <= config.Pods targetThresholds ->
  IsNodeUnderUtilized u thresholds = true ->
  IsNodeOverUtilized u targetThresholds = false.
Proof.
  unfold IsNodeUnderUtilized, IsNodeOverUtilized. intros Hc Hm Hp.
  rewrite !andb_true_iff, !orb_false_iff, !Z.ltb_lt, !Z.ltb_ge. lia.
Qed.

End UtilsFacts.

(** ** LowNodeUtilization: the two lists and the order of eviction *)

Section LowNodeUtilizationFacts.

Import eviction strategies.

Variable s_config : config.LowNodeUtilizationConfig.
Variable rangeUtilizations :
  gmap string utils.NodeResourceUtilization
  -> list (string * utils.NodeResourceUtilization).

#[local] Opaque fmt.Sprintf.

Lemma categorizeFrom_spec entries : forall low over w,
  low_node_utilization.categorizeFrom s_config entries low over w
  = ((low ++ List.filter (underUtilized s_config) (map snd entries),
      over ++ List.filter
                (fun u => negb (underUtilized s_config u)
                          && overUtilized s_config u)
                (map snd entries)),
     extended w (flat_map (categoryLine s_config) (map snd entries))).
Proof.
  induction entries as [|[name u] entries IH]; intros low over w.
  { cbn. unfold ret, extended. rewrite !app_nil_r. by destruct w. }
  cbn [low_node_utilization.categorizeFrom map snd List.filter flat_map].
  cbv zeta. unfold categoryLine at 1.
  fold (underUtilized s_config u). fold (overUtilized s_config u).
  destruct (underUtilized s_config u); cbn [negb andb].
  - unfold bind, VInfof, emit. rewrite IH. unfold extended.
    cbn [evictor trace]. by rewrite <- !app_assoc.
  - destruct (overUtilized s_config u).
    + unfold bind, VInfof, emit. rewrite IH. unfold extended.
      cbn [evictor trace]. by rewrite <- !app_assoc.
    + by rewrite IH.
Qed.

(** X13. categorizeNodes keeps the order in which it visits the nodes
    and never puts a node into both lists: the first list holds the
    under-utilized nodes, the second the over-utilized nodes that are
    not under-utilized. A node that is both, which thresholds above the
    targets allow, counts as under-utilized only; a node that is neither
    is in no list. It logs one line for each node it puts into a list
    and leaves the evictor alone. *)
Theorem categorizeNodes_splits_without_overlap
    (utilizations : gmap string utils.NodeResourceUtilization) (w : World) :
  let visited := map snd (rangeUtilizations utilizations) in
  let run :=
    low_node_utilization.categorizeNodes s_config rangeUtilizations
      utilizations w in
  run
  = ((List.filter (underUtilized s_config) visited,
      List.filter (fun u => negb (underUtilized s_config u)
                            && overUtilized s_config u) visited),
     extended w (flat_map (categoryLine s_config) visited))
  /\ (forall u, u ∈ fst (fst run) -> u ∉ snd (fst run)).
Proof.
  intros visited run.
  assert (Heq : run
                = ((List.filter (underUtilized s_config) visited,
                    List.filter (fun u => negb (underUtilized s_config u)
                                          && overUtilized s_config u)
                                visited),
                   extended w (flat_map (categoryLine s_config) visited))).
  { subst run. unfold low_node_utilization.categorizeNodes.
    by rewrite categorizeFrom_spec. }
  split; [exact Heq|]. rewrite Heq. cbn [fst snd].
  intros u [_ Hu]%list_elem_of_In%filter_In [_ Hno]%list_elem_of_In%filter_In.
  by rewrite Hu in Hno.
Qed.

#[local] Transparent fmt.Sprintf.

Lemma sortPodsByPriority_from pods : forall low normal,
  fold_left
    (fun '(lowPriorityPods, normalPods) pod =>
       if isLowPriority pod then (lowPriorityPods ++ [pod], normalPods)
       else (lowPriorityPods, normalPods ++ [pod]))
    pods (low, normal)
  = (low ++ List.filter isLowPriority pods,
     normal ++ List.filter (fun pod => negb (isLowPriority pod)) pods).
Proof.
  induction pods as [|pod pods IH]; intros low normal;
    cbn [fold_left List.filter].
  - by rewrite !app_nil_r.
  - destruct (isLowPriority pod); cbn [negb]; rewrite IH;
      by rewrite <- app_assoc.
Qed.

Lemma partition_Permutation {A} (f : A -> bool) (l : list A) :
  List.filter f l ++ List.filter (fun a => negb (f a)) l ≡ₚ l.
Proof.
  induction l as [|a l IH]; [done|]. cbn [List.filter].
  destruct (f a); cbn [negb app].
  - by rewrite IH.
  - by rewrite <- Permutation_middle, IH.
Qed.

Lemma sortPodsByPriority_filter pods :
  sortPodsByPriority pods
  = List.filter isLowPriority pods
    ++ List.filter (fun pod => negb (isLowPriority pod)) pods.
Proof. unfold sortPodsByPriority. by rewrite sortPodsByPriority_from. Qed.

Lemma sortPodsByPriority_perm pods : sortPodsByPriority pods ≡ₚ pods.
Proof. rewrite sortPodsByPriority_filter. apply partition_Permutation. Qed.


End LowNodeUtilizationFacts.

(** ** The pods a strategy may evict *)

Section StrategyEffects.

Import eviction cycle.
Local Open Scope evict_scope.

#[local] Opaque fmt.Sprintf.

Lemma CanEvictPod_evictable e pod :
  fst (CanEvictPod e pod) = true -> evictable pod.
Proof.
  intros Hyes. pose proof (CanEvictPod_answer e pod) as Hanswer.
  destruct (CanEvictPod e pod) as [yes why]. cbn [fst] in Hyes. subst yes.
  unfold evictable. by inversion Hanswer.
Qed.

Lemma length_pos_nil {A} (l : list A) :
  (0 <? Z.of_nat (length l)) = false -> l = [].
Proof. destruct l; [done|]. cbn [length]. intros ?%Z.ltb_ge. lia. Qed.

Lemma namespace_filter included excluded namespace :
  (if 0 <? Z.of_nat (length included)
   then utils.Contains included namespace
   else if 0 <? Z.of_nat (length excluded)
        then negb (utils.Contains excluded namespace)
        else true) = true ->
  namespace_selected included excluded namespace.
Proof.
  unfold namespace_selected. destruct included as [|i included].
  - cbn [length]. change (0 <? Z.of_nat 0) with false. cbv iota.
    destruct (0 <? Z.of_nat (length excluded)) eqn:Hex.
    + intros Hno%negb_true_iff. by apply Contains_not_elem_of.
    + apply length_pos_nil in Hex as ->. intros _. apply not_elem_of_nil.
  - destruct (Z.ltb_spec 0 (Z.of_nat (length (i :: included))));
      [|cbn [length] in *; lia].
    apply Contains_elem_of.
Qed.

Section RemoveFailedPods.

Import remove_failed_pods.

Variable s_client : Client.
Variable s_config : config.RemoveFailedPodsConfig.
Variable podAgeSeconds : list Event -> Pod.t -> Z.

Lemma excludedOwner_None owners :
  excludedOwner s_config owners = None ->
  forall owner, owner ∈ owners ->
                OwnerReference.Kind owner
                ∉ config.rfp_ExcludeOwnerKinds s_config.
Proof.
  induction owners as [|o owners IH]; cbn [excludedOwner].
  - by intros _ owner ?%elem_of_nil.
  - destruct (utils.Contains (config.rfp_ExcludeOwnerKinds s_config)
                (OwnerReference.Kind o)) eqn:Hin; [done|].
    intros Hnone owner [->|Hown]%elem_of_cons.
    + by apply Contains_not_elem_of.
    + by apply IH.
Qed.

(** The owner check of shouldEvictPod, when it lets the pod through. *)
Lemma owners_checked pod :
  (if 0 <? len (config.rfp_ExcludeOwnerKinds s_config)
   then excludedOwner s_config (Pod.OwnerReferences pod) = None
   else True) ->
  owners_allowed (config.rfp_ExcludeOwnerKinds s_config) pod.
Proof.
  destruct (0 <? len (config.rfp_ExcludeOwnerKinds s_config)) eqn:Hex.
  - intros Hnone. exact (excludedOwner_None _ Hnone).
  - intros _. apply length_pos_nil in Hex. rewrite Hex.
    intros owner _. apply not_elem_of_nil.
Qed.

(** shouldEvictPod says yes without a trace, and only to a pod whose
    namespace is selected, that is old enough at this very moment, and
    whose owners are allowed. *)
Lemma runs_shouldEvictPod P pod :
  runs P (fun _ => True) (shouldEvictPod s_config podAgeSeconds pod)
    (fun should w =>
       should = true ->
       namespace_selected (config.rfp_IncludedNamespaces s_config)
         (config.rfp_ExcludedNamespaces s_config) (Pod.Namespace pod)
       /\ (0 < config.MinPodLifetimeSeconds s_config ->
           config.MinPodLifetimeSeconds s_config
           <= podAgeSeconds (trace w) pod)
       /\ owners_allowed (config.rfp_ExcludeOwnerKinds s_config) pod).
Proof.
  unfold shouldEvictPod.
  destruct (shouldProcessNamespace s_config (Pod.Namespace pod)) eqn:Hns;
    cbn [negb]; [|by apply runs_ret].
  apply namespace_filter in Hns.
  eapply runs_bind; [apply runs_get_trace|]. intros history.
  destruct ((0 <? config.MinPodLifetimeSeconds s_config)
            && (podAgeSeconds history pod
                <? config.MinPodLifetimeSeconds s_config)) eqn:Hyoung.
  { eapply runs_bind; [apply runs_VInfof|]. intros ?. by apply runs_ret. }
  assert (Hold : 0 < config.MinPodLifetimeSeconds s_config ->
                 config.MinPodLifetimeSeconds s_config
                 <= podAgeSeconds history pod).
  { intros Hmin. apply andb_false_iff in Hyoung as [Hno|Hno].
    - apply Z.ltb_ge in Hno. lia.
    - by apply Z.ltb_ge in Hno. }
  destruct (0 <? len (config.rfp_ExcludeOwnerKinds s_config)) eqn:Hex.
  - destruct (excludedOwner s_config (Pod.OwnerReferences pod)) eqn:Hown.
    { eapply runs_bind; [apply runs_VInfof|]. intros ?. by apply runs_ret. }
    apply runs_ret. intros w [-> _] _. split_and!; try done.
    apply owners_checked. by rewrite Hex.
  - apply runs_ret. intros w [-> _] _. split_and!; try done.
    apply owners_checked. by rewrite Hex.
Qed.

Lemma runs_evictFailedPod nodeName pod c :
  listed s_client pod -> Pod.Phase pod = PodFailed ->
  runs (cleanable_at s_client s_config podAgeSeconds) (fun _ => True)
       (evictFailedPod s_config podAgeSeconds nodeName pod c)
       (fun _ _ => True).
Proof.
  intros Hlisted Hfailed. unfold evictFailedPod, canEvictPod.
  eapply runs_bind; [apply runs_get_evictor|]. intros e.
  pose proof (CanEvictPod_evictable e pod) as Hsafe.
  destruct (CanEvictPod e pod) as [[|] why]; cbn [negb fst] in *.
  - eapply runs_bind; [apply runs_shouldEvictPod|].
    intros [|]; cbn [negb].
    + eapply runs_bind.
      { apply runs_EvictPod. intros w Hshould.
        destruct (Hshould eq_refl) as (Hns & Hage & Hown).
        unfold cleanable_at. split_and!; try done. by apply Hsafe. }
      intros [err|].
      * eapply runs_bind; [apply runs_Errorf|]. intros ?. by apply runs_ret.
      * eapply runs_bind; [apply runs_VInfof|]. intros ?. by apply runs_ret.
    + eapply runs_bind; [apply runs_VInfof|]. intros ?. by apply runs_ret.
  - eapply runs_bind; [apply runs_VInfof|]. intros ?. by apply runs_ret.
Qed.

Lemma runs_evictFailedPods nodeName failedPods : forall c,
  Forall (fun pod => listed s_client pod /\ Pod.Phase pod = PodFailed)
         failedPods ->
  runs (cleanable_at s_client s_config podAgeSeconds) (fun _ => True)
       (evictFailedPods s_config podAgeSeconds nodeName failedPods c)
       (fun _ _ => True).
Proof.
  induction failedPods as [|pod failedPods IH]; intros c Hall;
    cbn [evictFailedPods]; [by apply runs_ret|].
  apply Forall_cons in Hall as [[Hlisted Hfailed] Hall].
  eapply runs_bind; [by apply runs_evictFailedPod|]. intros c'.
  by apply IH.
Qed.

Lemma runs_getFailedPods P nodeName :
  runs P (fun _ => True) (getFailedPods s_client nodeName)
    (fun r _ => forall failedPods,
       r = inl failedPods ->
       Forall (fun pod => listed s_client pod /\ Pod.Phase pod = PodFailed)
              failedPods).
Proof.
  unfold getFailedPods.
  eapply runs_bind; [apply runs_listPodsOnNode|]. intros [items|err].
  - apply runs_ret. intros w Hlisted failedPods [= <-]. apply Forall_forall.
    intros pod [Hphase Hin]%list_elem_of_filter. split.
    + by eapply Hlisted.
    + by apply PodPhase_eqb_eq.
  - by apply runs_ret.
Qed.

Lemma runs_cleanNode node c :
  runs (cleanable_at s_client s_config podAgeSeconds) (fun _ => True)
       (cleanNode s_client s_config podAgeSeconds node c)
       (fun _ _ => True).
Proof.
  unfold cleanNode.
  eapply runs_bind; [apply runs_VInfof|]. intros ?.
  eapply runs_bind; [apply runs_getFailedPods|].
  intros [failedPods|err].
  - eapply runs_assume; [intros w Hall; exact (Hall failedPods eq_refl)|].
    intros Hall.
    eapply runs_bind; [apply runs_VInfof|]. intros ?.
    by apply runs_evictFailedPods.
  - eapply runs_bind; [apply runs_Errorf|]. intros ?. by apply runs_ret.
Qed.

Lemma runs_cleanNodes nodes : forall c,
  runs (cleanable_at s_client s_config podAgeSeconds) (fun _ => True)
       (cleanNodes s_client s_config podAgeSeconds nodes c)
       (fun _ _ => True).
Proof.
  induction nodes as [|node nodes IH]; intros c; cbn [cleanNodes];
    [by apply runs_ret|].
  eapply runs_bind; [apply runs_cleanNode|]. intros c'. apply IH.
Qed.

Lemma runs_RemoveFailedPods_Execute nodes :
  runs (cleanable_at s_client s_config podAgeSeconds) (fun _ => True)
       (Execute s_client s_config podAgeSeconds nodes)
       (fun err _ => err = None).
Proof.
  unfold Execute.
  eapply runs_bind; [apply runs_Infof|]. intros ?.
  eapply runs_bind; [apply runs_cleanNodes|]. intros c.
  eapply runs_bind; [apply runs_Infof|]. intros ?. by apply runs_ret.
Qed.

(** The same without the moment, for the cycle as a whole. *)
Lemma does_RemoveFailedPods_Execute nodes :
  does (failed_and_cleanable s_client s_config podAgeSeconds)
       (Execute s_client s_config podAgeSeconds nodes)
       (fun err => err = None).
Proof.
  intros w. destruct (runs_RemoveFailedPods_Execute nodes w I)
    as [Hacts Herr].
  split; [|exact Herr]. eapply acts_at_acts; [|exact Hacts].
  intros history pod (Hlisted & Hfailed & Hsafe & Hns & Hage & Hown).
  unfold failed_and_cleanable. split_and!; try done.
  intros Hmin. exists history. by apply Hage.
Qed.

(** A pod that is younger than the minimum lifetime at the moment
    shouldEvictPod is asked is refused. *)
Lemma shouldEvictPod_too_young pod w :
  0 < config.MinPodLifetimeSeconds s_config ->
  podAgeSeconds (trace w) pod < config.MinPodLifetimeSeconds s_config ->
  fst (shouldEvictPod s_config podAgeSeconds pod w) = false.
Proof.
  intros Hmin Hage. unfold shouldEvictPod.
  destruct (shouldProcessNamespace s_config (Pod.Namespace pod));
    cbn [negb]; [|done].
  unfold bind at 1. cbn [get_trace].
  apply Z.ltb_lt in Hmin, Hage. by rewrite Hmin, Hage.
Qed.

(** X15. RemoveFailedPods returns no error and changes the world only
    by log lines, list requests and calls of EvictPod, and it calls
    EvictPod on a pod only if the API listed the pod, its phase is
    Failed, none of the six conditions of CanEvictPod protects it, its
    namespace passes the filter, it has no owner of an excluded kind,
    and, when there is a minimum lifetime, its age as the clock gives it
    at the history of that very call, which is the history at which
    shouldEvictPod read it, has reached the minimum; a pod that is
    younger than the minimum at the moment shouldEvictPod is asked is
    refused. *)
Theorem RemoveFailedPods_evicts_cleanable_pods_only
    (nodes : list Node.t) (w : World) :
  fst (Execute s_client s_config podAgeSeconds nodes w) = None
  /\ acts_at (cleanable_at s_client s_config podAgeSeconds) w
       (snd (Execute s_client s_config podAgeSeconds nodes w))
  /\ forall pod w',
       0 < config.MinPodLifetimeSeconds s_config ->
       podAgeSeconds (trace w') pod < config.MinPodLifetimeSeconds s_config ->
       fst (shouldEvictPod s_config podAgeSeconds pod w') = false.
Proof.
  destruct (runs_RemoveFailedPods_Execute nodes w I) as [Hacts Herr].
  split_and!; [exact Herr|exact Hacts|].
  intros pod w'. apply shouldEvictPod_too_young.
Qed.

End RemoveFailedPods.

Section RemoveDuplicates.

Import strategies.

Variable s_client : Client.
Variable s_config : config.RemoveDuplicatesConfig.
Variable rangeGroups :
  gmap string (gmap string (list Pod.t))
  -> list (string * gmap string (list Pod.t)).
Variable rangeNodes1 rangeNodes2 :
  gmap string (list Pod.t) -> list (string * list Pod.t).

Lemma shouldProcessPod_true pod :
  shouldProcessPod s_config pod = true ->
  Pod.OwnerReferences pod <> []
  /\ owners_allowed (config.rd_ExcludeOwnerKinds s_config) pod.
Proof.
  unfold shouldProcessPod, owners_allowed, strategies.len.
  destruct (Pod.OwnerReferences pod) as [|o owners] eqn:Howners; [done|].
  destruct (Z.eqb_spec (Z.of_nat (length (o :: owners))) 0) as [Hz|_];
    [cbn [length] in Hz; lia|].
  destruct (0 <? Z.of_nat (length (config.rd_ExcludeOwnerKinds s_config)))
    eqn:Hex.
  - intros Hnone%negb_true_iff. split; [done|]. intros owner Hin.
    apply Contains_not_elem_of. apply not_true_iff_false. intros Hyes.
    apply not_true_iff_false in Hnone. apply Hnone.
    apply existsb_exists. exists owner. split; [|done].
    by apply list_elem_of_In.
  - intros _. split; [done|]. apply length_pos_nil in Hex. rewrite Hex.
    intros owner _. apply not_elem_of_nil.
Qed.

(** What getProcessablePods lets through. *)
Lemma does_getProcessablePods P nodeName :
  does P (getProcessablePods s_client s_config nodeName)
    (fun r => forall pods,
       r = inl pods ->
       Forall (fun pod =>
                 forall e, fst (CanEvictPod e pod) = true ->
                           running_and_replaceable s_client s_config pod)
              pods).
Proof.
  unfold getProcessablePods.
  eapply does_bind; [apply does_listPodsOnNode|]. intros [items|err] Hlisted.
  - apply does_ret. intros pods [= <-]. apply Forall_forall.
    intros pod [Hok Hin]%list_elem_of_filter e Hsafe.
    apply andb_true_iff in Hok as [[Hphase Hns]%andb_true_iff Hpod].
    apply shouldProcessPod_true in Hpod as [Howned Hkinds].
    unfold running_and_replaceable. split_and!; try done.
    + by eapply Hlisted.
    + by apply PodPhase_eqb_eq.
    + by eapply CanEvictPod_evictable.
    + by apply namespace_filter.
  - by apply does_ret.
Qed.

Lemma addToGroup_keeps (Q : Pod.t -> Prop) nodeName podGroups pod :
  Q pod ->
  map_Forall (fun _ nodePodsMap =>
                map_Forall (fun _ pods => Forall Q pods) nodePodsMap)
             podGroups ->
  map_Forall (fun _ nodePodsMap =>
                map_Forall (fun _ pods => Forall Q pods) nodePodsMap)
             (addToGroup nodeName podGroups pod).
Proof.
  intros HQ Hall. unfold addToGroup. cbv zeta.
  apply map_Forall_insert_2; [|done].
  assert (Hinner : map_Forall (fun _ pods => Forall Q pods)
                     (default ∅ (podGroups !! utils.GeneratePodSignature pod))).
  { destruct (podGroups !! utils.GeneratePodSignature pod) as [m|] eqn:Hm.
    - exact (Hall _ _ Hm).
    - apply map_Forall_empty. }
  apply map_Forall_insert_2; [|done].
  apply Forall_app. split; [|by apply Forall_singleton].
  destruct (default ∅ (podGroups !! utils.GeneratePodSignature pod)
              !! nodeName) as [pods|] eqn:Hpods.
  - exact (Hinner _ _ Hpods).
  - apply Forall_nil_2.
Qed.

Lemma addToGroup_fold (Q : Pod.t -> Prop) nodeName pods : forall podGroups,
  Forall Q pods ->
  map_Forall (fun _ nodePodsMap =>
                map_Forall (fun _ pods => Forall Q pods) nodePodsMap)
             podGroups ->
  map_Forall (fun _ nodePodsMap =>
                map_Forall (fun _ pods => Forall Q pods) nodePodsMap)
             (fold_left (addToGroup nodeName) pods podGroups).
Proof.
  induction pods as [|pod pods IH]; intros podGroups Hall Hgroups;
    cbn [fold_left]; [done|].
  apply Forall_cons in Hall as [HQ Hall].
  apply IH; [done|]. by apply addToGroup_keeps.
Qed.

Lemma does_groupPodsBySignatureFrom P nodes : forall podGroups,
  map_Forall (fun _ nodePodsMap =>
                map_Forall
                  (fun _ pods =>
                     Forall (fun pod =>
                               forall e, fst (CanEvictPod e pod) = true ->
                                         running_and_replaceable
                                           s_client s_config pod)
                            pods)
                  nodePodsMap)
             podGroups ->
  does P (groupPodsBySignatureFrom s_client s_config nodes podGroups)
    (fun r => forall groups,
       r = inl groups ->
       map_Forall (fun _ nodePodsMap =>
                     map_Forall
                       (fun _ pods =>
                          Forall (fun pod =>
                                    forall e,
                                      fst (CanEvictPod e pod) = true ->
                                      running_and_replaceable
                                        s_client s_config pod)
                                 pods)
                       nodePodsMap)
                  groups).
Proof.
  induction nodes as [|node nodes IH]; intros podGroups Hgroups;
    cbn [groupPodsBySignatureFrom].
  - apply does_ret. by intros groups [= <-].
  - eapply does_bind; [apply does_VInfof|]. intros _ _.
    eapply does_bind; [apply does_getProcessablePods|].
    intros [pods|err] Hpods.
    + apply IH. apply addToGroup_fold; [by apply Hpods|done].
    + by apply does_ret.
Qed.

Lemma does_evictDuplicate nodeName pod c :
  (forall e, fst (CanEvictPod e pod) = true ->
             running_and_replaceable s_client s_config pod) ->
  does (running_and_replaceable s_client s_config)
       (evictDuplicate nodeName pod c) (fun _ => True).
Proof.
  intros Hpod. unfold evictDuplicate, canEvictPod.
  eapply does_bind; [apply does_get_evictor|]. intros e _.
  specialize (Hpod e).
  destruct (CanEvictPod e pod) as [[|] why]; cbn [negb fst] in *.
  - eapply does_bind; [apply does_EvictPod; by apply Hpod|].
    intros [err|] _.
    + eapply does_bind; [apply does_Errorf|]. intros _ _. by apply does_ret.
    + eapply does_bind; [apply does_VInfof|]. intros _ _. by apply does_ret.
  - eapply does_bind; [apply does_VInfof|]. intros _ _. by apply does_ret.
Qed.

Lemma does_evictDuplicatesFrom nodeName sortedPods rounds : forall i c,
  Forall (fun pod =>
            forall e, fst (CanEvictPod e pod) = true ->
                      running_and_replaceable s_client s_config pod)
         sortedPods ->
  does (running_and_replaceable s_client s_config)
       (evictDuplicatesFrom rounds i nodeName sortedPods c) (fun _ => True).
Proof.
  induction rounds as [|rounds IH]; intros i c Hall;
    cbn [evictDuplicatesFrom]; [by apply does_ret|].
  destruct (sortedPods !! i) as [pod|] eqn:Hi; [|by apply does_ret].
  eapply does_bind.
  { apply does_evictDuplicate.
    exact (proj1 (Forall_lookup _ _) Hall i pod Hi). }
  intros c' _. by apply IH.
Qed.

Lemma does_processDuplicateNode nodePodsMap nodeName c :
  map_Forall
    (fun _ pods =>
       Forall (fun pod =>
                 forall e, fst (CanEvictPod e pod) = true ->
                           running_and_replaceable s_client s_config pod)
              pods)
    nodePodsMap ->
  does (running_and_replaceable s_client s_config)
       (processDuplicateNode nodePodsMap nodeName c) (fun _ => True).
Proof.
  intros Hall. unfold processDuplicateNode. cbv zeta.
  destruct (strategies.len (default [] (nodePodsMap !! nodeName)) <=? 1);
    [by apply does_ret|].
  apply does_evictDuplicatesFrom.
  rewrite (proj2 (sortPodsByAge_sorted _)).
  destruct (nodePodsMap !! nodeName) as [pods|] eqn:Hpods.
  - exact (Hall _ _ Hpods).
  - apply Forall_nil_2.
Qed.

Lemma does_processDuplicateNodes nodePodsMap duplicateNodes : forall c,
  map_Forall
    (fun _ pods =>
       Forall (fun pod =>
                 forall e, fst (CanEvictPod e pod) = true ->
                           running_and_replaceable s_client s_config pod)
              pods)
    nodePodsMap ->
  does (running_and_replaceable s_client s_config)
       (processDuplicateNodes nodePodsMap duplicateNodes c) (fun _ => True).
Proof.
  induction duplicateNodes as [|nodeName rest IH]; intros c Hall;
    cbn [processDuplicateNodes]; [by apply does_ret|].
  eapply does_bind; [by apply does_processDuplicateNode|].
  intros c' _. by apply IH.
Qed.

Lemma does_processGroup signature nodePodsMap c :
  map_Forall
    (fun _ pods =>
       Forall (fun pod =>
                 forall e, fst (CanEvictPod e pod) = true ->
                           running_and_replaceable s_client s_config pod)
              pods)
    nodePodsMap ->
  does (running_and_replaceable s_client s_config)
       (processGroup rangeNodes1 rangeNodes2 signature nodePodsMap c)
       (fun _ => True).
Proof.
  intros Hall. unfold processGroup.
  eapply does_bind; [apply does_VInfof|]. intros _ _. cbv zeta.
  destruct (strategies.len _ =? 0); [by apply does_ret|].
  eapply does_bind; [apply does_VInfof|]. intros _ _.
  by apply does_processDuplicateNodes.
Qed.

Lemma does_processGroups groups : forall c,
  Forall (fun '(_, nodePodsMap) =>
            map_Forall
              (fun _ pods =>
                 Forall (fun pod =>
                           forall e, fst (CanEvictPod e pod) = true ->
                                     running_and_replaceable
                                       s_client s_config pod)
                        pods)
              nodePodsMap)
         groups ->
  does (running_and_replaceable s_client s_config)
       (processGroups rangeNodes1 rangeNodes2 groups c) (fun _ => True).
Proof.
  induction groups as [|[signature nodePodsMap] groups IH]; intros c Hall;
    cbn [processGroups]; [by apply does_ret|].
  apply Forall_cons in Hall as [Hgroup Hall].
  eapply does_bind; [by apply does_processGroup|].
  intros c' _. by apply IH.
Qed.

Lemma does_RemoveDuplicates_Execute nodes :
  (forall podGroups signature nodePodsMap,
     (signature, nodePodsMap) ∈ rangeGroups podGroups ->
     podGroups !! signature = Some nodePodsMap) ->
  does (running_and_replaceable s_client s_config)
       (Execute s_client s_config rangeGroups rangeNodes1 rangeNodes2 nodes)
       (fun _ => True).
Proof.
  intros Hrange. unfold Execute, groupPodsBySignature.
  eapply does_bind; [apply does_Infof|]. intros _ _.
  eapply does_bind.
  { apply does_groupPodsBySignatureFrom. apply map_Forall_empty. }
  intros [groups|err] Hgroups; [|by apply does_ret].
  eapply does_bind; [apply does_VInfof|]. intros _ _.
  eapply does_bind.
  { apply does_processGroups. apply Forall_forall.
    intros [signature nodePodsMap] Hin%Hrange.
    exact (Hgroups groups eq_refl _ _ Hin). }
  intros c _. eapply does_bind; [apply does_Infof|]. intros _ _.
  by apply does_ret.
Qed.

(** X16. RemoveDuplicates changes the world only by log lines, list
    requests and calls of EvictPod, and, when the range over the groups
    visits entries of the map, it calls EvictPod only on pods that the
    API listed, that are in phase Running, that none of the six
    conditions of CanEvictPod protects, whose namespace passes the
    filter, and that have an owner and none of an excluded kind. When it
    returns an error, because a list request failed, it has called
    EvictPod on no pod at all. *)
Theorem RemoveDuplicates_evicts_replaceable_pods_only
    (nodes : list Node.t) (w : World) :
  (forall podGroups signature nodePodsMap,
     (signature, nodePodsMap) ∈ rangeGroups podGroups ->
     podGroups !! signature = Some nodePodsMap) ->
  let run :=
    Execute s_client s_config rangeGroups rangeNodes1 rangeNodes2 nodes w in
  acts (running_and_replaceable s_client s_config) w (snd run)
  /\ (fst run <> None -> acts (fun _ => False) w (snd run)).
Proof.
  intros Hrange run.
  pose (w1 := logged w (Log Info 0 (fmt.Sprintf "Executing %s strategy"
                                      [fmt.AStr Name]))).
  pose (rest := fun groups : gmap string (gmap string (list Pod.t)) =>
          VInfof 2 "Found %d unique pod signatures"
            [fmt.AInt (Z.of_nat (size groups))];;
          do c <- processGroups rangeNodes1 rangeNodes2 (rangeGroups groups)
                    {| dup_evictedCount := 0; dup_skippedCount := 0 |};
          Infof "RemoveDuplicates strategy completed. Evicted: %d, Skipped: %d"
            [fmt.AInt (dup_evictedCount c); fmt.AInt (dup_skippedCount c)];;
          ret (@None string)).
  assert (Hrun : run
                 = let (grouped, w2) :=
                     groupPodsBySignatureFrom s_client s_config nodes ∅ w1 in
                   match grouped with
                   | inl groups => rest groups w2
                   | inr err =>
                       (Some (fmt.Sprintf
                                "failed to group pods by signature: %v"
                                [fmt.AStr err]), w2)
                   end).
  { subst run. unfold Execute, groupPodsBySignature.
    unfold bind at 1. unfold Infof at 1, emit at 1. unfold bind at 1.
    unfold w1, logged.
    destruct (groupPodsBySignatureFrom _ _ _ _ _) as [[?|?] ?]; reflexivity. }
  rewrite Hrun. clear Hrun run.
  assert (Hw1 : forall P, acts P w w1).
  { intros P. apply (acts_event P w w); [apply acts_done|done]. }
  assert (Hempty :
            map_Forall
              (fun _ nodePodsMap =>
                 map_Forall
                   (fun _ pods =>
                      Forall (fun pod =>
                                forall e, fst (CanEvictPod e pod) = true ->
                                          running_and_replaceable
                                            s_client s_config pod)
                             pods)
                   nodePodsMap)
              (∅ : gmap string (gmap string (list Pod.t))))
    by apply map_Forall_empty.
  pose proof (fun P => does_groupPodsBySignatureFrom P nodes ∅ Hempty w1)
    as Hgroup.
  destruct (groupPodsBySignatureFrom s_client s_config nodes ∅ w1)
    as [[groups|err] w2]; cbn [fst snd] in Hgroup.
  - destruct (Hgroup (running_and_replaceable s_client s_config))
      as [Hacts Hgroups].
    specialize (Hgroups groups eq_refl).
    assert (Hrest : does (running_and_replaceable s_client s_config)
                      (rest groups) (fun err => err = None)).
    { unfold rest.
      eapply does_bind; [apply does_VInfof|]. intros _ _.
      eapply does_bind.
      { apply does_processGroups. apply Forall_forall.
        intros [signature nodePodsMap] Hin%Hrange.
        exact (Hgroups _ _ Hin). }
      intros c _. eapply does_bind; [apply does_Infof|]. intros _ _.
      by apply does_ret. }
    destruct (Hrest w2) as [Hacts2 Hnone]. split.
    + eapply acts_trans; [apply Hw1|]. by eapply acts_trans.
    + intros Herr. by rewrite Hnone in Herr.
  - cbn [fst snd]. split.
    + eapply acts_trans; [apply Hw1|]. apply Hgroup.
    + intros _. eapply acts_trans; [apply Hw1|]. apply Hgroup.
Qed.

Lemma processDuplicateNodes_single nodePodsMap duplicateNodes : forall c w,
  map_Forall (fun _ pods => (length pods <= 1)%nat) nodePodsMap ->
  processDuplicateNodes nodePodsMap duplicateNodes c w = (c, w).
Proof.
  induction duplicateNodes as [|nodeName rest IH]; intros c w Hone;
    cbn [processDuplicateNodes]; [done|].
  unfold bind, processDuplicateNode. cbv zeta.
  assert (Hlen : (length (default [] (nodePodsMap !! nodeName)) <= 1)%nat).
  { destruct (nodePodsMap !! nodeName) as [pods|] eqn:Hpods.
    - exact (Hone _ _ Hpods).
    - cbn. lia. }
  destruct (Z.leb_spec (strategies.len (default [] (nodePodsMap !! nodeName)))
              1) as [_|Hmore]; [|unfold strategies.len in Hmore; lia].
  unfold ret at 1. by apply IH.
Qed.

(** X17. A signature group with at most one pod on each node is left
    alone, on however many nodes it lives and in whatever order the
    ranges visit them: the counters come back unchanged, the evictor is
    not touched and nothing but log lines is added to the trace. Pods of
    one signature spread over several nodes are no duplicates for this
    strategy. *)
Theorem one_pod_per_node_is_left_alone
    (signature : string) (nodePodsMap : gmap string (list Pod.t))
    (c : DupCounters) (w : World) :
  map_Forall (fun _ pods => (length pods <= 1)%nat) nodePodsMap ->
  exists lines,
    processGroup rangeNodes1 rangeNodes2 signature nodePodsMap c w
    = (c, extended w lines)
    /\ Forall (fun ev => exists v line, ev = Log Info v line) lines.
Proof.
  intros Hone. unfold processGroup.
  unfold bind at 1. unfold VInfof at 1, emit at 1. cbv zeta.
  destruct (strategies.len _ =? 0).
  - eexists [_]. split; [reflexivity|].
    apply Forall_singleton. by eexists _, _.
  - unfold bind at 1. unfold VInfof at 1, emit at 1. cbn [evictor trace].
    rewrite processDuplicateNodes_single by done.
    eexists [_; _]. unfold extended. rewrite <- app_assoc.
    split; [reflexivity|].
    apply Forall_cons; split; [by eexists _, _|].
    apply Forall_singleton. by eexists _, _.
Qed.

End RemoveDuplicates.

Section LowNodeUtilization.

Import strategies.

Variable s_client : Client.
Variable s_config : config.LowNodeUtilizationConfig.

Lemma PodPhase_eqb_false a b : PodPhase_eqb a b = false -> a <> b.
Proof.
  intros Hne Heq. apply PodPhase_eqb_eq in Heq. congruence.
Qed.

Lemma does_getEvictablePodsOnNode P nodeName :
  does P (getEvictablePodsOnNode s_client nodeName)
    (fun r => forall pods,
       r = inl pods ->
       Forall (fun pod => active_and_evictable s_client pod
                          /\ forall e, fst (CanEvictPod e pod) = true)
              pods).
Proof.
  unfold getEvictablePodsOnNode, getPodsOnNode.
  eapply does_bind; [apply does_listPodsOnNode|]. intros [items|err] Hlisted.
  - eapply does_bind; [apply does_get_evictor|]. intros e _.
    apply does_ret. intros pods [= <-]. apply Forall_forall.
    intros pod [Hok Hin]%list_elem_of_filter.
    apply andb_true_iff in Hok as [Hphase Hsafe].
    apply negb_true_iff, orb_false_iff in Hphase as [Hs Hf].
    split; [|intros e'; exact Hsafe].
    unfold active_and_evictable. split_and!.
    + by eapply Hlisted.
    + by apply PodPhase_eqb_false.
    + by apply PodPhase_eqb_false.
    + by eapply CanEvictPod_evictable.
  - by apply does_ret.
Qed.

Lemma does_evictFromNode nodeUtil cap sortedPods : forall c,
  Forall (fun pod => active_and_evictable s_client pod
                     /\ forall e, fst (CanEvictPod e pod) = true)
         sortedPods ->
  does (active_and_evictable s_client)
       (evictFromNode nodeUtil cap sortedPods c)
       (fun c' => skippedCount c' = skippedCount c).
Proof.
  induction sortedPods as [|pod sortedPods IH]; intros c Hall;
    cbn [evictFromNode]; [by apply does_ret|].
  apply Forall_cons in Hall as [[Hpod Hsafe] Hall].
  destruct (cap <=? evicted c); [by apply does_ret|].
  eapply does_bind; [apply does_get_evictor|]. intros e _.
  specialize (Hsafe e).
  destruct (CanEvictPod e pod) as [yes why]. cbn [fst] in Hsafe. subst yes.
  cbn [negb].
  eapply does_bind; [by apply does_EvictPod|]. intros [err|] _.
  - eapply does_bind; [apply does_Errorf|]. intros _ _. by apply IH.
  - eapply does_bind; [apply does_VInfof|]. intros _ _.
    eapply does_weaken; [by apply IH|]. by intros c'.
Qed.

Lemma does_evictFromOverUtilizedNode nodeUtil c :
  does (active_and_evictable s_client)
       (evictFromOverUtilizedNode s_client s_config nodeUtil c)
       (fun c' => skippedCount c' = skippedCount c).
Proof.
  unfold evictFromOverUtilizedNode.
  eapply does_bind; [apply does_VInfof|]. intros _ _.
  eapply does_bind; [apply does_getEvictablePodsOnNode|].
  intros [evictablePods|err] Hall.
  - cbv zeta. eapply does_bind.
    { apply does_evictFromNode.
      rewrite sortPodsByPriority_perm.
      by apply Hall. }
    intros c' Hskip. cbn [skippedCount] in Hskip.
    eapply does_bind; [apply does_VInfof|]. intros _ _. by apply does_ret.
  - eapply does_bind; [apply does_Errorf|]. intros _ _. by apply does_ret.
Qed.

Lemma does_evictFromOverUtilizedNodes overUtilizedNodes : forall c,
  does (active_and_evictable s_client)
       (evictFromOverUtilizedNodes s_client s_config overUtilizedNodes c)
       (fun c' => skippedCount c' = skippedCount c).
Proof.
  induction overUtilizedNodes as [|nodeUtil rest IH]; intros c;
    cbn [evictFromOverUtilizedNodes]; [by apply does_ret|].
  eapply does_bind; [apply does_evictFromOverUtilizedNode|].
  intros c' Hskip. eapply does_weaken; [apply IH|].
  intros c'' Hskip'. congruence.
Qed.

Lemma does_evictPodsFromOverUtilizedNodes overUtilizedNodes lowUtilizedNodes :
  does (active_and_evictable s_client)
       (evictPodsFromOverUtilizedNodes s_client s_config overUtilizedNodes
          lowUtilizedNodes)
       (fun err => err = None).
Proof.
  unfold evictPodsFromOverUtilizedNodes.
  eapply does_bind; [apply does_evictFromOverUtilizedNodes|]. intros c _.
  eapply does_bind; [apply does_Infof|]. intros _ _. by apply does_ret.
Qed.

(** X18. The candidates of a node have passed CanEvictPod when they
    were collected, and CanEvictPod does not depend on what has been
    evicted since, so the second check in the eviction loop never fails:
    the skipped count that the strategy reports in its last line is
    always 0. *)
Theorem LowNodeUtilization_reports_no_skipped_pod
    (overUtilizedNodes lowUtilizedNodes : list utils.NodeResourceUtilization)
    (w : World) :
  exists earlier evictedCount,
    trace (snd (evictPodsFromOverUtilizedNodes s_client s_config
                  overUtilizedNodes lowUtilizedNodes w))
    = earlier
      ++ [Log Info 0
            (fmt.Sprintf
               "LowNodeUtilization strategy completed. Evicted: %d, Skipped: %d"
               [fmt.AInt evictedCount; fmt.AInt 0])].
Proof.
  unfold evictPodsFromOverUtilizedNodes. unfold bind at 1.
  destruct (does_evictFromOverUtilizedNodes overUtilizedNodes
              {| evicted := 0; evictedCount := 0; skippedCount := 0 |} w)
    as [_ Hskip].
  destruct (evictFromOverUtilizedNodes s_client s_config overUtilizedNodes _ w)
    as [c w1].
  cbn [fst skippedCount] in Hskip.
  unfold bind, Infof, emit, ret. cbn [snd trace].
  exists (trace w1), (strategies.evictedCount c). by rewrite Hskip.
Qed.

End LowNodeUtilization.

(** X19. Whatever a run of such steps is made of, it keeps the client,
    the configuration and the grace period of the evictor; every
    eviction request it adds is the one EvictPod builds for a pod of
    [P]; counters that were integers within the limits still are; and
    in dry-run mode it adds no eviction request at all. *)
Theorem steps_through_EvictPod_are_safe
    (P : Pod.t -> Prop) (w w' : World) :
  acts P w w' ->
  same_settings (evictor w) (evictor w')
  /\ (exists new,
        trace w' = trace w ++ new
        /\ forall ev, ev ∈ apiEvictions new ->
                      exists pod, P pod /\ ev = evictionOf (evictor w) pod)
  /\ (quota_inv (evictor w) ->
      within_limits (config.Limits (config (evictor w))) (stats (evictor w')))
  /\ (config.DryRun (config (evictor w)) = true ->
      apiEvictions (trace w') = apiEvictions (trace w)).
Proof.
  intros Hacts. split_and!.
  - by eapply acts_settings.
  - by eapply acts_requests.
  - intros Hinv. destruct (acts_settings _ _ _ Hacts) as (_ & Hcfg & _).
    rewrite <- Hcfg. by apply (acts_quota_inv _ _ _ Hacts Hinv).
  - by eapply acts_dry_run.
Qed.

#[local] Transparent fmt.Sprintf.

End StrategyEffects.

(** ** The scheduler: node selection, the cycle and the loop *)

Section SchedulerFacts.

Import eviction cycle scheduler.
Local Open Scope evict_scope.

#[local] Opaque fmt.Sprintf.

Variable s_client : Client.
Variable s_config : config.Config.
Variable DurationString : Z -> string.
Variable Since : list Event -> Z.
Variable rangeStats : gmap string Z -> list (string * Z).

(** X20. A node matches the node selector exactly when every entry of
    the selector is a label of the node with the same value; the order
    in which the selector is ranged over plays no part, and every node
    matches the empty selector. *)
Theorem node_matches_when_selector_is_among_labels (node : Node.t) :
  nodeMatchesSelector s_config node = true
  <-> config.NodeSelector s_config ⊆ Node.Labels node.
Proof.
  unfold nodeMatchesSelector. rewrite forallb_forall, map_subseteq_spec.
  split.
  - intros Hall key value Hkv.
    apply elem_of_map_to_list, list_elem_of_In in Hkv.
    specialize (Hall _ Hkv). cbn in Hall.
    destruct (Node.Labels node !! key) as [nodeValue|]; [|done].
    by apply String.eqb_eq in Hall as ->.
  - intros Hsub [key value] Hin%list_elem_of_In%elem_of_map_to_list.
    rewrite (Hsub _ _ Hin). apply String.eqb_refl.
Qed.

Lemma selectNodes_spec nodes : forall filteredNodes w,
  selectNodes s_config nodes filteredNodes w
  = (filteredNodes ++ List.filter (nodeMatchesSelector s_config) nodes,
     extended w (map (selectorLine s_config) nodes)).
Proof.
  induction nodes as [|node nodes IH]; intros filteredNodes w.
  { cbn. unfold ret, extended. rewrite !app_nil_r. by destruct w. }
  cbn [selectNodes map List.filter]. unfold selectorLine at 1.
  destruct (nodeMatchesSelector s_config node).
  - unfold bind, VInfof, emit. rewrite IH.
    unfold extended. cbn [evictor trace]. by rewrite <- !app_assoc.
  - unfold bind, VInfof, emit. rewrite IH.
    unfold extended. cbn [evictor trace]. by rewrite <- !app_assoc.
Qed.

Lemma filter_all {A} (f : A -> bool) (l : list A) :
  (forall a, f a = true) -> List.filter f l = l.
Proof.
  intros Hall. induction l as [|a l IH]; [done|]. cbn [List.filter].
  by rewrite Hall, IH.
Qed.

(** X21. filterNodesBySelector returns the nodes that match the
    selector, in their order, and leaves the evictor alone: without a
    selector it returns all nodes and logs nothing, with one it logs one
    line per node. *)
Theorem filterNodesBySelector_keeps_the_matching_nodes
    (nodes : list Node.t) (w : World) :
  filterNodesBySelector s_config nodes w
  = (List.filter (nodeMatchesSelector s_config) nodes,
     extended w (if decide (config.NodeSelector s_config = ∅) then []
                 else map (selectorLine s_config) nodes)).
Proof.
  unfold filterNodesBySelector.
  destruct (Z.eqb_spec (Z.of_nat (size (config.NodeSelector s_config))) 0)
    as [Hzero|Hsome].
  - assert (Hempty : config.NodeSelector s_config = ∅)
      by (apply map_size_empty_inv; lia).
    rewrite decide_True by done.
    rewrite filter_all.
    + unfold ret, extended. rewrite app_nil_r. by destruct w.
    + intros node. unfold nodeMatchesSelector.
      by rewrite Hempty, map_to_list_empty.
  - rewrite decide_False.
    + by rewrite selectNodes_spec.
    + intros Hempty. rewrite Hempty, map_size_empty in Hsome. lia.
Qed.

(** X22. The loop getAvailableNodes runs over the listed nodes selects
    what utils.FilterReadySchedulableNodes selects, in the same order;
    it sends one list request, logs one line per node and leaves the
    evictor alone, and it passes on the error of a failed list request
    without logging. *)
Theorem getAvailableNodes_selects_ready_schedulable_nodes (w : World) :
  getAvailableNodes s_client w
  = match ListNodes s_client (trace w) with
    | inl items =>
        (inl (utils.FilterReadySchedulableNodes items),
         extended w (ApiListNodes :: map availabilityLine items))
    | inr err => (inr err, logged w ApiListNodes)
    end.
Proof.
  unfold getAvailableNodes. unfold bind at 1. cbn [get_trace].
  unfold bind at 1. unfold emit at 1.
  destruct (ListNodes s_client (trace w)) as [items|err]; [|done].
  unfold bind. rewrite availableNodes_spec. unfold ret, extended.
  cbn [evictor trace app]. by rewrite <- app_assoc.
Qed.

Lemma does_printEntries P entries :
  does P (printEntries entries) (fun _ => True).
Proof.
  induction entries as [|[key count] entries IH]; cbn [printEntries];
    [by apply does_ret|].
  eapply does_bind; [apply does_Infof|]. intros _ _. apply IH.
Qed.

Lemma does_printBreakdown P title m :
  does P (printBreakdown rangeStats title m) (fun _ => True).
Proof.
  unfold printBreakdown. destruct (0 <? Z.of_nat (size m));
    [|by apply does_ret].
  eapply does_bind; [apply does_Infof|]. intros _ _. apply does_printEntries.
Qed.

Lemma does_printCycleStats P :
  does P (printCycleStats DurationString Since rangeStats) (fun _ => True).
Proof.
  unfold printCycleStats.
  eapply does_bind; [apply does_get_trace|]. intros history _.
  eapply does_bind; [apply does_get_evictor|]. intros e _. cbv zeta.
  repeat (eapply does_bind; [apply does_Infof|]; intros _ _).
  repeat (eapply does_bind; [apply does_printBreakdown|]; intros _ _).
  apply does_printBreakdown.
Qed.

Lemma does_runStrategies P strategies nodes :
  (forall s, s ∈ strategies -> IsEnabled s = true ->
             does P (Execute s nodes) (fun _ => True)) ->
  does P (runStrategies DurationString Since strategies nodes)
       (fun _ => True).
Proof.
  induction strategies as [|s strategies IH]; intros Hall;
    cbn [runStrategies]; [by apply does_ret|].
  assert (Hrest : does P (runStrategies DurationString Since strategies nodes)
                    (fun _ => True)).
  { apply IH. intros s' Hin. apply Hall. by right. }
  destruct (IsEnabled s) eqn:Hen; cbn [negb]; [|exact Hrest].
  eapply does_bind; [apply does_Infof|]. intros _ _.
  eapply does_bind; [apply Hall; [by left|done]|]. intros [err|] _.
  - eapply does_bind; [apply does_Errorf|]. intros _ _. exact Hrest.
  - eapply does_bind; [apply does_get_trace|]. intros history _.
    eapply does_bind; [apply does_Infof|]. intros _ _. exact Hrest.
Qed.

Lemma does_availableNodes P items : forall availableNodes_,
  does P (availableNodes items availableNodes_) (fun _ => True).
Proof.
  induction items as [|node items IH]; intros acc; cbn [availableNodes];
    [by apply does_ret|].
  destruct (utils.IsReadyNode node && utils.IsSchedulableNode node);
    (eapply does_bind; [apply does_VInfof|]); intros _ _; apply IH.
Qed.

Lemma does_getAvailableNodes P :
  does P (getAvailableNodes s_client) (fun _ => True).
Proof.
  unfold getAvailableNodes.
  eapply does_bind; [apply does_get_trace|]. intros history _.
  eapply does_bind; [by apply does_emit|]. intros _ _.
  destruct (ListNodes s_client history) as [items|err]; [|by apply does_ret].
  eapply does_bind; [apply does_availableNodes|]. intros nodes _.
  by apply does_ret.
Qed.

Lemma does_selectNodes P nodes : forall filteredNodes,
  does P (selectNodes s_config nodes filteredNodes) (fun _ => True).
Proof.
  induction nodes as [|node nodes IH]; intros acc; cbn [selectNodes];
    [by apply does_ret|].
  destruct (nodeMatchesSelector s_config node);
    (eapply does_bind; [apply does_VInfof|]); intros _ _; apply IH.
Qed.

Lemma does_filterNodesBySelector P nodes :
  does P (filterNodesBySelector s_config nodes) (fun _ => True).
Proof.
  unfold filterNodesBySelector.
  destruct (Z.of_nat (size (config.NodeSelector s_config)) =? 0);
    [by apply does_ret|apply does_selectNodes].
Qed.

Lemma runOnce_from_reset P strategies w :
  (forall s nodes, s ∈ strategies -> IsEnabled s = true ->
                   does P (Execute s nodes) (fun _ => True)) ->
  acts P (afterReset w)
       (snd (runOnce s_client s_config strategies DurationString Since
                     rangeStats w)).
Proof.
  intros Hall. unfold runOnce.
  unfold bind at 1. unfold Infof at 1, emit at 1.
  unfold bind at 1. unfold ResetStats, modify_stats. cbn [evictor trace].
  set (w1 := {| evictor := _; trace := _ |}).
  assert (Hw1 : acts P (afterReset w) w1).
  { change w1 with (logged (afterReset w)
                      (Log Info 0 (fmt.Sprintf
                                     "=== Starting descheduling cycle ==="
                                     []))).
    by apply acts_event; [apply acts_done|]. }
  eapply acts_trans; [exact Hw1|].
  assert (Hrest :
    does P
      (do listed <- getAvailableNodes s_client;
       match listed with
       | inr err =>
           ret (Some (fmt.Sprintf "failed to get available nodes: %v"
                        [fmt.AStr err]))
       | inl nodes =>
           Infof "Found %d available nodes" [fmt.AInt (len nodes)];;
           if len nodes <? 2 then
             Infof
               "Need at least 2 nodes for descheduling, found %d. Skipping cycle."
               [fmt.AInt (len nodes)];;
             ret None
           else
             do filteredNodes <- filterNodesBySelector s_config nodes;
             Infof "After node selector filtering: %d nodes"
               [fmt.AInt (len filteredNodes)];;
             if len filteredNodes =? 0 then
               Infof "No nodes match the node selector. Skipping cycle." [];;
               ret None
             else
               runStrategies DurationString Since strategies filteredNodes;;
               printCycleStats DurationString Since rangeStats;;
               Infof "=== Descheduling cycle completed ===" [];;
               ret None
       end)
      (fun _ => True)).
  { eapply does_bind; [apply does_getAvailableNodes|].
    intros [nodes|err] _; [|by apply does_ret].
    eapply does_bind; [apply does_Infof|]. intros _ _.
    destruct (len nodes <? 2).
    { eapply does_bind; [apply does_Infof|]. intros _ _. by apply does_ret. }
    eapply does_bind; [apply does_filterNodesBySelector|].
    intros filteredNodes _.
    eapply does_bind; [apply does_Infof|]. intros _ _.
    destruct (len filteredNodes =? 0).
    { eapply does_bind; [apply does_Infof|]. intros _ _. by apply does_ret. }
    eapply does_bind.
    { apply does_runStrategies. intros s Hin Hen. by apply Hall. }
    intros _ _.
    eapply does_bind; [apply does_printCycleStats|]. intros _ _.
    eapply does_bind; [apply does_Infof|]. intros _ _. by apply does_ret. }
  apply Hrest.
Qed.

(** X23. A cycle reaches the evictor through its strategies only: when
    every enabled strategy changes the world by log lines, list requests
    and calls of EvictPod on pods of [P], so does the whole cycle from
    the reset that opens it, and at its end the statistics are within
    every limit that is switched on, whatever they were before. *)
Theorem cycle_stays_within_the_limits
    (P : Pod.t -> Prop) (strategies : list Strategy) (w : World) :
  limits_are_ints (config.Limits (config (evictor w))) ->
  (forall s nodes, s ∈ strategies -> IsEnabled s = true ->
                   does P (Execute s nodes) (fun _ => True)) ->
  let w' := snd (runOnce s_client s_config strategies DurationString Since
                         rangeStats w) in
  acts P (afterReset w) w'
  /\ within_limits (config.Limits (config (evictor w))) (stats (evictor w')).
Proof.
  intros Hints Hall. cbv zeta.
  pose proof (runOnce_from_reset P strategies w Hall) as Hacts.
  split; [exact Hacts|].
  destruct (acts_settings _ _ _ Hacts) as (_ & Hcfg & _).
  assert (Hinv : quota_inv (evictor (afterReset w)))
    by (by apply quota_inv_zeroStats).
  apply (acts_quota_inv _ _ _ Hacts) in Hinv as (_ & _ & Hw).
  rewrite Hcfg in Hw. exact Hw.
Qed.

Lemma bind_ext {A B} (m : M A) (k k' : A -> M B) (w : World) :
  (forall a w', k a w' = k' a w') -> bind m k w = bind m k' w.
Proof. intros Hk. unfold bind. destruct (m w). apply Hk. Qed.

(** X24. Strategies that are switched off are never executed: a cycle
    runs the enabled strategies as if the others were not there. *)
Theorem disabled_strategies_are_not_run
    (strategies : list Strategy) (nodes : list Node.t) (w : World) :
  runStrategies DurationString Since strategies nodes w
  = runStrategies DurationString Since (List.filter IsEnabled strategies)
                  nodes w.
Proof.
  revert w. induction strategies as [|s strategies IH]; intros w; [done|].
  cbn [runStrategies List.filter].
  destruct (IsEnabled s) eqn:Hen; cbn [negb]; [|apply IH].
  cbn [runStrategies]. rewrite Hen. cbn [negb].
  apply bind_ext. intros _ w1. apply bind_ext. intros [err|] w2.
  - apply bind_ext. intros _ w3. apply IH.
  - apply bind_ext. intros history w3. apply bind_ext. intros _ w4. apply IH.
Qed.

Lemma runLoop_result strategies signals : forall w,
  fst (runLoop s_client s_config strategies DurationString Since rangeStats
               signals w)
  = match cancellation signals with
    | Some ctxErr => Returned (Some ctxErr)
    | None => Waiting
    end.
Proof.
  induction signals as [|[ctxErr|] signals IH]; intros w;
    cbn [runLoop cancellation]; [done|done|].
  unfold bind at 1.
  destruct (runOnce s_client s_config strategies DurationString Since
                    rangeStats w) as [[err|] w1].
  - unfold bind. unfold Errorf, emit. apply IH.
  - apply IH.
Qed.

(** X25. With a positive interval Run never returns on its own and no
    failing cycle stops it: it returns the error of the context at the
    first cancellation among the signals, and is still waiting when
    there is none, whatever the cycles did. *)
Theorem Run_stops_only_on_cancellation
    (strategies : list Strategy) (signals : list Signal) (w : World) :
  0 < config.Interval s_config ->
  fst (Run s_client s_config strategies DurationString Since rangeStats
           signals w)
  = match cancellation signals with
    | Some ctxErr => Returned (Some ctxErr)
    | None => Waiting
    end.
Proof.
  intros Hpos. rewrite Run_startup.
  destruct (Z.eqb_spec (config.Interval s_config) 0); [lia|].
  destruct (Z.ltb_spec (config.Interval s_config) 0); [lia|].
  unfold bind at 1.
  destruct (runOnce s_client s_config strategies DurationString Since
                    rangeStats _) as [[err|] w1].
  - unfold bind. unfold Errorf, emit. apply runLoop_result.
  - unfold bind, ret. apply runLoop_result.
Qed.

(** X26. The one-shot mode cannot be reached from a configuration
    file: with a configuration that LoadConfig returned, Run does not
    return after its first cycle but goes on until the first
    cancellation among the signals, whose error it returns. *)
Theorem loaded_configuration_never_runs_once
    (parsed : config.Config) (strategies : list Strategy)
    (signals : list Signal) (w : World) :
  config.LoadConfig parsed = inl s_config ->
  fst (Run s_client s_config strategies DurationString Since rangeStats
           signals w)
  = match cancellation signals with
    | Some ctxErr => Returned (Some ctxErr)
    | None => Waiting
    end.
Proof.
  intros Hint%LoadConfig_interval.
  assert (Hmin : 0 < config.Minute) by reflexivity.
  rewrite Run_startup.
  destruct (Z.eqb_spec (config.Interval s_config) 0); [lia|].
  destruct (Z.ltb_spec (config.Interval s_config) 0); [lia|].
  unfold bind at 1.
  destruct (runOnce s_client s_config strategies DurationString Since
                    rangeStats _) as [[err|] w1].
  - unfold bind. unfold Errorf, emit. apply runLoop_result.
  - unfold bind, ret. apply runLoop_result.
Qed.

#[local] Transparent fmt.Sprintf.

End SchedulerFacts.

(** ** LowNodeUtilization from Execute down, and the assembled cycle *)

Section LowNodeUtilizationExecute.

Import eviction cycle low_node_utilization.
Local Open Scope evict_scope.

#[local] Opaque fmt.Sprintf.

Variable s_client : Client.
Variable s_config : config.LowNodeUtilizationConfig.
Variable CalculateNodeUtilization :
  Node.t -> list Pod.t -> utils.NodeResourceUtilization.
Variable rangeUtilizations :
  gmap string utils.NodeResourceUtilization
  -> list (string * utils.NodeResourceUtilization).

Lemma does_calculateNodeUtilizationsFrom P nodes : forall utilizations,
  does P (calculateNodeUtilizationsFrom s_client CalculateNodeUtilization
            nodes utilizations)
       (fun _ => True).
Proof.
  induction nodes as [|node nodes IH]; intros utilizations;
    cbn [calculateNodeUtilizationsFrom]; [by apply does_ret|].
  unfold strategies.getPodsOnNode.
  eapply does_bind; [apply does_listPodsOnNode|]. intros [pods|err] _.
  - cbv zeta. eapply does_bind; [apply does_VInfof|]. intros _ _. apply IH.
  - by apply does_ret.
Qed.

Lemma does_categorizeFrom P entries : forall low over,
  does P (categorizeFrom s_config entries low over) (fun _ => True).
Proof.
  induction entries as [|[name u] entries IH]; intros low over;
    cbn [categorizeFrom]; [by apply does_ret|]. cbv zeta.
  destruct (utils.IsNodeUnderUtilized u (config.Thresholds s_config)).
  { eapply does_bind; [apply does_VInfof|]. intros _ _. apply IH. }
  destruct (utils.IsNodeOverUtilized u (config.TargetThresholds s_config)).
  { eapply does_bind; [apply does_VInfof|]. intros _ _. apply IH. }
  apply IH.
Qed.

Lemma does_categorizeNodes P utilizations :
  does P (categorizeNodes s_config rangeUtilizations utilizations)
       (fun _ => True).
Proof. apply does_categorizeFrom. Qed.

Lemma does_afterCalculation nodeUtilizations :
  does (active_and_evictable s_client)
    (do categorized <- categorizeNodes s_config rangeUtilizations
                         nodeUtilizations;
     let '(lowUtilizationNodes, overUtilizationNodes) := categorized in
     Infof "Found %d low utilization nodes and %d over utilization nodes"
       [fmt.AInt (len lowUtilizationNodes);
        fmt.AInt (len overUtilizationNodes)];;
     if len lowUtilizationNodes <? config.NumberOfNodes s_config then
       Infof
         "Low utilization nodes (%d) below threshold (%d). Skipping strategy."
         [fmt.AInt (len lowUtilizationNodes);
          fmt.AInt (config.NumberOfNodes s_config)];;
       ret None
     else if len overUtilizationNodes =? 0 then
       Infof "No over utilization nodes found. Skipping strategy." [];;
       ret None
     else
       strategies.evictPodsFromOverUtilizedNodes s_client s_config
         overUtilizationNodes lowUtilizationNodes)
    (fun err => err = None).
Proof.
  eapply does_bind; [apply does_categorizeNodes|]. intros [low over] _.
  eapply does_bind; [apply does_Infof|]. intros _ _.
  destruct (len low <? config.NumberOfNodes s_config).
  { eapply does_bind; [apply does_Infof|]. intros _ _. by apply does_ret. }
  destruct (len over =? 0).
  { eapply does_bind; [apply does_Infof|]. intros _ _. by apply does_ret. }
  apply does_evictPodsFromOverUtilizedNodes.
Qed.

Lemma does_LowNodeUtilization_Execute nodes :
  does (active_and_evictable s_client)
       (Execute s_client s_config CalculateNodeUtilization rangeUtilizations
                nodes)
       (fun _ => True).
Proof.
  unfold Execute.
  eapply does_bind; [apply does_Infof|]. intros _ _. cbv zeta.
  destruct (len (utils.FilterReadySchedulableNodes nodes) <? 2).
  { eapply does_bind; [apply does_Infof|]. intros _ _. by apply does_ret. }
  eapply does_bind; [apply does_calculateNodeUtilizationsFrom|].
  intros [nodeUtilizations|err] _; [|by apply does_ret].
  eapply does_weaken; [apply does_afterCalculation|done].
Qed.

(** X27. LowNodeUtilization does nothing on fewer than two ready and
    schedulable nodes: it returns no error after its two log lines,
    without a single request to the API. *)
Theorem LowNodeUtilization_needs_two_ready_nodes
    (nodes : list Node.t) (w : World) :
  (length (utils.FilterReadySchedulableNodes nodes) < 2)%nat ->
  Execute s_client s_config CalculateNodeUtilization rangeUtilizations
          nodes w
  = (None,
     extended w
       [Log Info 0 "Executing LowNodeUtilization strategy";
        Log Info 0
          (fmt.Sprintf
             "Need at least 2 ready nodes, found %d. Skipping strategy."
             [fmt.AInt (len (utils.FilterReadySchedulableNodes nodes))])]).
Proof.
  intros Hfew. unfold Execute. cbv zeta.
  destruct (Z.ltb_spec (len (utils.FilterReadySchedulableNodes nodes)) 2)
    as [_|Hmore]; [|unfold len in Hmore; lia].
  unfold bind, Infof, emit, ret, extended. cbn [evictor trace].
  rewrite <- app_assoc. reflexivity.
Qed.

(** X28. LowNodeUtilization changes the world only by log lines, list
    requests and calls of EvictPod, and it calls EvictPod only on pods
    that the API listed, that are neither Succeeded nor Failed, and that
    none of the six conditions of CanEvictPod protects, whatever the
    utilization figures are. When it returns an error, because a list
    request failed while the utilizations were computed, it has called
    EvictPod on no pod at all. *)
Theorem LowNodeUtilization_evicts_active_pods_only
    (nodes : list Node.t) (w : World) :
  let run :=
    Execute s_client s_config CalculateNodeUtilization rangeUtilizations
            nodes w in
  acts (active_and_evictable s_client) w (snd run)
  /\ (fst run <> None -> acts (fun _ => False) w (snd run)).
Proof.
  intros run. split; [apply does_LowNodeUtilization_Execute|].
  subst run.
  remember (Execute s_client s_config CalculateNodeUtilization
                    rangeUtilizations nodes w) as run eqn:Hrun.
  unfold Execute in Hrun. cbv zeta in Hrun.
  unfold bind at 1 in Hrun. unfold Infof at 1, emit at 1 in Hrun.
  set (w1 := {| evictor := evictor w; trace := _ |}) in Hrun.
  assert (Hw1 : acts (fun _ => False) w w1)
    by (apply (acts_event _ w w); [apply acts_done|done]).
  destruct (len (utils.FilterReadySchedulableNodes nodes) <? 2).
  { subst run. intros Herr. exfalso. apply Herr. reflexivity. }
  unfold calculateNodeUtilizations in Hrun. unfold bind at 1 in Hrun.
  pose proof (does_calculateNodeUtilizationsFrom (fun _ => False)
                (utils.FilterReadySchedulableNodes nodes) ∅ w1)
    as [Hcalc _].
  destruct (calculateNodeUtilizationsFrom s_client CalculateNodeUtilization
              (utils.FilterReadySchedulableNodes nodes) ∅ w1)
    as [[nodeUtilizations|err] w2]; cbn [snd] in Hcalc.
  - subst run. intros Herr. exfalso. apply Herr.
    apply (does_afterCalculation nodeUtilizations w2).
  - subst run. intros _. unfold ret. cbn [snd]. by eapply acts_trans.
Qed.

#[local] Transparent fmt.Sprintf.

End LowNodeUtilizationExecute.

Section AssembledCycle.

Import eviction cycle scheduler factory.
Local Open Scope evict_scope.

Variable f_client : Client.
Variable f_config : config.Config.
Variable podAgeSeconds : list Event -> Pod.t -> Z.
Variable CalculateNodeUtilization :
  Node.t -> list Pod.t -> utils.NodeResourceUtilization.
Variable rangeUtilizations :
  gmap string utils.NodeResourceUtilization
  -> list (string * utils.NodeResourceUtilization).
Variable rangeGroups :
  gmap string (gmap string (list Pod.t))
  -> list (string * gmap string (list Pod.t)).
Variable rangeNodes1 rangeNodes2 :
  gmap string (list Pod.t) -> list (string * list Pod.t).
Variable DurationString : Z -> string.
Variable Since : list Event -> Z.
Variable rangeStats : gmap string Z -> list (string * Z).

Lemma does_mono (P P' : Pod.t -> Prop) {A} (m : M A) (Q : A -> Prop) :
  (forall pod, P pod -> P' pod) -> does P m Q -> does P' m Q.
Proof.
  intros Hsub Hm w. destruct (Hm w) as [Hacts HQ]. split; [|done].
  by eapply acts_mono.
Qed.

Lemma CreateStrategies_members s :
  s ∈ CreateStrategies f_client f_config podAgeSeconds
        CalculateNodeUtilization rangeUtilizations rangeGroups rangeNodes1
        rangeNodes2 ->
  (exists cfg,
     config.RemoveFailedPods (config.Strategies f_config) = Some cfg
     /\ config.rfp_Enabled cfg = true
     /\ s = NewRemoveFailedPodsStrategy f_client podAgeSeconds cfg)
  \/ (exists cfg,
        config.LowNodeUtilization (config.Strategies f_config) = Some cfg
        /\ config.lnu_Enabled cfg = true
        /\ s = NewLowNodeUtilizationStrategy f_client
                 CalculateNodeUtilization rangeUtilizations cfg)
  \/ (exists cfg,
        config.RemoveDuplicates (config.Strategies f_config) = Some cfg
        /\ config.rd_Enabled cfg = true
        /\ s = NewRemoveDuplicatesStrategy f_client rangeGroups rangeNodes1
                 rangeNodes2 cfg).
Proof.
  unfold CreateStrategies. cbv zeta.
  destruct (config.RemoveFailedPods (config.Strategies f_config))
    as [rfp|]; [destruct (config.rfp_Enabled rfp) eqn:Hrfp|];
    destruct (config.LowNodeUtilization (config.Strategies f_config))
      as [lnu|]; try destruct (config.lnu_Enabled lnu) eqn:Hlnu;
    destruct (config.RemoveDuplicates (config.Strategies f_config))
      as [rd|]; try destruct (config.rd_Enabled rd) eqn:Hrd;
    cbn [app]; rewrite ?elem_of_cons, ?elem_of_nil; intros Hin;
    repeat destruct Hin as [Hin|Hin]; try done; subst s;
    first [ left; by eexists | right; left; by eexists
          | right; right; by eexists ].
Qed.

(** X29. CreateStrategies returns strategies that are enabled only, in
    the fixed order RemoveFailedPods, LowNodeUtilization,
    RemoveDuplicates, each at most once and built for its own section of
    the configuration. *)
Theorem CreateStrategies_returns_the_enabled_strategies :
  let created :=
    CreateStrategies f_client f_config podAgeSeconds
      CalculateNodeUtilization rangeUtilizations rangeGroups rangeNodes1
      rangeNodes2 in
  Forall (fun s => IsEnabled s = true) created
  /\ sublist (map Name created)
       ["RemoveFailedPods"; "LowNodeUtilization"; "RemoveDuplicates"]
  /\ (forall name, name ∈ map Name created <->
        (name = "RemoveFailedPods"
         /\ exists cfg,
              config.RemoveFailedPods (config.Strategies f_config)
              = Some cfg /\ config.rfp_Enabled cfg = true)
        \/ (name = "LowNodeUtilization"
            /\ exists cfg,
                 config.LowNodeUtilization (config.Strategies f_config)
                 = Some cfg /\ config.lnu_Enabled cfg = true)
        \/ (name = "RemoveDuplicates"
            /\ exists cfg,
                 config.RemoveDuplicates (config.Strategies f_config)
                 = Some cfg /\ config.rd_Enabled cfg = true)).
Proof.
  intros created. subst created. unfold CreateStrategies. cbv zeta.
  destruct (config.RemoveFailedPods (config.Strategies f_config))
    as [rfp|]; [destruct (config.rfp_Enabled rfp) eqn:Hrfp|];
    destruct (config.LowNodeUtilization (config.Strategies f_config))
      as [lnu|]; try destruct (config.lnu_Enabled lnu) eqn:Hlnu;
    destruct (config.RemoveDuplicates (config.Strategies f_config))
      as [rd|]; try destruct (config.rd_Enabled rd) eqn:Hrd;
    cbn [app map Name NewRemoveFailedPodsStrategy
         NewLowNodeUtilizationStrategy NewRemoveDuplicatesStrategy];
    (split; [repeat (apply Forall_cons; split; [done|]); apply Forall_nil_2|]);
    (split; [repeat first [apply sublist_nil | apply sublist_skip
                          | apply sublist_cons]|]);
    intros name; rewrite ?elem_of_cons, ?elem_of_nil;
    (split;
     [ intros Hin; repeat destruct Hin as [Hin|Hin]; try done; subst name;
       first [ left; split; [done|by eexists]
             | right; left; split; [done|by eexists]
             | right; right; split; [done|by eexists] ]
     | intros [[-> (cfg & Hcfg & Hen)]|[[-> (cfg & Hcfg & Hen)]
                                        |[-> (cfg & Hcfg & Hen)]]];
       try discriminate Hcfg; try (injection Hcfg as <-; congruence);
       tauto ]).
Qed.

(** X30. A cycle of the scheduler with the strategies CreateStrategies
    returns, whatever the configuration enables, changes the world from
    the reset on only by log lines, list requests and calls of EvictPod
    on pods that the API listed and that none of the six conditions of
    CanEvictPod protects; at its end the statistics are within every
    limit that is switched on. *)
Theorem assembled_cycle_evicts_listed_evictable_pods_only (w : World) :
  (forall podGroups signature nodePodsMap,
     (signature, nodePodsMap) ∈ rangeGroups podGroups ->
     podGroups !! signature = Some nodePodsMap) ->
  limits_are_ints (config.Limits (config (evictor w))) ->
  let w' :=
    snd (runOnce f_client f_config
           (CreateStrategies f_client f_config podAgeSeconds
              CalculateNodeUtilization rangeUtilizations rangeGroups
              rangeNodes1 rangeNodes2)
           DurationString Since rangeStats w) in
  acts (fun pod => listed f_client pod /\ evictable pod) (afterReset w) w'
  /\ within_limits (config.Limits (config (evictor w))) (stats (evictor w')).
Proof.
  intros Hrange Hints. cbv zeta.
  assert (Hacts :
    acts (fun pod => listed f_client pod /\ evictable pod) (afterReset w)
      (snd (runOnce f_client f_config
              (CreateStrategies f_client f_config podAgeSeconds
                 CalculateNodeUtilization rangeUtilizations rangeGroups
                 rangeNodes1 rangeNodes2)
              DurationString Since rangeStats w))).
  { apply runOnce_from_reset. intros s nodes Hin _.
    apply CreateStrategies_members
      in Hin as [(cfg & _ & _ & ->)|[(cfg & _ & _ & ->)|(cfg & _ & _ & ->)]];
      cbn [Execute NewRemoveFailedPodsStrategy NewLowNodeUtilizationStrategy
           NewRemoveDuplicatesStrategy].
    - eapply does_mono;
        [|eapply does_weaken; [apply does_RemoveFailedPods_Execute|done]].
      by intros pod (? & _ & ? & _).
    - eapply does_mono; [|apply does_LowNodeUtilization_Execute].
      by intros pod (? & _ & _ & ?).
    - eapply does_mono; [|by apply does_RemoveDuplicates_Execute].
      by intros pod (? & _ & ? & _). }
  split; [exact Hacts|].
  destruct (acts_settings _ _ _ Hacts) as (_ & Hcfg & _).
  assert (Hinv : quota_inv (evictor (afterReset w)))
    by (by apply quota_inv_zeroStats).
  apply (acts_quota_inv _ _ _ Hacts) in Hinv as (_ & _ & Hw).
  rewrite Hcfg in Hw. exact Hw.
Qed.

End AssembledCycle.

(** * The properties on the small cluster *)

Section OnTheSmallCluster.

Import eviction cycle strategies scheduler.

Lemma quota_limits_hold_witness :
  limits_are_ints (config.Limits (config (evictor (samples.world false))))
  /\ within_limits samples.limits
       (stats (evictor (snd (runOps (OpReset :: samples.ops)
                                    (samples.world false))))).
Proof.
  assert (Hints : limits_are_ints
                    (config.Limits (config (evictor (samples.world false))))).
  { unfold limits_are_ints, GoInt.in_range, GoInt.minInt, GoInt.maxInt.
    cbn. lia. }
  split; [exact Hints|].
  exact (quota_limits_hold (samples.world false) samples.ops Hints).
Defined.

Lemma CanEvictPod_first_matching_rule_witness :
  Pod.OwnerReferences samples.orphan = []
  /\ Pod.Phase samples.orphan = PodFailed
  /\ CanEvictPod (evictor (samples.world true)) samples.orphan
     <> (false, "standalone pod (not failed)").
Proof.
  split; [reflexivity|]. split; [reflexivity|].
  destruct (CanEvictPod_first_matching_rule
              (evictor (samples.world true)) samples.orphan)
    as (_ & _ & Hfailed).
  apply Hfailed; reflexivity.
Defined.

Lemma quota_rejection_changes_nothing_witness :
  checkEvictionLimits (evictor samples.worldAfterWeb0) samples.web1
  = Some "reached namespace a eviction limit: 1"
  /\ EvictPod samples.web1 "again" samples.worldAfterWeb0
     = (Some "reached namespace a eviction limit: 1",
        samples.worldAfterWeb0).
Proof.
  assert (Hcheck : checkEvictionLimits (evictor samples.worldAfterWeb0)
                     samples.web1
                   = Some "reached namespace a eviction limit: 1").
  { vm_compute. reflexivity. }
  split; [exact Hcheck|].
  destruct (quota_rejection_changes_nothing
              samples.web1 "again" samples.worldAfterWeb0) as [_ Hsame].
  apply Hsame. exact Hcheck.
Defined.

Lemma dry_run_counts_without_evicting_witness :
  config.DryRun (config (evictor (samples.world true))) = true
  /\ checkEvictionLimits (evictor (samples.world true)) samples.web0 = None
  /\ apiEvictions (trace (snd (EvictPod samples.web0 "earlier"
                                        (samples.world true))))
     = apiEvictions (trace (samples.world true)).
Proof.
  assert (Hdry : config.DryRun (config (evictor (samples.world true)))
                 = true) by reflexivity.
  assert (Hcheck : checkEvictionLimits (evictor (samples.world true))
                     samples.web0 = None).
  { vm_compute. reflexivity. }
  split; [exact Hdry|]. split; [exact Hcheck|].
  destruct (dry_run_counts_without_evicting
              samples.web0 "earlier" (samples.world true) Hdry Hcheck)
    as (_ & Hnone & _).
  exact Hnone.
Defined.

Lemma empty_node_name_is_never_counted_witness :
  Pod.NodeName samples.unbound = ""
  /\ EvictedByNode
       (stats (evictor (snd (EvictPod samples.unbound "fourth"
                                      (samples.world true)))))
     = EvictedByNode (stats (evictor (samples.world true))).
Proof.
  split; [reflexivity|].
  destruct (empty_node_name_is_never_counted
              (samples.world true) samples.ops) as [_ Hpod].
  destruct (Hpod samples.unbound "fourth" (samples.world true) eq_refl)
    as (_ & _ & Hsame & _).
  exact Hsame.
Defined.

Lemma signature_depends_on_three_components_witness :
  Pod.Namespace samples.twin1 = Pod.Namespace samples.twin2
  /\ map ownerKey (Pod.OwnerReferences samples.twin1)
     = map ownerKey (Pod.OwnerReferences samples.twin2)
  /\ utils.GetPodImages samples.twin1 = utils.GetPodImages samples.twin2
  /\ utils.GeneratePodSignature samples.twin1
     = utils.GeneratePodSignature samples.twin2.
Proof.
  assert (Hns : Pod.Namespace samples.twin1 = Pod.Namespace samples.twin2)
    by reflexivity.
  assert (Hown : map ownerKey (Pod.OwnerReferences samples.twin1)
                 = map ownerKey (Pod.OwnerReferences samples.twin2))
    by reflexivity.
  assert (Himg : utils.GetPodImages samples.twin1
                 = utils.GetPodImages samples.twin2).
  { vm_compute. reflexivity. }
  split; [exact Hns|]. split; [exact Hown|]. split; [exact Himg|].
  destruct (signature_depends_on_three_components
              samples.twin1 samples.twin2) as (_ & _ & _ & _ & Hsame).
  exact (Hsame Hns Hown Himg).
Defined.

Lemma cap_bounds_successful_evictions_witness :
  config.validateResourceThresholds (config.TargetThresholds samples.lnu)
  = None
  /\ percentages samples.busy
  /\ calculateMaxEvictions samples.lnu samples.busy
     = clamp (maxExcess (config.TargetThresholds samples.lnu) samples.busy
              / 10) 1 5.
Proof.
  assert (Hv : config.validateResourceThresholds
                 (config.TargetThresholds samples.lnu) = None)
    by reflexivity.
  assert (Hp : percentages samples.busy).
  { unfold percentages, GoInt.maxInt. cbn. lia. }
  split; [exact Hv|]. split; [exact Hp|].
  destruct (cap_bounds_successful_evictions samples.cluster samples.lnu
              samples.busy Hv Hp) as (Hcap & _).
  exact Hcap.
Defined.

Lemma duplicates_need_two_nodes_witness :
  (2 <= size samples.twoNodeGroup)%nat
  /\ samples.twoNodeGroup !! "n1" = Some [samples.web1; samples.web0]
  /\ "n1" ∈ findDuplicateNodes samples.twoNodeGroup
              (map_to_list samples.twoNodeGroup)
              (map_to_list samples.twoNodeGroup).
Proof.
  assert (Hsize : (2 <= size samples.twoNodeGroup)%nat).
  { vm_compute. lia. }
  assert (Hlook : samples.twoNodeGroup !! "n1"
                  = Some [samples.web1; samples.web0]) by reflexivity.
  split; [exact Hsize|]. split; [exact Hlook|].
  destruct (duplicates_need_two_nodes samples.cluster fixtures.rd
              fixtures.rangeGroups fixtures.rangeNodes fixtures.rangeNodes
              samples.twoNodeGroup
              (map_to_list samples.twoNodeGroup)
              (map_to_list samples.twoNodeGroup))
    as (_ & _ & _ & Hsel & _).
  apply (Hsel Hsize (reflexivity _) "n1" [samples.web1; samples.web0] Hlook).
  cbn. lia.
Defined.

Lemma short_cycle_skips_summary_witness :
  (length (utils.FilterReadySchedulableNodes [samples.readyNode "n1"]) < 2)%nat
  /\ runOnce samples.cluster (samples.cfg 0 true) [] samples.durationString
             samples.since samples.rangeStats (samples.world true)
     = (None,
        {| evictor := with_stats (evictor (samples.world true)) zeroStats;
           trace := trace (samples.world true)
                    ++ skippedCycle [samples.readyNode "n1"] |}).
Proof.
  assert (Hfew : (length (utils.FilterReadySchedulableNodes
                            [samples.readyNode "n1"]) < 2)%nat).
  { vm_compute. lia. }
  split; [exact Hfew|].
  destruct (short_cycle_skips_summary samples.cluster (samples.cfg 0 true)
              samples.durationString samples.since samples.rangeStats
              [] (samples.world true) [samples.readyNode "n1"]
              eq_refl Hfew) as (Hrun & _).
  exact Hrun.
Defined.

Lemma one_shot_and_interval_validation_witness :
  config.Interval (samples.cfg 0 true) = 0
  /\ fst (Run samples.cluster (samples.cfg 0 true) [] samples.durationString
              samples.since samples.rangeStats [Tick; Tick]
              (samples.world true))
     = Returned None
  /\ config.Interval (samples.cfg (-1) true) <> 0
  /\ config.Interval (samples.cfg (-1) true) < config.Minute
  /\ config.LoadConfig (samples.cfg (-1) true)
     = inr "invalid config: interval must be at least 1 minute".
Proof.
  destruct (one_shot_and_interval_validation samples.cluster
              (samples.cfg 0 true) samples.durationString samples.since
              samples.rangeStats) as [Hrun Hload].
  assert (Hne : config.Interval (samples.cfg (-1) true) <> 0)
    by (cbn; lia).
  assert (Hlt : config.Interval (samples.cfg (-1) true) < config.Minute)
    by (unfold config.Minute; cbn; lia).
  split; [reflexivity|]. split.
  { rewrite (Hrun eq_refl [] [Tick; Tick] (samples.world true)).
    vm_compute. reflexivity. }
  split; [exact Hne|]. split; [exact Hlt|].
  destruct (Hload (samples.cfg (-1) true) Hne) as [Hrej _].
  exact (Hrej Hlt).
Defined.

(** The order of the owner references shows in the signature. *)
Lemma owner_order_shows_in_signature :
  utils.GeneratePodSignature
    (samples.adopted [samples.owner "ReplicaSet" "web" "u1";
                      samples.owner "Job" "batch" "u2"])
  = "a|ReplicaSet:web|Job:batch|nginx:1.25"
  /\ utils.GeneratePodSignature
       (samples.adopted [samples.owner "Job" "batch" "u2";
                         samples.owner "ReplicaSet" "web" "u1"])
     = "a|Job:batch|ReplicaSet:web|nginx:1.25".
Proof. split; vm_compute; reflexivity. Qed.

(** C5, the claim as stated fails. With a cap of 1, the first candidate
    is rejected for quota (its namespace is at its limit) and the second
    one is evicted all the same: the rejection has taken no slot. *)
Lemma quota_rejection_takes_no_cap_slot :
  calculateMaxEvictions samples.lnu samples.busy = 1
  /\ rejected_for_quota samples.worldAfterWeb0 samples.web2
  /\ (let (c, w) :=
        evictFromNode samples.busy 1 [samples.web2; samples.api1]
                      samples.noCounters samples.worldAfterWeb0 in
      evicted c = 1
      /\ TotalEvicted (stats (evictor w)) = 2
      /\ trace w
         = [Log Info 0
              "[DryRun] Would evict pod a/web-0 on node n1, reason: earlier";
            Log Error 0
              "Failed to evict pod a/web-2: reached namespace a eviction limit: 1";
            Log Info 0
              "[DryRun] Would evict pod b/api-1 on node n1, reason: Node over-utilization balancing - CPU=90%, Memory=50%, Pods=40%";
            Log Info 2
              "Successfully evicted pod b/api-1 from over-utilized node n1"]).
Proof.
  split; [reflexivity|]. split.
  - split; [reflexivity|]. vm_compute. discriminate.
  - vm_compute. repeat split.
Qed.

(** C6, the claim as stated fails. A group whose only node carries three
    pods has no duplicate node, and processing it requests nothing of
    the evictor. *)
Lemma one_node_group_is_skipped :
  samples.oneNodeGroup !! "n1"
  = Some [samples.web0; samples.web1; samples.web2]
  /\ findDuplicateNodes samples.oneNodeGroup
       (map_to_list samples.oneNodeGroup)
       (map_to_list samples.oneNodeGroup) = []
  /\ processGroup map_to_list map_to_list
       (utils.GeneratePodSignature samples.web0) samples.oneNodeGroup
       samples.noDupCounters (samples.world false)
     = (samples.noDupCounters,
        extended (samples.world false)
          [Log Info 3
             "Processing pod signature: a|ReplicaSet:web|nginx:1.25"]).
Proof.
  split; [reflexivity|]. split; [reflexivity|]. vm_compute. reflexivity.
Qed.

(** C7, the claim as stated fails. A negative interval, which is not
    between 0 and one minute, is rejected; and an interval of 0 in the
    file is loaded as five minutes, so that Run with the loaded
    configuration goes on to a second cycle at the first tick and then
    waits for the next. *)
Lemma zero_interval_is_loaded_as_five_minutes :
  config.LoadConfig (samples.cfg (-1) true)
  = inr "invalid config: interval must be at least 1 minute"
  /\ config.LoadConfig (samples.cfg 0 true)
     = inl (samples.cfg (5 * config.Minute) true)
  /\ (let (result, w) :=
        Run samples.cluster (samples.cfg (5 * config.Minute) true) []
            samples.durationString samples.since samples.rangeStats
            [Tick] (samples.world true) in
      result = Waiting
      /\ cyclesStarted (trace w) = 2%nat).
Proof.
  split; [vm_compute; reflexivity|]. split; [vm_compute; reflexivity|].
  vm_compute. split; reflexivity.
Qed.

(** C9, the claim as stated fails. With one ready node the cycle ends
    after the line that says it is skipped: no summary is logged. *)
Lemma short_cycle_logs_no_summary :
  runOnce samples.cluster (samples.cfg 0 true) [] samples.durationString
          samples.since samples.rangeStats (samples.world true)
  = (None,
     {| evictor := evictor (samples.world true);
        trace :=
          [Log Info 0 "=== Starting descheduling cycle ===";
           ApiListNodes;
           Log Info 2 "Node n1 is available for descheduling";
           Log Info 0 "Found 1 available nodes";
           Log Info 0
             "Need at least 2 nodes for descheduling, found 1. Skipping cycle."] |}).
Proof. vm_compute. reflexivity. Qed.

End OnTheSmallCluster.

(** * More properties on the small cluster *)

Section MoreOnTheSmallCluster.

Import eviction cycle strategies scheduler.

Lemma total_limit_is_reached_exactly_witness :
  always_accepted (evictor fixtures.worldTotalOnly)
  /\ TotalEvicted
       (stats (evictor (snd (runOps
                               (OpReset :: evictions fixtures.threeCalls)
                               fixtures.worldTotalOnly))))
     = 2.
Proof.
  assert (Hacc : always_accepted (evictor fixtures.worldTotalOnly))
    by (right; intros history ev; reflexivity).
  split; [exact Hacc|].
  apply (total_limit_is_reached_exactly fixtures.worldTotalOnly
           fixtures.threeCalls).
  - unfold GoInt.maxInt. cbn. lia.
  - cbn. lia.
  - cbn. lia.
  - exact Hacc.
Defined.

Lemma refused_eviction_uses_no_quota_witness :
  Evict (client (evictor (fixtures.worldOf fixtures.refusing false))) []
        (evictionOf (evictor (fixtures.worldOf fixtures.refusing false))
                    samples.web0)
  = Some "disruption budget exhausted"
  /\ fst (EvictPod samples.web0 "first"
                   (fixtures.worldOf fixtures.refusing false))
     = Some "failed to evict pod a/web-0: disruption budget exhausted"
  /\ checkEvictionLimits
       (evictor (snd (EvictPod samples.web0 "first"
                               (fixtures.worldOf fixtures.refusing false))))
       samples.web1
     = None.
Proof.
  assert (Hcheck : checkEvictionLimits
                     (evictor (fixtures.worldOf fixtures.refusing false))
                     samples.web0 = None).
  { vm_compute. reflexivity. }
  destruct (refused_eviction_uses_no_quota samples.web0 "first"
              "disruption budget exhausted"
              (fixtures.worldOf fixtures.refusing false)
              eq_refl Hcheck eq_refl) as [Hrun Hsame].
  split; [reflexivity|]. split.
  - rewrite Hrun. reflexivity.
  - rewrite Hsame. vm_compute. reflexivity.
Defined.

Lemma dry_run_never_calls_the_api_witness :
  config.DryRun (config (evictor (samples.world true))) = true
  /\ apiEvictions (trace (snd (runOps samples.ops (samples.world true))))
     = [].
Proof.
  split; [reflexivity|].
  exact (dry_run_never_calls_the_api samples.ops (samples.world true)
           eq_refl).
Defined.

Lemma every_eviction_is_graceful_witness :
  apiEvictions
    (trace (snd (runOps [OpEvict samples.web0 "first"]
                        (samples.world false))))
  = [evictionOf (evictor (samples.world false)) samples.web0]
  /\ Eviction.GracePeriodSeconds
       (evictionOf (evictor (samples.world false)) samples.web0)
     = 30.
Proof.
  assert (Hsent : apiEvictions
                    (trace (snd (runOps [OpEvict samples.web0 "first"]
                                        (samples.world false))))
                  = [evictionOf (evictor (samples.world false))
                                samples.web0]).
  { vm_compute. reflexivity. }
  split; [exact Hsent|].
  apply (every_eviction_is_graceful samples.cluster
           (samples.cfg (5 * config.Minute) false)
           [OpEvict samples.web0 "first"]).
  fold (samples.world false). rewrite Hsent. apply list_elem_of_here.
Defined.

Lemma statistics_add_up_witness :
  limits_are_ints (config.Limits (config (evictor (samples.world false))))
  /\ sumOf (EvictedByNamespace
              (stats (evictor (snd (runOps (OpReset :: samples.ops)
                                           (samples.world false))))))
     = TotalEvicted
         (stats (evictor (snd (runOps (OpReset :: samples.ops)
                                      (samples.world false))))).
Proof.
  assert (Hints : limits_are_ints
                    (config.Limits (config (evictor (samples.world false))))).
  { unfold limits_are_ints, GoInt.in_range, GoInt.minInt, GoInt.maxInt.
    cbn. lia. }
  split; [exact Hints|].
  destruct (statistics_add_up (samples.world false) samples.ops Hints)
    as (Hns & _).
  - cbn. lia.
  - exact Hns.
Defined.

Lemma loaded_config_is_complete_witness :
  config.LoadConfig (samples.cfg 0 true)
  = inl (samples.cfg (5 * config.Minute) true)
  /\ config.LoadConfig (samples.cfg (5 * config.Minute) true)
     = inl (samples.cfg (5 * config.Minute) true).
Proof.
  assert (Hload : config.LoadConfig (samples.cfg 0 true)
                  = inl (samples.cfg (5 * config.Minute) true))
    by reflexivity.
  split; [exact Hload|].
  destruct (loaded_config_is_complete _ _ Hload)
    as (_ & _ & _ & _ & _ & _ & _ & _ & Hagain).
  exact Hagain.
Defined.

Lemma under_utilized_is_not_over_utilized_witness :
  utils.IsNodeUnderUtilized fixtures.idle (config.Thresholds samples.lnu)
  = true
  /\ utils.IsNodeOverUtilized fixtures.idle
       (config.TargetThresholds samples.lnu)
     = false.
Proof.
  split; [reflexivity|].
  apply (under_utilized_is_not_over_utilized fixtures.idle
           (config.Thresholds samples.lnu)
           (config.TargetThresholds samples.lnu)).
  - cbn. lia.
  - cbn. lia.
  - cbn. lia.
  - reflexivity.
Defined.

Lemma RemoveDuplicates_evicts_replaceable_pods_only_witness :
  (forall podGroups signature nodePodsMap,
     (signature, nodePodsMap) ∈ fixtures.rangeGroups podGroups ->
     podGroups !! signature = Some nodePodsMap)
  /\ acts (running_and_replaceable fixtures.crowded fixtures.rd)
          (fixtures.worldOf fixtures.crowded false)
          (snd (strategies.Execute fixtures.crowded fixtures.rd
                  fixtures.rangeGroups fixtures.rangeNodes
                  fixtures.rangeNodes fixtures.twoNodes
                  (fixtures.worldOf fixtures.crowded false))).
Proof.
  assert (Hrange : forall (podGroups : gmap string (gmap string (list Pod.t)))
                          signature nodePodsMap,
             (signature, nodePodsMap) ∈ fixtures.rangeGroups podGroups ->
             podGroups !! signature = Some nodePodsMap).
  { intros podGroups signature nodePodsMap Hin.
    apply elem_of_map_to_list. exact Hin. }
  split; [exact Hrange|].
  destruct (RemoveDuplicates_evicts_replaceable_pods_only
              fixtures.crowded fixtures.rd fixtures.rangeGroups
              fixtures.rangeNodes fixtures.rangeNodes fixtures.twoNodes
              (fixtures.worldOf fixtures.crowded false) Hrange)
    as [Hacts _].
  exact Hacts.
Defined.

Lemma one_pod_per_node_is_left_alone_witness :
  map_Forall (fun _ pods => (length pods <= 1)%nat) fixtures.spreadGroup
  /\ exists lines,
       processGroup fixtures.rangeNodes fixtures.rangeNodes "shop"
         fixtures.spreadGroup samples.noDupCounters
         (fixtures.worldOf fixtures.crowded false)
       = (samples.noDupCounters,
          extended (fixtures.worldOf fixtures.crowded false) lines)
       /\ Forall (fun ev => exists v line, ev = Log Info v line) lines.
Proof.
  assert (Hone : map_Forall (fun _ pods => (length pods <= 1)%nat)
                            fixtures.spreadGroup).
  { apply map_Forall_insert_2; [cbn; lia|].
    apply map_Forall_singleton. cbn. lia. }
  split; [exact Hone|].
  exact (one_pod_per_node_is_left_alone fixtures.rangeNodes
           fixtures.rangeNodes "shop" fixtures.spreadGroup
           samples.noDupCounters (fixtures.worldOf fixtures.crowded false)
           Hone).
Defined.

Lemma steps_through_EvictPod_are_safe_witness :
  acts (fun pod => pod = samples.web0) (samples.world true)
       (snd (EvictPod samples.web0 "first" (samples.world true)))
  /\ apiEvictions
       (trace (snd (EvictPod samples.web0 "first" (samples.world true))))
     = [].
Proof.
  assert (Hacts : acts (fun pod => pod = samples.web0) (samples.world true)
                    (snd (EvictPod samples.web0 "first"
                                   (samples.world true)))).
  { apply acts_EvictPod; [apply acts_done|reflexivity]. }
  split; [exact Hacts|].
  destruct (steps_through_EvictPod_are_safe _ _ _ Hacts)
    as (_ & _ & _ & Hdry).
  exact (Hdry eq_refl).
Defined.

Lemma cycle_stays_within_the_limits_witness :
  limits_are_ints
    (config.Limits (config (evictor (fixtures.worldOf fixtures.crowded
                                                       false))))
  /\ within_limits samples.limits
       (stats (evictor
                 (snd (runOnce fixtures.crowded fixtures.allStrategies
                         [factory.NewRemoveFailedPodsStrategy
                            fixtures.crowded fixtures.podAgeSeconds
                            fixtures.rfp]
                         samples.durationString samples.since
                         samples.rangeStats
                         (fixtures.worldOf fixtures.crowded false))))).
Proof.
  assert (Hints : limits_are_ints
                    (config.Limits
                       (config (evictor (fixtures.worldOf fixtures.crowded
                                                          false))))).
  { unfold limits_are_ints, GoInt.in_range, GoInt.minInt, GoInt.maxInt.
    cbn. lia. }
  split; [exact Hints|].
  destruct (cycle_stays_within_the_limits fixtures.crowded
              fixtures.allStrategies samples.durationString samples.since
              samples.rangeStats
              (failed_and_cleanable fixtures.crowded fixtures.rfp
                 fixtures.podAgeSeconds)
              [factory.NewRemoveFailedPodsStrategy fixtures.crowded
                 fixtures.podAgeSeconds fixtures.rfp]
              (fixtures.worldOf fixtures.crowded false) Hints)
    as [_ Hwithin].
  - intros s nodes Hin%list_elem_of_singleton _. subst s.
    eapply does_weaken; [apply does_RemoveFailedPods_Execute|done].
  - exact Hwithin.
Defined.

Lemma Run_stops_only_on_cancellation_witness :
  0 < config.Interval fixtures.allStrategies
  /\ fst (Run fixtures.crowded fixtures.allStrategies []
              samples.durationString samples.since samples.rangeStats
              fixtures.signals (fixtures.worldOf fixtures.crowded false))
     = Returned (Some "context canceled").
Proof.
  assert (Hpos : 0 < config.Interval fixtures.allStrategies)
    by reflexivity.
  split; [exact Hpos|].
  exact (Run_stops_only_on_cancellation fixtures.crowded
           fixtures.allStrategies samples.durationString samples.since
           samples.rangeStats [] fixtures.signals
           (fixtures.worldOf fixtures.crowded false) Hpos).
Defined.

Lemma loaded_configuration_never_runs_once_witness :
  config.LoadConfig (samples.cfg 0 true)
  = inl (samples.cfg (5 * config.Minute) true)
  /\ fst (Run fixtures.crowded (samples.cfg (5 * config.Minute) true) []
              samples.durationString samples.since samples.rangeStats
              fixtures.signals (fixtures.worldOf fixtures.crowded true))
     = Returned (Some "context canceled").
Proof.
  assert (Hload : config.LoadConfig (samples.cfg 0 true)
                  = inl (samples.cfg (5 * config.Minute) true))
    by reflexivity.
  split; [exact Hload|].
  exact (loaded_configuration_never_runs_once fixtures.crowded
           (samples.cfg (5 * config.Minute) true) samples.durationString
           samples.since samples.rangeStats (samples.cfg 0 true) []
           fixtures.signals (fixtures.worldOf fixtures.crowded true) Hload).
Defined.

Lemma LowNodeUtilization_needs_two_ready_nodes_witness :
  (length (utils.FilterReadySchedulableNodes [samples.readyNode "n1"]) < 2)%nat
  /\ fst (low_node_utilization.Execute fixtures.crowded samples.lnu
            fixtures.CalculateNodeUtilization fixtures.rangeUtilizations
            [samples.readyNode "n1"]
            (fixtures.worldOf fixtures.crowded false))
     = None.
Proof.
  assert (Hfew : (length (utils.FilterReadySchedulableNodes
                            [samples.readyNode "n1"]) < 2)%nat).
  { vm_compute. lia. }
  split; [exact Hfew|].
  rewrite (LowNodeUtilization_needs_two_ready_nodes fixtures.crowded
             samples.lnu fixtures.CalculateNodeUtilization
             fixtures.rangeUtilizations [samples.readyNode "n1"]
             (fixtures.worldOf fixtures.crowded false) Hfew).
  reflexivity.
Defined.

Lemma assembled_cycle_evicts_listed_evictable_pods_only_witness :
  limits_are_ints
    (config.Limits (config (evictor (fixtures.worldOf fixtures.crowded
                                                       false))))
  /\ within_limits samples.limits
       (stats (evictor
                 (snd (runOnce fixtures.crowded fixtures.allStrategies
                         (factory.CreateStrategies fixtures.crowded
                            fixtures.allStrategies fixtures.podAgeSeconds
                            fixtures.CalculateNodeUtilization
                            fixtures.rangeUtilizations fixtures.rangeGroups
                            fixtures.rangeNodes fixtures.rangeNodes)
                         samples.durationString samples.since
                         samples.rangeStats
                         (fixtures.worldOf fixtures.crowded false))))).
Proof.
  assert (Hints : limits_are_ints
                    (config.Limits
                       (config (evictor (fixtures.worldOf fixtures.crowded
                                                          false))))).
  { unfold limits_are_ints, GoInt.in_range, GoInt.minInt, GoInt.maxInt.
    cbn. lia. }
  split; [exact Hints|].
  destruct (assembled_cycle_evicts_listed_evictable_pods_only
              fixtures.crowded fixtures.allStrategies fixtures.podAgeSeconds
              fixtures.CalculateNodeUtilization fixtures.rangeUtilizations
              fixtures.rangeGroups fixtures.rangeNodes fixtures.rangeNodes
              samples.durationString samples.since samples.rangeStats
              (fixtures.worldOf fixtures.crowded false))
    as [_ Hwithin].
  - intros podGroups signature nodePodsMap Hin.
    apply elem_of_map_to_list. exact Hin.
  - exact Hints.
  - exact Hwithin.
Defined.

End MoreOnTheSmallCluster.
